(** * Parallel-pattern skeletons of [patterns.c]: a shallow embedding

    The C library offers map, reduce, scan, pack, gather, scatter and
    pipeline skeletons over flat arrays of fixed-size elements.  This
    development embeds the code of [src/code/src/patterns.c] and states
    its properties.

    Modelling choices, all visible in the definitions below.

    - Elements.  [TYPE] is declared outside [patterns.c]; it is the
      parameter [T] of the development, and [zero] is the element whose
      bytes are all zero (what [memset (.., 0, ..)] and [calloc] produce).
      Every call passes [sizeJob = sizeof (TYPE)], as the code itself
      needs (it mixes [TYPE *] strides with [sizeJob] strides), so byte
      offset [i * sizeJob] is element [i] and [memcpy (.., sizeJob)]
      copies one element.
    - Integers.  [size_t] is 64 bits and [int] 32 bits (LP64); values
      are in [Z] and every conversion and every [size_t] operation that
      can wrap is written with [to_size_t] or [to_int].
    - Memory.  A heap of blocks, each a list of elements; a pointer is a
      block and an element offset, so [dest + 1], [&s[i]] and aliasing
      are what they are in C.  A load or store outside its block ends
      the run with [OutOfBounds].
    - Control.  A run ends by returning, by [exit (status)], by a failed
      [assert], or out of bounds.
    - OpenMP.  [omp_get_max_threads ()] and the schedule are
      parameters.  The thread count decides the tiles of [reduceImpl]
      and [scan].  A loop under [#pragma omp for] runs its iterations one
      after the other in the order that the schedule gives to that
      parallel region, any permutation of the index range; the
      theorems hold for every schedule.  Two iterations are not
      interleaved with each other.

    [sequentialPipeline] is left out: its loop spawns OpenMP tasks
    that run [mapImpl] side by side, and it computes [j % nJob], which
    faults for [nJob = 0]; the model has neither tasks nor that fault.
    The patterns that [patterns.h] declares without a definition in
    [patterns.c] are left out too.

    The development has two parts.  The first states the contract of
    every pattern: what it leaves in [dest] on well-formed input, and
    where the contract stops (operators without identity, job counts
    beyond [INT_MAX], indices out of range).  The second follows the
    code further: the exact result of [reduce] and of the scans for any
    operator, the calls in place ([dest = src]), [scatter] with any
    filter, [scatter] and [gather] one after the other, and the inputs
    on which a call ends in a failed assertion or out of bounds. *)

From Stdlib Require Import ZArith Lia.
From stdpp Require Import base list numbers.

#[local] Open Scope Z_scope.

(** ** Machine integers *)

Definition SIZE_MAX : Z := 2 ^ 64 - 1.
Definition INT_MAX : Z := 2 ^ 31 - 1.

(** Conversion to [size_t]: reduction modulo [2^64]. *)
Definition to_size_t (z : Z) : Z := z mod 2 ^ 64.

(** Conversion to [int]: reduction modulo [2^32] into [-2^31 .. 2^31-1]. *)
Definition to_int (z : Z) : Z := (z + 2 ^ 31) mod 2 ^ 32 - 2 ^ 31.

(** ** Utils *)

Definition min (a b : Z) : Z := if a <? b then a else b.

Definition max (a b : Z) : Z := if a >? b then a else b.

(** [tile] and [leftOverTiles] are [int], [tileSize] is [size_t]: the
    products and the sum are computed in [size_t]. *)
Definition getTileIndex (tile leftOverTiles tileSize : Z) : Z :=
  if tile =? 0 then 0
  else if tile <? leftOverTiles
       then to_size_t (to_size_t tile * to_size_t (tileSize + 1))
       else to_size_t
              (to_size_t (to_size_t leftOverTiles * to_size_t (tileSize + 1))
               + to_size_t (to_size_t (tile - leftOverTiles) * tileSize)).

(** The tile parameters that [reduceImpl] and [scan] compute from the job
    count and the thread count ([nThreads] is an [int], converted to
    [size_t] by the division, the remainder and the call of [min]). *)
Definition tileSize (nJob nThreads : Z) : Z := nJob / to_size_t nThreads.

Definition leftOverJobs (nJob nThreads : Z) : Z :=
  to_int (nJob mod to_size_t nThreads).

Definition nTiles (nJob nThreads : Z) : Z :=
  to_int (min nJob (to_size_t nThreads)).

Definition tileSizeWithOffset (tileSize leftOverJobs tile : Z) : Z :=
  to_size_t (tileSize + (if tile <? leftOverJobs then 1 else 0)).

(** *** The tile contract, as the specification words it *)

Module TileContract.
Definition nTiles (totalItems workerCount : Z) : Z :=
  Z.min totalItems workerCount.
Definition tileSize (totalItems workerCount : Z) : Z :=
  totalItems / nTiles totalItems workerCount.
Definition leftover (totalItems workerCount : Z) : Z :=
  totalItems mod nTiles totalItems workerCount.
Definition length (totalItems workerCount t : Z) : Z :=
  if t <? leftover totalItems workerCount
  then tileSize totalItems workerCount + 1
  else tileSize totalItems workerCount.
Definition start (totalItems workerCount t : Z) : Z :=
  if t <? leftover totalItems workerCount
  then t * (tileSize totalItems workerCount + 1)
  else leftover totalItems workerCount * (tileSize totalItems workerCount + 1)
       + (t - leftover totalItems workerCount)
         * tileSize totalItems workerCount.
End TileContract.

(** The tile that the code gives to index [tile]: start offset and length. *)
Definition tileStart (nJob nThreads tile : Z) : Z :=
  getTileIndex tile (leftOverJobs nJob nThreads) (tileSize nJob nThreads).

Definition tileLength (nJob nThreads tile : Z) : Z :=
  tileSizeWithOffset (tileSize nJob nThreads) (leftOverJobs nJob nThreads) tile.

(** ** Memory, pointers and runs *)

Record ptr : Type := Ptr { blk : nat; off : Z }.

#[global] Instance ptr_eq_dec : EqDecision ptr.
Proof. solve_decision. Defined.

Definition shift (p : ptr) (i : Z) : ptr := Ptr (blk p) (off p + i).

Notation "p +ₚ i" := (shift p i) (at level 50, left associativity).

Inductive outcome (A : Type) : Type :=
| Returned (a : A)
| Exited (status : Z)
| AssertFailed
| OutOfBounds.

Arguments Returned {A} a.
Arguments Exited {A} status.
Arguments AssertFailed {A}.
Arguments OutOfBounds {A}.

Abbreviation mem T := (list (list T)).

(** The state of a run: the heap, and the number of parallel regions
    the run has entered so far. *)
Abbreviation state T := (prod (list (list T)) nat).

Definition M (T A : Type) : Type := state T → outcome (A * state T).

#[global] Instance M_ret {T} : MRet (M T) :=
  λ A a σ, Returned (a, σ).

#[global] Instance M_bind {T} : MBind (M T) :=
  λ A B k c σ,
    match c σ with
    | Returned (a, σ') => k a σ'
    | Exited s => Exited s
    | AssertFailed => AssertFailed
    | OutOfBounds => OutOfBounds
    end.

(** The run of a call from a heap: its outcome and the heap it leaves. *)
Definition run {T A} (c : M T A) (m : mem T) : outcome (A * mem T) :=
  match c (m, O) with
  | Returned (a, σ) => Returned (a, σ.1)
  | Exited s => Exited s
  | AssertFailed => AssertFailed
  | OutOfBounds => OutOfBounds
  end.

(** A schedule gives, to the [k]-th parallel region of a run and the
    bounds of its loop, the order in which the iterations are run. *)
Definition schedule : Type := nat → Z → Z → list Z.

(** Every iteration of [[lo, hi)] is run, and run once. *)
Definition schedule_ok (sched : schedule) : Prop :=
  ∀ k lo hi, sched k lo hi ≡ₚ seqZ lo (hi - lo).

(** The schedule of one thread: index order. *)
Definition in_order : schedule := λ _ lo hi, seqZ lo (hi - lo).

(** A schedule that runs the iterations last to first. *)
Definition last_first : schedule := λ _ lo hi, reverse (seqZ lo (hi - lo)).

Section Model.
Context {T : Type}.

(** The element a pointer designates, if it lies inside its block. *)
Definition get (m : mem T) (p : ptr) : option T :=
  if 0 <=? off p
  then match m !! blk p with
       | Some l => l !! Z.to_nat (off p)
       | None => None
       end
  else None.

Definition load (p : ptr) : M T T :=
  λ σ, match get σ.1 p with
       | Some v => Returned (v, σ)
       | None => OutOfBounds
       end.

Definition store (p : ptr) (v : T) : M T () :=
  λ σ, match get σ.1 p, σ.1 !! blk p with
       | Some _, Some l =>
           Returned ((), (<[blk p := <[Z.to_nat (off p) := v]> l]> σ.1, σ.2))
       | _, _ => OutOfBounds
       end.

(** [calloc (n, sizeJob)]: a fresh block of [n] zero elements
    (allocation is taken to succeed). *)
Definition calloc (zero : T) (n : Z) : M T ptr :=
  λ σ, Returned (Ptr (length σ.1) 0,
                 (σ.1 ++ [replicate (Z.to_nat n) zero], σ.2)).

(** [free (p)]: the block is gone, every later access to it is out of
    bounds. *)
Definition free (p : ptr) : M T () :=
  λ σ, Returned ((), (<[blk p := []]> σ.1, σ.2)).

Definition assert (b : bool) : M T () :=
  λ σ, if b then Returned ((), σ) else AssertFailed.

Definition exit {A} (status : Z) : M T A :=
  λ _, Exited status.

(** Reading [a[i]] in a read-only array passed by the caller (an index
    filter, a list of workers). *)
Definition index {A} (a : list A) (i : Z) : M T A :=
  λ σ, if 0 <=? i
       then match a !! Z.to_nat i with
            | Some x => Returned (x, σ)
            | None => OutOfBounds
            end
       else OutOfBounds.

(** [memcpy (dst, src, sizeJob)] *)
Definition memcpy (dst src : ptr) : M T () :=
  v ← load src; store dst v.

(** A unary worker, [v1 = op (v2)], and a binary one,
    [v1 = op (v2, v3)]: the operator is a pure function of the elements
    read, and the pointers may alias. *)
Definition call1 (worker : T → T) (v1 v2 : ptr) : M T () :=
  x ← load v2; store v1 (worker x).

Definition call2 (worker : T → T → T) (v1 v2 v3 : ptr) : M T () :=
  x ← load v2; y ← load v3; store v1 (worker x y).

(** [for (i = lo; i < hi; i++) acc = body (i, acc)]: the loops of the
    file that update a local variable. *)
Fixpoint iterate {A} (k : nat) (i : Z) (body : Z → A → M T A) (a : A)
  : M T A :=
  match k with
  | O => mret a
  | S k' => a' ← body i a; iterate k' (i + 1) body a'
  end.

Definition for_acc {A} (lo hi : Z) (a : A) (body : Z → A → M T A) : M T A :=
  iterate (Z.to_nat (hi - lo)) lo body a.

Definition for_ (lo hi : Z) (body : Z → M T ()) : M T () :=
  for_acc lo hi () (λ i _, body i).

(** [#pragma omp parallel ... #pragma omp for] over
    [for (i = lo; i < hi; i++) body (i)]: the iterations are run one
    after the other in the order that the schedule gives to this
    parallel region. *)
Fixpoint for_in (order : list Z) (body : Z → M T ()) : M T () :=
  match order with
  | [] => mret ()
  | i :: order' => body i;; for_in order' body
  end.

Definition omp_for (sched : schedule) (lo hi : Z) (body : Z → M T ())
  : M T () :=
  λ σ, for_in (sched σ.2 lo hi) body (σ.1, S σ.2).

End Model.

(** ** Parallel patterns *)

Section Skeletons.
Context {T : Type}.

(** The element with all bytes zero, the value that
    [omp_get_max_threads ()] returns, and the schedule of the parallel
    regions. *)
Variable zero : T.
Variable omp_get_max_threads : Z.
Variable omp_schedule : schedule.

(** Implementation of map.  The loop index is a [size_t] below [nJob]:
    [i++] does not wrap. *)
Definition mapImpl (dest src : ptr) (nJob : Z) (worker : T → T)
    (nThreads : Z) : M T () :=
  assert (1 <=? nThreads);;
  let d := dest in
  let s := src in
  omp_for omp_schedule 0 nJob (λ i, call1 worker (d +ₚ i) (s +ₚ i)).

(** Standalone map for tests *)
Definition map (dest src : ptr) (nJob : Z) (worker : T → T) : M T () :=
  mapImpl dest src nJob worker omp_get_max_threads.

(** Implementation of reduce *)
Definition reduceImpl (dest src : ptr) (nJob : Z) (worker : T → T → T)
    (nThreads : Z) : M T () :=
  assert (1 <=? nThreads);;
  (* Zero destination variable *)
  store dest zero;;
  (* If no jobs, return 0 *)
  if nJob =? 0 then mret ()
  else
    result ← calloc zero 1;
    let s := src in
    let tileSize := tileSize nJob nThreads in
    let leftOverJobs := leftOverJobs nJob nThreads in
    let nTiles := nTiles nJob nThreads in
    phase1reduction ← calloc zero (to_size_t nTiles);
    omp_for omp_schedule 0 nTiles (λ tile,
      let tileSizeWithOffset :=
        tileSizeWithOffset tileSize leftOverJobs tile in
      let tileIndex := getTileIndex tile leftOverJobs tileSize in
      for_ 0 tileSizeWithOffset (λ i,
        call2 worker (phase1reduction +ₚ tile) (phase1reduction +ₚ tile)
              (s +ₚ to_size_t (i + tileIndex))));;
    (* Do phase 2 reduction *)
    for_ 0 nTiles (λ tile,
      call2 worker result result (phase1reduction +ₚ tile));;
    memcpy dest result;;
    free result;;
    free phase1reduction.

(** Standalone reduce for tests *)
Definition reduce (dest src : ptr) (nJob : Z) (worker : T → T → T)
  : M T () :=
  reduceImpl dest src nJob worker omp_get_max_threads.

Definition scan (dest src : ptr) (nJob : Z) (worker : T → T → T) : M T () :=
  let d := dest in
  let s := src in
  if nJob =? 0 then mret ()
  else
    memcpy d s;;
    if nJob =? 1 then mret ()
    else
      let tileSize := tileSize (to_size_t (nJob - 1)) omp_get_max_threads in
      let leftOverJobs :=
        leftOverJobs (to_size_t (nJob - 1)) omp_get_max_threads in
      let nTiles := nTiles (to_size_t (nJob - 1)) omp_get_max_threads in
      phase1reduction ← calloc zero (to_size_t nTiles);
      phase2reduction ← calloc zero (to_size_t nTiles);
      memcpy phase1reduction s;;
      memcpy phase2reduction s;;
      (* Phase 1: reduce the tiles, all but the last *)
      omp_for omp_schedule 0 (nTiles - 1) (λ tile,
        let tileSizeWithOffset :=
          tileSizeWithOffset tileSize leftOverJobs tile in
        let tileIndex :=
          to_size_t (getTileIndex tile leftOverJobs tileSize + 1) in
        reduceImpl (phase1reduction +ₚ (tile + 1)) (s +ₚ tileIndex)
                   tileSizeWithOffset worker 1);;
      (* Do phase 2 reductions *)
      for_ 1 nTiles (λ tile,
        call2 worker (phase2reduction +ₚ tile)
              (phase2reduction +ₚ (tile - 1)) (phase1reduction +ₚ tile));;
      free phase1reduction;;
      (* Do final phase *)
      omp_for omp_schedule 0 nTiles (λ tile,
        let tileSizeWithOffset :=
          tileSizeWithOffset tileSize leftOverJobs tile in
        let tileIndex :=
          to_size_t (getTileIndex tile leftOverJobs tileSize + 1) in
        call2 worker (d +ₚ tileIndex) (phase2reduction +ₚ tile)
              (s +ₚ tileIndex);;
        for_ 1 tileSizeWithOffset (λ i,
          call2 worker (d +ₚ to_size_t (i + tileIndex))
                (d +ₚ to_size_t (to_size_t (i - 1) + tileIndex))
                (s +ₚ to_size_t (i + tileIndex))));;
      free phase2reduction.

Definition inclusiveScan (dest src : ptr) (nJob : Z) (worker : T → T → T)
  : M T () :=
  scan dest src nJob worker.

Definition exclusiveScan (dest src : ptr) (nJob : Z) (worker : T → T → T)
  : M T () :=
  scan (dest +ₚ 1) src (to_size_t (nJob - 1)) worker.

(** [pos] and [i] are [int]s below [(int) nJob]: neither increment
    overflows.  A filter entry is truthy when it is not zero. *)
Definition pack (dest src : ptr) (nJob : Z) (filter : list Z) : M T Z :=
  assert (0 <=? to_int nJob);;
  let d := dest in
  let s := src in
  for_acc 0 (to_int nJob) 0 (λ i pos,
    f ← index filter i;
    if f =? 0 then mret pos
    else memcpy (d +ₚ pos) (s +ₚ i);; mret (pos + 1)).

Definition gatherImpl (dest src : ptr) (nJob : Z) (filter : list Z)
    (nFilter : Z) (nThreads : Z) : M T () :=
  assert (0 <=? to_int nJob);;
  assert (0 <=? nFilter);;
  let d := dest in
  let s := src in
  omp_for omp_schedule 0 nFilter (λ i,
    f ← index filter i;
    if f >=? to_int nJob then exit 1
    else memcpy (d +ₚ i) (s +ₚ f)).

Definition gather (dest src : ptr) (nJob : Z) (filter : list Z)
    (nFilter : Z) : M T () :=
  gatherImpl dest src nJob filter nFilter omp_get_max_threads.

Definition scatter (dest src : ptr) (nJob : Z) (filter : list Z) : M T () :=
  assert (0 <=? to_int nJob);;
  let d := dest in
  let s := src in
  omp_for omp_schedule 0 (to_int nJob) (λ i,
    f ← index filter i;
    memcpy (d +ₚ f) (s +ₚ i)).

(** [assert (workerList[i] != NULL)]: the entry is read; a worker of the
    model is a function, never null. *)
Definition assert_worker (workerList : list (T → T)) (i : Z) : M T () :=
  _ ← index workerList i; assert true.

Definition mapPipeline (dest src : ptr) (nJob : Z)
    (workerList : list (T → T)) (nWorkers : Z) : M T () :=
  assert (0 <=? to_int nJob);;
  for_ 0 nWorkers (λ i, assert_worker workerList i);;
  let d := dest in
  let s := src in
  if nWorkers =? 0 then mret ()
  else
    let nThreads := omp_get_max_threads in
    (* Do first cycle *)
    w ← index workerList 0;
    mapImpl d s nJob w nThreads;;
    (* Following cycles *)
    for_ 1 nWorkers (λ j,
      w ← index workerList j;
      mapImpl d d nJob w nThreads).

Definition itemBoundPipeline (dest src : ptr) (nJob : Z)
    (workerList : list (T → T)) (nWorkers : Z) : M T () :=
  assert (0 <=? to_int nJob);;
  for_ 0 nWorkers (λ i, assert_worker workerList i);;
  let d := dest in
  let s := src in
  if nWorkers =? 0 then mret ()
  else
    let nThreads := omp_get_max_threads in
    omp_for omp_schedule 0 nJob (λ i,
      (* Do first worker *)
      w ← index workerList 0;
      call1 w (d +ₚ i) (s +ₚ i);;
      (* Do subsequent workers *)
      for_ 1 nWorkers (λ j,
        w ← index workerList j;
        call1 w (d +ₚ i) (d +ₚ i))).

Definition farm (dest src : ptr) (nJob : Z) (worker : T → T)
    (nWorkers : Z) : M T () :=
  map dest src nJob worker.

End Skeletons.

(** ** What the specification compares the code with *)

(** The strict left-to-right fold of a sequence: [x0 op x1 op ... ],
    associated to the left, and the zero element for the empty
    sequence. *)
Definition fold_strict {T} (op : T → T → T) (zero : T) (l : list T) : T :=
  match l with
  | [] => zero
  | x :: xs => foldl op x xs
  end.

(** The sequential running fold: entry [i] folds [l[0..i]] inclusive. *)
Definition running_fold {T} (op : T → T → T) (zero : T) (l : list T)
    (i : nat) : T :=
  fold_strict op zero (take (S i) l).

(** Stable compaction: the elements whose filter entry is not zero, in
    source order. *)
Fixpoint kept {T} (src : list T) (filter : list Z) : list T :=
  match src, filter with
  | x :: src', f :: filter' =>
      if f =? 0 then kept src' filter' else x :: kept src' filter'
  | _, _ => []
  end.

(** The number of truthy entries of a filter. *)
Fixpoint truthy (filter : list Z) : Z :=
  match filter with
  | [] => 0
  | f :: filter' => (if f =? 0 then 0 else 1) + truthy filter'
  end.

(** The stage list applied to one item, first stage first. *)
Definition stages {T} (workerList : list (T → T)) (x : T) : T :=
  foldl (λ v w, w v) x workerList.

(** A buffer seen as a function of the index, and its segment
    [a, a + l). *)
Definition contents {T} (zero : T) (l : list T) (i : Z) : T :=
  default zero (l !! Z.to_nat i).

Definition seg {T} (f : Z → T) (a l : Z) : list T := f <$> seqZ a l.

(** Start offset of tile [t] in closed form; at [t = nTiles] it is the
    end of the last tile. *)
Definition tile_offset (N P t : Z) : Z := t * (N / P) + Z.min t (N mod P).

(** ** The tiled algorithms as functions on lists *)

(** The elements of tile [t] of a list shared by [workers] threads, and
    the two-phase fold of the list: every tile folded from zero, then
    the tile results folded from zero in tile order. *)
Definition tile {T} (workers : Z) (xs : list T) (t : Z) : list T :=
  let n := Z.of_nat (length xs) in
  take (Z.to_nat (tileLength n workers t))
       (drop (Z.to_nat (tileStart n workers t)) xs).

Definition two_phase_fold {T} (op : T → T → T) (zero : T) (workers : Z)
    (xs : list T) : T :=
  foldl op zero
    ((λ t, foldl op zero (tile workers xs t))
     <$> seqZ 0 (nTiles (Z.of_nat (length xs)) workers)).

(** The running folds of a list from a start value:
    [op a x0; op (op a x0) x1; ...]. *)
Fixpoint scanl {T} (op : T → T → T) (a : T) (l : list T) : list T :=
  match l with
  | [] => []
  | x :: l' => op a x :: scanl op (op a x) l'
  end.

(** The three-phase scan of a list: the first element as it is; the
    other elements in tiles; every tile but the last reduced by
    [reduceImpl] with one thread; the carry into a tile is the first
    element combined in tile order with the reductions of the earlier
    tiles; the entries of a tile are its running folds from its carry. *)
Definition three_phase_scan {T} (op : T → T → T) (zero : T) (workers : Z)
    (xs : list T) : list T :=
  match xs with
  | [] => []
  | x0 :: rest =>
      let carry t :=
        foldl op x0
          ((λ t', two_phase_fold op zero 1 (tile workers rest t'))
           <$> seqZ 0 t) in
      x0 :: mjoin ((λ t, scanl op (carry t) (tile workers rest t))
                   <$> seqZ 0 (nTiles (Z.of_nat (length rest)) workers))
  end.

(** The carry into tile [t] of the three-phase scan of a source read as
    a function of the index: the first element, combined in tile order
    with the reduction of every earlier tile; a tile is reduced by
    [reduceImpl] with one thread, from zero and then once more from
    zero. *)
Definition scan_carry_at {T} (op : T → T → T) (zero : T) (f : Z → T)
    (N P t : Z) : T :=
  foldl op (f 0)
    ((λ t', op zero
              (foldl op zero
                 (seg f (tile_offset N P t' + 1) (tileLength N P t'))))
     <$> seqZ 0 t).

(** ** Statements about runs *)

(** [wp c m Q E]: from memory [m], whatever the number of parallel
    regions entered before, the run of [c] either returns a value and a
    memory that satisfy [Q], or calls [exit] with a status that satisfies
    [E]; it neither fails an assertion nor leaves the bounds of a
    buffer. *)
Definition wp {T A} (c : M T A) (m : mem T) (Q : A → mem T → Prop)
    (E : Z → Prop) : Prop :=
  ∀ k : nat,
    match c (m, k) with
    | Returned (a, σ) => Q a σ.1
    | Exited s => E s
    | AssertFailed => False
    | OutOfBounds => False
    end.

Definition no_exit : Z → Prop := λ _, False.

(** The call can only return or leave the bounds of a buffer: it never
    exits and never fails an assertion. *)
Definition returns_or_oob {T A} (c : M T A) : Prop :=
  ∀ σ, c σ = OutOfBounds ∨ ∃ a σ', c σ = Returned (a, σ').

(** The pointer designates an element of an allocated buffer. *)
Definition valid {T} (m : mem T) (p : ptr) : Prop := is_Some (get m p).

(** The buffer at [p] has room for [n] elements. *)
Definition room {T} (m : mem T) (p : ptr) (n : Z) : Prop :=
  ∀ i, 0 ≤ i < n → valid m (p +ₚ i).

(** The buffer at [p] holds the elements of [l], in order. *)
Definition array {T} (m : mem T) (p : ptr) (l : list T) : Prop :=
  ∀ (i : nat) (v : T), l !! i = Some v → get m (p +ₚ Z.of_nat i) = Some v.

(** The elements [p[0..n)]. *)
Definition inside (p : ptr) (n : Z) (q : ptr) : Prop :=
  blk q = blk p ∧ off p ≤ off q < off p + n.

(** What a store leaves behind. *)
Definition stored {T} (m : mem T) (p : ptr) (v : T) (m' : mem T) : Prop :=
  length m' = length m ∧ get m' p = Some v ∧
  ∀ q, q ≠ p → get m' q = get m q.

(** ** Operators and memories of the examples *)

(** An associative operator on integers that has no identity. *)
Definition add_succ (a b : Z) : Z := a + b + 1.

(** The identity index filter [0; 1; ...; n-1]. *)
Definition identity_filter (n : Z) : list Z := seqZ 0 n.

(** A count of [2^32] elements: it fits a [size_t], and [(int)] of it
    is [0]. *)
Definition two32 : Z := 2 ^ 32.

(** A buffer of [2^32] copies of an integer. *)
Definition many (x : Z) : list Z := replicate (Z.to_nat two32) x.

(** A count of [2^31] elements: it fits a [size_t], every index below
    it fits an [int], and [(int)] of it is [-2^31]. *)
Definition two31 : Z := 2 ^ 31.

(** A buffer of [2^31] copies of an integer. *)
Definition many31 (x : Z) : list Z := replicate (Z.to_nat two31) x.

(** * Proofs *)

(** ** Machine integers in range *)

Lemma to_size_t_small z : 0 ≤ z ≤ SIZE_MAX → to_size_t z = z.
Proof. unfold to_size_t, SIZE_MAX. intros. apply Z.mod_small. lia. Qed.

Lemma to_int_small z : - 2 ^ 31 ≤ z ≤ INT_MAX → to_int z = z.
Proof.
  unfold to_int, INT_MAX. intros.
  rewrite Z.mod_small; lia.
Qed.

Lemma min_spec_Z a b : min a b = Z.min a b.
Proof. unfold min. destruct (Z.ltb_spec a b); lia. Qed.

(** ** The tile scheduler *)

Section TileFacts.
Variables N P : Z.
Hypothesis HN : 0 ≤ N ≤ SIZE_MAX.
Hypothesis HP : 1 ≤ P ≤ INT_MAX.

Let ts := N / P.
Let lo := N mod P.

Lemma tile_div_mod : N = P * ts + lo ∧ 0 ≤ lo < P ∧ 0 ≤ ts ≤ N.
Proof.
  subst ts lo. pose proof (Z.div_mod N P ltac:(lia)).
  pose proof (Z.mod_pos_bound N P ltac:(lia)).
  assert (0 ≤ N / P) by (apply Z.div_pos; lia).
  repeat split; try lia. nia.
Qed.

Lemma P_size_t : to_size_t P = P.
Proof. apply to_size_t_small. unfold INT_MAX, SIZE_MAX in *. lia. Qed.

Lemma tileSize_eq : tileSize N P = ts.
Proof. unfold tileSize. by rewrite P_size_t. Qed.

Lemma leftOverJobs_eq : leftOverJobs N P = lo.
Proof.
  unfold leftOverJobs. rewrite P_size_t.
  pose proof tile_div_mod. apply to_int_small. unfold INT_MAX in *. lia.
Qed.

Lemma nTiles_eq : nTiles N P = Z.min N P.
Proof.
  unfold nTiles. rewrite P_size_t, min_spec_Z.
  apply to_int_small. unfold INT_MAX in *. lia.
Qed.

Lemma tile_offset_0 : tile_offset N P 0 = 0.
Proof. unfold tile_offset. pose proof tile_div_mod. lia. Qed.

Lemma tile_offset_end : tile_offset N P (Z.min N P) = N.
Proof.
  unfold tile_offset. pose proof tile_div_mod as (HNeq & Hlo & Hts).
  destruct (Z.le_gt_cases P N).
  - rewrite !Z.min_r by lia. lia.
  - assert (ts = 0) by (subst ts; apply Z.div_small; lia).
    assert (lo = N) by (subst lo; apply Z.mod_small; lia).
    rewrite Z.min_l by lia. lia.
Qed.

Lemma tileLength_eq t :
  0 ≤ t < Z.min N P →
  tileLength N P t = ts + (if t <? lo then 1 else 0).
Proof.
  intros Ht. unfold tileLength, tileSizeWithOffset.
  rewrite tileSize_eq, leftOverJobs_eq.
  pose proof tile_div_mod as (HNeq & Hlo & Hts).
  apply to_size_t_small. destruct (Z.ltb_spec t lo); [|lia].
  split; [lia|]. assert (ts + 1 ≤ N); [|lia]. nia.
Qed.

Lemma tile_offset_step t :
  0 ≤ t < Z.min N P →
  tile_offset N P (t + 1) = tile_offset N P t + tileLength N P t.
Proof.
  intros Ht. rewrite tileLength_eq by done. unfold tile_offset.
  destruct (Z.ltb_spec t lo); lia.
Qed.

Lemma tileLength_pos t : 0 ≤ t < Z.min N P → 1 ≤ tileLength N P t.
Proof.
  intros Ht. rewrite tileLength_eq by done.
  pose proof tile_div_mod as (HNeq & Hlo & Hts).
  destruct (Z.ltb_spec t lo); [lia|].
  destruct (Z.le_gt_cases P N).
  - assert (1 ≤ ts); [|lia]. subst ts.
    apply Z.div_le_lower_bound; lia.
  - assert (lo = N) by (subst lo; apply Z.mod_small; lia). lia.
Qed.

Lemma tile_offset_mono t t' :
  0 ≤ t → t ≤ t' → tile_offset N P t ≤ tile_offset N P t'.
Proof.
  intros. unfold tile_offset. pose proof tile_div_mod. nia.
Qed.

Lemma tile_offset_bound t : 0 ≤ t ≤ Z.min N P → 0 ≤ tile_offset N P t ≤ N.
Proof.
  intros. pose proof tile_offset_end. pose proof tile_offset_0.
  pose proof (tile_offset_mono 0 t). pose proof (tile_offset_mono t (Z.min N P)).
  lia.
Qed.

(** No product or sum of [getTileIndex] wraps on a tile of the
    partition. *)
Lemma tileStart_eq t : 0 ≤ t < Z.min N P → tileStart N P t = tile_offset N P t.
Proof.
  intros Ht. unfold tileStart, getTileIndex.
  rewrite tileSize_eq, leftOverJobs_eq.
  destruct (Z.eqb_spec t 0) as [->|Hne]; [by rewrite tile_offset_0|].
  pose proof tile_div_mod as (HNeq & Hlo & Hts).
  pose proof (tile_offset_bound t ltac:(lia)) as Hb.
  assert (2 ≤ P) by lia.
  assert (ts + 1 ≤ SIZE_MAX) by (unfold SIZE_MAX in *; nia).
  unfold tile_offset in *. fold ts lo in Hb |- *.
  destruct (Z.ltb_spec t lo).
  - rewrite (to_size_t_small t) by (unfold SIZE_MAX in *; lia).
    rewrite (to_size_t_small (ts + 1)) by lia.
    rewrite to_size_t_small by nia. nia.
  - rewrite (to_size_t_small lo) by lia.
    rewrite (to_size_t_small (ts + 1)) by lia.
    rewrite (to_size_t_small (t - lo)) by lia.
    rewrite (to_size_t_small (lo * _)) by nia.
    rewrite (to_size_t_small ((t - lo) * _)) by nia.
    rewrite to_size_t_small by nia. nia.
Qed.

End TileFacts.

Lemma tile_contract_agrees N P t :
  1 ≤ N ≤ SIZE_MAX → 1 ≤ P ≤ INT_MAX → 0 ≤ t < Z.min N P →
  TileContract.length N P t = (N / P) + (if t <? N mod P then 1 else 0) ∧
  TileContract.start N P t = tile_offset N P t.
Proof.
  intros HN HP Ht.
  unfold TileContract.length, TileContract.start, TileContract.leftover,
    TileContract.tileSize, TileContract.nTiles, tile_offset.
  destruct (Z.le_gt_cases P N).
  - rewrite !Z.min_r by lia.
    pose proof (Z.mod_pos_bound N P ltac:(lia)).
    destruct (Z.ltb_spec t (N mod P)); split; lia.
  - rewrite !Z.min_l by lia.
    rewrite Z.mod_same, Z.div_same by lia.
    rewrite (Z.div_small N P), (Z.mod_small N P) by lia.
    destruct (Z.ltb_spec t 0); [lia|].
    destruct (Z.ltb_spec t N); split; lia.
Qed.

Lemma tile_cover N P j :
  0 ≤ N ≤ SIZE_MAX → 1 ≤ P ≤ INT_MAX →
  ∀ k : nat, Z.of_nat k ≤ Z.min N P → 0 ≤ j < tile_offset N P (Z.of_nat k) →
  ∃ t, 0 ≤ t < Z.of_nat k ∧
       tile_offset N P t ≤ j < tile_offset N P t + tileLength N P t.
Proof.
  intros HN HP. induction k as [|k IH]; intros Hk Hj.
  - rewrite tile_offset_0 in Hj by done. lia.
  - destruct (Z.lt_ge_cases j (tile_offset N P (Z.of_nat k))) as [Hlt|Hge].
    + destruct IH as (t & ? & ?); [lia..|]. exists t. lia.
    + exists (Z.of_nat k). split; [lia|].
      rewrite <- tile_offset_step by lia.
      replace (Z.of_nat k + 1) with (Z.of_nat (S k)) by lia. lia.
Qed.

Lemma tile_find N P j :
  0 ≤ N ≤ SIZE_MAX → 1 ≤ P ≤ INT_MAX → 0 ≤ j < N →
  ∃ t, 0 ≤ t < Z.min N P ∧ tile_offset N P t ≤ j < tile_offset N P (t + 1).
Proof.
  intros HN HP Hj.
  destruct (tile_cover N P j HN HP (Z.to_nat (Z.min N P))) as (t & Ht & Hin).
  - lia.
  - rewrite Z2Nat.id by lia. rewrite tile_offset_end by done. lia.
  - exists t. split; [lia|]. rewrite tile_offset_step by (done || lia). done.
Qed.

Lemma tile_disjoint N P t t' j :
  0 ≤ N ≤ SIZE_MAX → 1 ≤ P ≤ INT_MAX →
  0 ≤ t → 0 ≤ t' →
  tile_offset N P t ≤ j < tile_offset N P (t + 1) →
  tile_offset N P t' ≤ j < tile_offset N P (t' + 1) →
  t = t'.
Proof.
  intros HN HP Ht Ht' Hj Hj'.
  destruct (Z.lt_trichotomy t t') as [Hlt|[Heq|Hgt]]; [|done|].
  - pose proof (tile_offset_mono N P HN HP (t + 1) t'). lia.
  - pose proof (tile_offset_mono N P HN HP (t' + 1) t). lia.
Qed.

(** C3. For every item count [totalItems >= 1] (a [size_t]) and worker
    count [workerCount >= 1] (an [int]), the tiles that [reduceImpl] and
    [scan] compute obey the contract: their number is
    [min (totalItems, workerCount)]; tile [t] has the length and the
    start offset of the contract's formulas; the tiles are contiguous
    and ordered from offset [0] to [totalItems], so every index of
    [[0, totalItems)] lies in exactly one tile; their sizes differ by
    at most one, and a longer tile never follows a shorter one. *)
Theorem tile_partition_contract (totalItems workerCount : Z) :
  1 ≤ totalItems ≤ SIZE_MAX → 1 ≤ workerCount ≤ INT_MAX →
  let nT := nTiles totalItems workerCount in
  let start := tileStart totalItems workerCount in
  let len := tileLength totalItems workerCount in
  nT = TileContract.nTiles totalItems workerCount ∧
  (∀ t, 0 ≤ t < nT →
     len t = TileContract.length totalItems workerCount t ∧
     start t = TileContract.start totalItems workerCount t) ∧
  start 0 = 0 ∧
  (∀ t, 0 ≤ t → t + 1 < nT → start (t + 1) = start t + len t) ∧
  start (nT - 1) + len (nT - 1) = totalItems ∧
  (∀ j, 0 ≤ j < totalItems →
     ∃ t, 0 ≤ t < nT ∧ start t ≤ j < start t + len t ∧
          ∀ t', 0 ≤ t' < nT → start t' ≤ j < start t' + len t' → t' = t) ∧
  (∀ t, 0 ≤ t < nT → 1 ≤ len t) ∧
  (∀ t t', 0 ≤ t < nT → 0 ≤ t' < nT → Z.abs (len t - len t') ≤ 1) ∧
  (∀ t t', 0 ≤ t ≤ t' → t' < nT → len t' ≤ len t).
Proof.
  intros HN HP nT start len.
  assert (HN' : 0 ≤ totalItems ≤ SIZE_MAX) by lia.
  assert (HnT : nT = Z.min totalItems workerCount) by by apply nTiles_eq.
  assert (Hstart : ∀ t, 0 ≤ t < nT → start t = tile_offset totalItems workerCount t).
  { intros t Ht. apply tileStart_eq; lia. }
  assert (Hlen : ∀ t, 0 ≤ t < nT →
    len t = totalItems / workerCount
            + (if t <? totalItems mod workerCount then 1 else 0)).
  { intros t Ht. apply tileLength_eq; lia. }
  assert (Hpos : ∀ t, 0 ≤ t < nT → 1 ≤ len t).
  { intros t Ht. apply tileLength_pos; lia. }
  assert (Hcover : ∀ j, 0 ≤ j < totalItems →
    ∃ t, 0 ≤ t < nT ∧
         tile_offset totalItems workerCount t ≤ j
         < tile_offset totalItems workerCount t + len t).
  { intros j Hj.
    destruct (tile_cover totalItems workerCount j HN' HP (Z.to_nat nT))
      as (t & Ht & Hin).
    - lia.
    - rewrite Z2Nat.id by lia. rewrite HnT, tile_offset_end by done. lia.
    - exists t. split; [lia | exact Hin]. }
  assert (Hstep : ∀ t, 0 ≤ t < nT →
    tile_offset totalItems workerCount (t + 1) = start t + len t).
  { intros t Ht. rewrite Hstart by done. apply tile_offset_step; lia. }
  assert (Hend : start (nT - 1) + len (nT - 1) = totalItems).
  { rewrite <- Hstep by lia. replace (nT - 1 + 1) with nT by lia.
    rewrite HnT. by apply tile_offset_end. }
  clearbody nT start len.
  split_and!.
  - done.
  - intros t Ht. rewrite Hlen, Hstart by done.
    destruct (tile_contract_agrees totalItems workerCount t) as [-> ->];
      [lia..|done].
  - rewrite Hstart by lia. by apply tile_offset_0.
  - intros t Ht0 Ht. rewrite (Hstart (t + 1)) by lia. apply Hstep. lia.
  - done.
  - intros j Hj. destruct (Hcover j Hj) as (t & Ht & Hin).
    exists t. rewrite Hstart by lia. split; [lia|]. split; [done|].
    intros t' Ht' Hin'. rewrite Hstart in Hin' by done.
    destruct (Z.lt_trichotomy t' t) as [Hlt|[Heq|Hgt]]; [|done|].
    + pose proof (tile_offset_mono totalItems workerCount HN' HP (t' + 1) t).
      rewrite Hstep, Hstart in H by lia. lia.
    + pose proof (tile_offset_mono totalItems workerCount HN' HP (t + 1) t').
      rewrite Hstep, Hstart in H by lia. lia.
  - done.
  - intros t t' Ht Ht'. rewrite !Hlen by done.
    destruct (Z.ltb_spec t (totalItems mod workerCount)),
      (Z.ltb_spec t' (totalItems mod workerCount)); lia.
  - intros t t' Ht Ht'. rewrite !Hlen by lia.
    destruct (Z.ltb_spec t (totalItems mod workerCount)),
      (Z.ltb_spec t' (totalItems mod workerCount)); lia.
Qed.

Lemma tile_partition_contract_witness :
  nTiles 7 3 = 3 ∧ tileStart 7 3 1 = 3 ∧ tileLength 7 3 1 = 2.
Proof.
  destruct (tile_partition_contract 7 3) as (HnT & Htile & _);
    [unfold SIZE_MAX; lia | unfold INT_MAX; lia |].
  destruct (Htile 1) as [Hlen Hstart]; [change (0 ≤ 1 < 3); lia|].
  split; [exact HnT|]. split; [exact Hstart | exact Hlen].
Defined.

(** ** Pointers *)

Lemma ptr_eq p q : blk p = blk q → off p = off q → p = q.
Proof. destruct p, q; simpl; congruence. Qed.

Lemma shift_0 p : p +ₚ 0 = p.
Proof. apply ptr_eq; simpl; lia. Qed.

Lemma shift_shift p i j : p +ₚ i +ₚ j = p +ₚ (i + j).
Proof. apply ptr_eq; simpl; lia. Qed.

Lemma inside_shift p n i : 0 ≤ i < n → inside p n (p +ₚ i).
Proof. unfold inside. simpl. lia. Qed.

(** Pointer disequalities by block or by offset. *)
Ltac ptr_neq :=
  let H := fresh in
  intros H;
  first
    [ apply (f_equal blk) in H; simpl in H; (lia || congruence)
    | apply (f_equal off) in H; simpl in H; lia ].

(** ** The rules of [wp] *)

Section Rules.
Context {T : Type}.
Implicit Types (m : mem T) (p q : ptr) (v : T).

Lemma get_valid_blk m p : valid m p → (blk p < length m)%nat.
Proof.
  unfold valid, get. intros [v Hv].
  destruct (0 <=? off p); [|done].
  destruct (m !! blk p) eqn:Hm; [|done].
  by eapply lookup_lt_Some.
Qed.

Lemma get_Some_blk m p v : get m p = Some v → (blk p < length m)%nat.
Proof. intros H. apply get_valid_blk. by exists v. Qed.

Lemma get_None_blk m p : (length m ≤ blk p)%nat → get m p = None.
Proof.
  intros Hb. unfold get. destruct (0 <=? off p); [|done].
  by rewrite (lookup_ge_None_2 m).
Qed.

Lemma wp_ret {A} (a : A) m Q E : Q a m → wp (mret a) m Q E.
Proof. by intros HQ k. Qed.

Lemma wp_bind {A B} (c : M T A) (f : A → M T B) m Q E :
  wp c m (λ a m', wp (f a) m' Q E) E → wp (c ≫= f) m Q E.
Proof.
  intros Hc k. specialize (Hc k). unfold mbind, M_bind.
  destruct (c (m, k)) as [[a [m' k']]| | |]; try done. apply Hc.
Qed.

Lemma wp_mono {A} (c : M T A) m (Q Q' : A → mem T → Prop) (E E' : Z → Prop) :
  wp c m Q E → (∀ a m', Q a m' → Q' a m') → (∀ s, E s → E' s) →
  wp c m Q' E'.
Proof.
  intros Hc HQ HE k. specialize (Hc k).
  destruct (c (m, k)) as [[a [m' k']]| | |]; eauto.
Qed.

Lemma wp_load p m v Q E : get m p = Some v → Q v m → wp (load p) m Q E.
Proof. intros Hv HQ k. unfold load. simpl. by rewrite Hv. Qed.

Lemma store_stored m p v :
  valid m p →
  ∃ m', (∀ k, store p v (m, k) = Returned ((), (m', k))) ∧ stored m p v m'.
Proof.
  intros [w Hw]. unfold store. simpl. rewrite Hw.
  unfold get in Hw. destruct (Z.leb_spec 0 (off p)) as [Hoff|]; [|done].
  destruct (m !! blk p) as [l|] eqn:Hm; [|done].
  eexists. split; [done|].
  pose proof (lookup_lt_Some _ _ _ Hm) as Hb.
  pose proof (lookup_lt_Some _ _ _ Hw) as Hk.
  unfold stored. split_and!.
  - by rewrite length_insert.
  - unfold get. destruct (Z.leb_spec 0 (off p)); [|lia].
    rewrite list_lookup_insert_eq by done.
    by rewrite list_lookup_insert_eq.
  - intros q Hq. unfold get. destruct (Z.leb_spec 0 (off q)); [|done].
    destruct (decide (blk q = blk p)) as [Heq|Hne].
    + rewrite Heq, list_lookup_insert_eq, Hm by done.
      apply list_lookup_insert_ne. intros Hk'. apply Hq.
      apply ptr_eq; [done|lia].
    + by rewrite list_lookup_insert_ne.
Qed.

Lemma wp_store p v m (Q : () → mem T → Prop) E :
  valid m p → (∀ m', stored m p v m' → Q () m') → wp (store p v) m Q E.
Proof.
  intros Hv HQ k. destruct (store_stored m p v Hv) as (m' & Hrun & Hst).
  rewrite Hrun. by apply HQ.
Qed.

Lemma wp_calloc zero n m (Q : ptr → mem T → Prop) E :
  (∀ m', length m' = S (length m) →
         (∀ i, 0 ≤ i < n → get m' (Ptr (length m) 0 +ₚ i) = Some zero) →
         (∀ q, blk q ≠ length m → get m' q = get m q) →
         Q (Ptr (length m) 0) m') →
  wp (calloc zero n) m Q E.
Proof.
  intros HQ k. unfold calloc. simpl. apply HQ.
  - rewrite length_app. simpl. lia.
  - intros i Hi. unfold get. simpl.
    destruct (Z.leb_spec 0 (0 + i)); [|lia].
    rewrite lookup_app_r by done. rewrite Nat.sub_diag. simpl.
    apply lookup_replicate_2. lia.
  - intros q Hq. unfold get. destruct (0 <=? off q); [|done].
    destruct (decide (blk q < length m)%nat).
    + by rewrite lookup_app_l.
    + rewrite lookup_app_r by lia.
      rewrite (lookup_ge_None_2 m) by lia.
      destruct (blk q - length m)%nat as [|j] eqn:Hj; [lia|done].
Qed.

(** After [free (p)] no element of the block of [p] is left. *)
Lemma wp_free p m (Q : () → mem T → Prop) E :
  (∀ m', length m' = length m →
         (∀ q, blk q ≠ blk p → get m' q = get m q) →
         (∀ q, blk q = blk p → get m' q = None) → Q () m') →
  wp (free p) m Q E.
Proof.
  intros HQ k. unfold free. simpl. apply HQ.
  - by rewrite length_insert.
  - intros q Hq. unfold get. by rewrite list_lookup_insert_ne.
  - intros q Hq. unfold get. destruct (0 <=? off q); [|done].
    rewrite Hq, list_lookup_insert.
    destruct (decide (blk p = blk p ∧ (blk p < length m)%nat)) as [|Hno].
    + done.
    + rewrite (lookup_ge_None_2 m); [done|]. lia.
Qed.

Lemma wp_assert (b : bool) m (Q : () → mem T → Prop) E :
  b = true → Q () m → wp (assert b) m Q E.
Proof. by intros -> HQ k. Qed.

Lemma wp_exit {A} s m (Q : A → mem T → Prop) (E : Z → Prop) :
  E s → wp (exit s) m Q E.
Proof. by intros HE k. Qed.

Lemma wp_index {A} (a : list A) i x m (Q : A → mem T → Prop) E :
  0 ≤ i → a !! Z.to_nat i = Some x → Q x m → wp (index a i) m Q E.
Proof.
  intros Hi Hx HQ k. unfold index.
  destruct (Z.leb_spec 0 i); [|lia]. by rewrite Hx.
Qed.

Lemma wp_memcpy dst src m v (Q : () → mem T → Prop) E :
  get m src = Some v → valid m dst →
  (∀ m', stored m dst v m' → Q () m') →
  wp (memcpy dst src) m Q E.
Proof.
  intros Hs Hd HQ. unfold memcpy. apply wp_bind.
  apply wp_load with v; [done|]. by apply wp_store.
Qed.

Lemma wp_call1 w (v1 v2 : ptr) m x (Q : () → mem T → Prop) E :
  get m v2 = Some x → valid m v1 →
  (∀ m', stored m v1 (w x) m' → Q () m') →
  wp (call1 w v1 v2) m Q E.
Proof.
  intros Hs Hd HQ. unfold call1. apply wp_bind.
  apply wp_load with x; [done|]. by apply wp_store.
Qed.

Lemma wp_call2 w (v1 v2 v3 : ptr) m x y (Q : () → mem T → Prop) E :
  get m v2 = Some x → get m v3 = Some y → valid m v1 →
  (∀ m', stored m v1 (w x y) m' → Q () m') →
  wp (call2 w v1 v2 v3) m Q E.
Proof.
  intros Hx Hy Hd HQ. unfold call2. apply wp_bind.
  apply wp_load with x; [done|]. apply wp_bind.
  apply wp_load with y; [done|]. by apply wp_store.
Qed.

(** The rule of a sequential loop: an invariant [I] over the index, the
    local variable and the memory. *)
Lemma wp_iterate {A} (I : Z → A → mem T → Prop) (body : Z → A → M T A) E :
  ∀ (k : nat) (i : Z) (a : A) m,
    I i a m →
    (∀ j b m', i ≤ j < i + Z.of_nat k → I j b m' →
               wp (body j b) m' (I (j + 1)) E) →
    wp (iterate k i body a) m (I (i + Z.of_nat k)) E.
Proof.
  induction k as [|k IH]; intros i a m HI Hbody; simpl.
  - apply wp_ret. by replace (i + Z.of_nat 0) with i by lia.
  - apply wp_bind.
    eapply wp_mono; [apply (Hbody i a m); [lia|done] | | done].
    intros a' m' HI'. simpl in HI'.
    replace (i + Z.of_nat (S k)) with (i + 1 + Z.of_nat k) by lia.
    apply IH; [done|]. intros j b m'' Hj. apply Hbody. lia.
Qed.

Lemma wp_for_acc {A} (I : Z → A → mem T → Prop) lo hi (a : A) body m Q E :
  lo ≤ hi →
  I lo a m →
  (∀ j b m', lo ≤ j < hi → I j b m' → wp (body j b) m' (I (j + 1)) E) →
  (∀ b m', I hi b m' → Q b m') →
  wp (for_acc lo hi a body) m Q E.
Proof.
  intros Hle HI Hbody HQ. unfold for_acc.
  eapply wp_mono; [apply (wp_iterate I); [done|] | | done].
  - intros j b m' Hj. apply Hbody. lia.
  - intros b m'.
    replace (lo + Z.of_nat (Z.to_nat (hi - lo))) with hi by lia. apply HQ.
Qed.

Lemma wp_for (I : Z → mem T → Prop) lo hi body m (Q : () → mem T → Prop) E :
  lo ≤ hi →
  I lo m →
  (∀ j m', lo ≤ j < hi → I j m' → wp (body j) m' (λ _, I (j + 1)) E) →
  (∀ m', I hi m' → Q () m') →
  wp (for_ lo hi body) m Q E.
Proof.
  intros Hle HI Hbody HQ. unfold for_.
  apply (wp_for_acc (λ j _, I j)); [done | done | |].
  - intros j b m' Hj HI'. by apply Hbody.
  - intros [] m'. apply HQ.
Qed.

(** The rule of a parallel loop: an invariant [I] over the iterations
    already run, in whatever order, and the memory. *)
Lemma wp_for_in (I : list Z → mem T → Prop) (P : Z → Prop) body E :
  (∀ done i m', P i → i ∉ done → (∀ j, j ∈ done → P j) → I done m' →
                wp (body i) m' (λ _, I (i :: done)) E) →
  ∀ order done m,
    NoDup order → (∀ i, i ∈ order → P i ∧ i ∉ done) →
    (∀ j, j ∈ done → P j) → I done m →
    wp (for_in order body) m (λ _, I (reverse order ++ done)) E.
Proof.
  intros Hbody. induction order as [|i order IH];
    intros done m Hnd Hin Hdone HI; simpl.
  - by apply wp_ret.
  - apply list.NoDup_cons in Hnd as [Hi Hnd].
    destruct (Hin i ltac:(left)) as [HPi Hidone].
    apply wp_bind.
    eapply wp_mono; [by apply (Hbody done i m) | | done].
    intros [] m' HI'. simpl in HI'.
    rewrite reverse_cons, <- app_assoc. simpl.
    apply IH; [done | | | done].
    + intros j Hj. destruct (Hin j ltac:(by right)) as [HPj Hjdone].
      split; [done|]. intros [->|?]%elem_of_cons; done.
    + intros j [->|?]%elem_of_cons; [done | by apply Hdone].
Qed.

Lemma wp_omp_for sched (I : list Z → mem T → Prop) lo hi body m
    (Q : () → mem T → Prop) E :
  schedule_ok sched →
  I [] m →
  (∀ done i m', lo ≤ i < hi → i ∉ done → (∀ j, j ∈ done → lo ≤ j < hi) →
                I done m' → wp (body i) m' (λ _, I (i :: done)) E) →
  (∀ done m', (∀ j, j ∈ done ↔ lo ≤ j < hi) → I done m' → Q () m') →
  wp (omp_for sched lo hi body) m Q E.
Proof.
  intros Hok HI Hbody HQ k.
  specialize (Hok k lo hi).
  assert (Hmem : ∀ j, j ∈ sched k lo hi ↔ lo ≤ j < hi).
  { intros j. rewrite Hok, elem_of_seqZ. lia. }
  assert (Hwp : wp (for_in (sched k lo hi) body) m Q E); [|exact (Hwp (S k))].
  eapply wp_mono;
    [apply (wp_for_in I (λ j, lo ≤ j < hi) body E Hbody (sched k lo hi) [] m)
    | | done].
  - rewrite Hok. apply NoDup_seqZ.
  - intros i Hi. split; [by apply Hmem | by apply not_elem_of_nil].
  - intros j Hj. by apply elem_of_nil in Hj.
  - done.
  - intros [] m' HI'. apply (HQ (reverse (sched k lo hi) ++ [])); [|done].
    intros j. rewrite app_nil_r, elem_of_reverse. apply Hmem.
Qed.

(** From [wp] back to the run. *)
Lemma wp_returned {A} (c : M T A) m Q :
  wp c m Q no_exit → ∃ a m', run c m = Returned (a, m') ∧ Q a m'.
Proof.
  intros Hc. specialize (Hc O). unfold run, no_exit in *.
  destruct (c (m, O)) as [[a [m' k']]| | |]; try done. eauto.
Qed.

End Rules.

(** ** Segments of a buffer *)

Lemma fmap_seqZ_snoc {A} (f : Z → A) n :
  0 ≤ n → f <$> seqZ 0 (n + 1) = (f <$> seqZ 0 n) ++ [f n].
Proof. intros Hn. by rewrite seqZ_app, fmap_app by lia. Qed.

Section Segments.
Context {T : Type}.
Implicit Types (f : Z → T) (xs : list T).

Lemma seg_nil f a l : l ≤ 0 → seg f a l = [].
Proof. intros. unfold seg. by rewrite seqZ_nil. Qed.

Lemma seg_app f a l1 l2 :
  0 ≤ l1 → 0 ≤ l2 → seg f a (l1 + l2) = seg f a l1 ++ seg f (a + l1) l2.
Proof. intros. unfold seg. by rewrite seqZ_app, fmap_app. Qed.

Lemma seg_one f a : seg f a 1 = [f a].
Proof. done. Qed.

Lemma seg_snoc f a l : 0 ≤ l → seg f a (l + 1) = seg f a l ++ [f (a + l)].
Proof. intros. by rewrite seg_app, seg_one by lia. Qed.

Lemma seg_length f a l : length (seg f a l) = Z.to_nat l.
Proof. unfold seg. by rewrite length_fmap, length_seqZ. Qed.

Lemma seg_nonempty f a l : 0 < l → seg f a l ≠ [].
Proof.
  intros Hl Hnil. apply (f_equal length) in Hnil.
  rewrite seg_length in Hnil. simpl in Hnil. lia.
Qed.

Lemma seg_take f n (k : nat) :
  Z.of_nat k ≤ n → take k (seg f 0 n) = seg f 0 (Z.of_nat k).
Proof.
  intros Hk. replace n with (Z.of_nat k + (n - Z.of_nat k)) by lia.
  rewrite seg_app by lia. apply take_app_length'.
  rewrite seg_length. lia.
Qed.

Lemma seg_contents zero xs : seg (contents zero xs) 0 (Z.of_nat (length xs)) = xs.
Proof.
  apply list_eq. intros i. unfold seg. rewrite list_lookup_fmap.
  destruct (decide (i < length xs)%nat) as [Hlt|Hge].
  - rewrite lookup_seqZ_lt by lia. simpl. unfold contents.
    replace (Z.to_nat (0 + Z.of_nat i)) with i by lia.
    destruct (lookup_lt_is_Some_2 xs i Hlt) as [x Hx]. by rewrite Hx.
  - rewrite lookup_seqZ_ge by lia. simpl.
    symmetry. apply lookup_ge_None_2. lia.
Qed.

Lemma array_contents zero m p xs i :
  array m p xs → 0 ≤ i < Z.of_nat (length xs) →
  get m (p +ₚ i) = Some (contents zero xs i).
Proof.
  intros Harr Hi. unfold contents.
  destruct (lookup_lt_is_Some_2 xs (Z.to_nat i)) as [x Hx]; [lia|].
  rewrite Hx. simpl. rewrite <- (Harr _ _ Hx). f_equal.
  apply ptr_eq; simpl; lia.
Qed.

End Segments.

(** ** Folds with an associative operator whose left identity is zero *)

Section Folds.
Context {T : Type} (op : T → T → T) (zero : T).
Hypothesis op_assoc : ∀ a b c, op (op a b) c = op a (op b c).
Hypothesis op_left_id : ∀ a, op zero a = a.

Lemma foldl_op_assoc a y l : foldl op (op a y) l = op a (foldl op y l).
Proof.
  revert y. induction l as [|x l IH]; intros y; simpl; [done|].
  by rewrite op_assoc, IH.
Qed.

Lemma foldl_zero_strict l : foldl op zero l = fold_strict op zero l.
Proof. destruct l as [|x l]; simpl; [done|]. by rewrite op_left_id. Qed.

Lemma foldl_zero_app xs ys :
  ys ≠ [] →
  foldl op zero (xs ++ ys) = op (foldl op zero xs) (foldl op zero ys).
Proof.
  intros Hys. destruct ys as [|y ys]; [done|].
  rewrite foldl_app. simpl. by rewrite foldl_op_assoc, op_left_id.
Qed.

End Folds.

(** ** Reduce *)

(** *** The two phases, for any operator *)

Section ReduceTiles.
Context {T : Type} (op : T → T → T) (zero : T) (sched : schedule).
Hypothesis sched_ok : schedule_ok sched.

(** [reduceImpl] for any operator: [f] gives the source as the loops
    read it, that is after [dest] has been zeroed, which matters when
    [dest] is an element of the source.  The result is the fold from
    zero of the folds from zero of the tiles, nothing else of the
    caller's memory changes, and the two buffers of the call are
    freed. *)
Lemma reduceImpl_tiles_wp (m : mem T) dest src n nThreads (f : Z → T) :
  1 ≤ nThreads ≤ INT_MAX → 0 ≤ n ≤ SIZE_MAX →
  valid m dest →
  (∀ i, 0 ≤ i < n → src +ₚ i ≠ dest → get m (src +ₚ i) = Some (f i)) →
  (∀ i, 0 ≤ i < n → src +ₚ i = dest → f i = zero) →
  wp (reduceImpl zero sched dest src n op nThreads) m
     (λ _ m', (length m ≤ length m')%nat ∧
              get m' dest
              = Some (foldl op zero
                        ((λ t, foldl op zero
                                 (seg f (tile_offset n nThreads t)
                                        (tileLength n nThreads t)))
                         <$> seqZ 0 (Z.min n nThreads))) ∧
              (∀ q, (blk q < length m)%nat → q ≠ dest →
                    get m' q = get m q) ∧
              (∀ q, (length m ≤ blk q)%nat → get m' q = None))
     no_exit.
Proof.
  intros HP Hn Hdest Hsrc Hzero. unfold reduceImpl.
  apply wp_bind, wp_assert; [apply Z.leb_le; lia|].
  apply wp_bind, wp_store; [done|]. intros m1 (Hlen1 & Hd1 & Ho1).
  pose proof (get_valid_blk _ _ Hdest) as Hbd.
  destruct (Z.eqb_spec n 0) as [->|Hn0].
  { apply wp_ret. rewrite Z.min_l by lia. split_and!; [lia | done | | ].
    - intros q _ Hq. by apply Ho1.
    - intros q Hq. rewrite Ho1 by (intros ->; lia).
      apply get_None_blk. lia. }
  assert (Hsrc1 : ∀ i, 0 ≤ i < n → get m1 (src +ₚ i) = Some (f i)).
  { intros i Hi. destruct (decide (src +ₚ i = dest)) as [Heq|Hne].
    - by rewrite Heq, Hd1, (Hzero i).
    - rewrite Ho1 by done. by apply Hsrc. }
  assert (Hbs : (blk src < length m1)%nat).
  { apply (get_Some_blk m1 (src +ₚ 0) (f 0)). apply Hsrc1. lia. }
  apply wp_bind, wp_calloc. intros m2 Hlen2 Hr2 Ho2.
  set (r := Ptr (length m1) 0) in *.
  cbv zeta. rewrite nTiles_eq by done.
  set (nT := Z.min n nThreads).
  rewrite (to_size_t_small nT) by (unfold SIZE_MAX, INT_MAX in *; lia).
  apply wp_bind, wp_calloc. intros m3 Hlen3 Hph3 Ho3.
  set (ph := Ptr (length m2) 0) in *.
  set (F t := foldl op zero
                (seg f (tile_offset n nThreads t) (tileLength n nThreads t))).
  assert (Hr3 : get m3 r = Some zero).
  { rewrite Ho3 by (simpl; lia). rewrite <- (shift_0 r). apply Hr2. lia. }
  (* Phase 1 *)
  apply wp_bind.
  apply (wp_omp_for sched (λ done m',
    length m' = length m3 ∧
    (∀ q, (blk q < length m2)%nat → get m' q = get m3 q) ∧
    (∀ t', t' ∈ done → get m' (ph +ₚ t') = Some (F t')) ∧
    (∀ t', 0 ≤ t' < nT → t' ∉ done → get m' (ph +ₚ t') = Some zero)));
    [done | | | ].
  { split_and!; [done | done | | intros; apply Hph3; lia].
    intros t' Ht'. by apply elem_of_nil in Ht'. }
  { intros done t m4 Ht Htnew Hdone (Hlen4 & Hold4 & Hdone4 & Htodo4).
    fold (tileLength n nThreads t). fold (tileStart n nThreads t).
    rewrite tileStart_eq by (fold nT; lia).
    assert (HtT : 0 ≤ t < Z.min n nThreads) by (fold nT; lia).
    pose proof (tileLength_pos n nThreads ltac:(lia) HP t HtT) as Hpos.
    pose proof (tile_offset_step n nThreads ltac:(lia) HP t HtT) as Hstep.
    pose proof (tile_offset_bound n nThreads ltac:(lia) HP t
                  ltac:(lia)) as Hb0.
    pose proof (tile_offset_bound n nThreads ltac:(lia) HP (t + 1)
                  ltac:(lia)) as Hb1.
    set (a := tile_offset n nThreads t) in *.
    set (len := tileLength n nThreads t) in *.
    apply (wp_for (λ i m',
      length m' = length m3 ∧
      (∀ q, (blk q < length m2)%nat → get m' q = get m3 q) ∧
      (∀ t', t' ∈ done → get m' (ph +ₚ t') = Some (F t')) ∧
      (∀ t', 0 ≤ t' < nT → t' ∉ done → t' ≠ t →
             get m' (ph +ₚ t') = Some zero) ∧
      get m' (ph +ₚ t) = Some (foldl op zero (seg f a i)))).
    { lia. }
    { split_and!; [done | done | done | intros; by apply Htodo4 | ].
      rewrite seg_nil by lia. by apply Htodo4. }
    { intros i m5 Hi (Hlen5 & Hold5 & Hdone5 & Htodo5 & Hacc5).
      rewrite (to_size_t_small (i + a)) by lia.
      eapply wp_call2; [exact Hacc5 | | by eexists | ].
      { rewrite Hold5, Ho3, Ho2 by (simpl; lia). apply Hsrc1. lia. }
      intros m6 (Hlen6 & Hst6 & Ho6). split_and!.
      - lia.
      - intros q Hq. rewrite Ho6 by (subst ph; ptr_neq). by apply Hold5.
      - intros t' Ht'. assert (t' ≠ t) by by intros ->.
        rewrite Ho6 by ptr_neq. by apply Hdone5.
      - intros t' Ht' Hnew Hne. rewrite Ho6 by ptr_neq. by apply Htodo5.
      - rewrite Hst6, seg_snoc, foldl_snoc by lia.
        by replace (i + a) with (a + i) by lia. }
    intros m5 (Hlen5 & Hold5 & Hdone5 & Htodo5 & Hacc5). split_and!.
    - done.
    - done.
    - intros t' [->|Ht']%elem_of_cons; [done | by apply Hdone5].
    - intros t' Ht' Hnew. apply not_elem_of_cons in Hnew as [Hne Hnew].
      by apply Htodo5. }
  intros done m4 Hall (Hlen4 & Hold4 & Hdone4 & _).
  assert (Hph4 : ∀ t', 0 ≤ t' < nT → get m4 (ph +ₚ t') = Some (F t')).
  { intros t' Ht'. apply Hdone4. by apply Hall. }
  clear Hdone4.
  (* Phase 2 *)
  apply wp_bind.
  apply (wp_for (λ t m',
    length m' = length m3 ∧
    (∀ q, (blk q < length m1)%nat → get m' q = get m1 q) ∧
    (∀ t', 0 ≤ t' < nT → get m' (ph +ₚ t') = Some (F t')) ∧
    get m' r = Some (foldl op zero (F <$> seqZ 0 t)))).
  { lia. }
  { split_and!; [done | | done | ].
    - intros q Hq. rewrite Hold4, Ho3, Ho2 by lia. done.
    - by rewrite Hold4, Hr3 by (simpl; lia). }
  { intros t m5 Ht (Hlen5 & Hold5 & Hph5 & Hr5).
    eapply wp_call2; [exact Hr5 | by apply Hph5 | by eexists | ].
    intros m6 (Hlen6 & Hst6 & Ho6). split_and!.
    - lia.
    - intros q Hq. rewrite Ho6 by (subst r; ptr_neq). by apply Hold5.
    - intros t' Ht'. rewrite Ho6 by (subst r ph; ptr_neq). by apply Hph5.
    - by rewrite Hst6, fmap_seqZ_snoc, foldl_snoc by lia. }
  intros m5 (Hlen5 & Hold5 & Hph5 & Hr5).
  eapply wp_bind, wp_memcpy; [exact Hr5 | | ].
  { exists zero. by rewrite Hold5 by lia. }
  intros m6 (Hlen6 & Hst6 & Ho6).
  apply wp_bind, wp_free. intros m7 Hlen7 Ho7 Hgone7.
  apply wp_free. intros m8 Hlen8 Ho8 Hgone8.
  split_and!.
  - lia.
  - rewrite Ho8, Ho7 by (simpl; lia). done.
  - intros q Hq Hqd. rewrite Ho8, Ho7, Ho6, Hold5 by (simpl; lia || done).
    by apply Ho1.
  - intros q Hq.
    destruct (decide (blk q = blk ph)) as [Hph|Hnph]; [by apply Hgone8|].
    rewrite Ho8 by done.
    destruct (decide (blk q = blk r)) as [Hr|Hnr]; [by apply Hgone7|].
    apply get_None_blk. simpl in *. lia.
Qed.

End ReduceTiles.

(** *** With an associative operator whose left identity is zero *)

Section ReduceProof.
Context {T : Type} (op : T → T → T) (zero : T) (sched : schedule).
Hypothesis op_assoc : ∀ a b c, op (op a b) c = op a (op b c).
Hypothesis op_left_id : ∀ a, op zero a = a.
Hypothesis sched_ok : schedule_ok sched.

(** The fold of the tile folds is the fold of the whole. *)
Lemma tile_folds_fold (f : Z → T) n P :
  1 ≤ n ≤ SIZE_MAX → 1 ≤ P ≤ INT_MAX →
  foldl op zero
    ((λ t, foldl op zero (seg f (tile_offset n P t) (tileLength n P t)))
     <$> seqZ 0 (Z.min n P))
  = foldl op zero (seg f 0 n).
Proof.
  intros Hn HP.
  set (F t := foldl op zero (seg f (tile_offset n P t) (tileLength n P t))).
  assert (Hpre : ∀ k : nat, Z.of_nat k ≤ Z.min n P →
            foldl op zero (F <$> seqZ 0 (Z.of_nat k))
            = foldl op zero (seg f 0 (tile_offset n P (Z.of_nat k)))).
  { induction k as [|k IH]; intros Hk.
    - by rewrite tile_offset_0, seg_nil by (done || lia).
    - rewrite Nat2Z.inj_succ, <- Z.add_1_r.
      assert (HkT : 0 ≤ Z.of_nat k < Z.min n P) by lia.
      pose proof (tileLength_pos n P ltac:(lia) HP _ HkT) as Hpos.
      pose proof (tile_offset_step n P ltac:(lia) HP _ HkT) as Hstep.
      pose proof (tile_offset_bound n P ltac:(lia) HP (Z.of_nat k)
                    ltac:(lia)) as Hb0.
      rewrite fmap_seqZ_snoc, foldl_snoc, IH by lia.
      rewrite Hstep, seg_app by lia.
      by rewrite foldl_zero_app by (done || apply seg_nonempty; lia). }
  rewrite <- (Z2Nat.id (Z.min n P)) by lia.
  rewrite Hpre by lia.
  rewrite Z2Nat.id by lia. by rewrite tile_offset_end by (done || lia).
Qed.

(** The two-phase reduce leaves in [dest] the fold of the source from
    zero, whatever the number of threads and the schedule, and touches
    nothing else of the caller's memory. *)
Lemma reduceImpl_wp (m : mem T) dest src n nThreads (f : Z → T) :
  1 ≤ nThreads ≤ INT_MAX → 0 ≤ n ≤ SIZE_MAX →
  valid m dest →
  (∀ i, 0 ≤ i < n → get m (src +ₚ i) = Some (f i)) →
  (∀ i, 0 ≤ i < n → src +ₚ i ≠ dest) →
  wp (reduceImpl zero sched dest src n op nThreads) m
     (λ _ m', (length m ≤ length m')%nat ∧
              get m' dest = Some (foldl op zero (seg f 0 n)) ∧
              ∀ q, (blk q < length m)%nat → q ≠ dest → get m' q = get m q)
     no_exit.
Proof.
  intros HP Hn Hdest Hsrc Hsep.
  eapply wp_mono;
    [apply (reduceImpl_tiles_wp op zero sched sched_ok m dest src n
              nThreads f HP Hn Hdest)
    | | done].
  - intros i Hi _. by apply Hsrc.
  - intros i Hi Heq. by destruct (Hsep i Hi).
  - intros [] m' (Hlen & Hget & Hframe & _). split_and!; [done | | done].
    rewrite Hget. f_equal.
    destruct (decide (n = 0)) as [->|Hn0].
    + by rewrite Z.min_l by lia.
    + apply tile_folds_fold; [lia | done].
Qed.

End ReduceProof.

(** ** Schedules of the examples *)

Lemma in_order_ok : schedule_ok in_order.
Proof. intros k lo hi. reflexivity. Qed.

Lemma last_first_ok : schedule_ok last_first.
Proof. intros k lo hi. apply reverse_Permutation. Qed.

(** ** Buffers of a concrete memory *)

Lemma array_block {T} (m : mem T) b (l : list T) :
  m !! b = Some l → array m (Ptr b 0) l.
Proof.
  intros Hm i v Hv. unfold get. simpl.
  destruct (Z.leb_spec 0 (0 + Z.of_nat i)); [|lia].
  rewrite Hm. by replace (Z.to_nat (0 + Z.of_nat i)) with i by lia.
Qed.

Lemma room_block {T} (m : mem T) b (l : list T) n :
  m !! b = Some l → n ≤ Z.of_nat (length l) → room m (Ptr b 0) n.
Proof.
  intros Hm Hn i Hi. unfold valid, get. simpl.
  destruct (Z.leb_spec 0 (0 + i)); [|lia].
  rewrite Hm. apply lookup_lt_is_Some_2. lia.
Qed.

Lemma array_get {T} (m m' : mem T) p (l : list T) :
  array m p l →
  (∀ i, 0 ≤ i < Z.of_nat (length l) → get m' (p +ₚ i) = get m (p +ₚ i)) →
  array m' p l.
Proof.
  intros Harr Hsame i v Hv. rewrite Hsame; [by apply Harr|].
  apply lookup_lt_Some in Hv. lia.
Qed.

(** C1 (amended). For every element count [n >= 0], every source buffer
    of [n] elements and every associative operator of which the
    zero-valued element is a left identity, [reduce] returns and sets
    [dest] to the strict left-to-right fold of the source (the
    zero-valued element when [n = 0]), for every worker count and
    every schedule of the parallel loop: the result is the same for 1, 2
    and the platform maximum.  The source and the rest of the caller's
    memory are unchanged. *)
Theorem reduce_strict_fold {T} (op : T → T → T) (zero : T) (workers : Z)
    (sched : schedule) (m : mem T) (dest src : ptr) (n : Z) (xs : list T) :
  (∀ a b c, op (op a b) c = op a (op b c)) →
  (∀ a, op zero a = a) →
  1 ≤ workers ≤ INT_MAX → schedule_ok sched →
  n = Z.of_nat (length xs) → n ≤ SIZE_MAX →
  valid m dest → array m src xs → blk dest ≠ blk src →
  ∃ m', run (reduce zero workers sched dest src n op) m
        = Returned ((), m') ∧
        get m' dest = Some (fold_strict op zero xs) ∧
        array m' src xs ∧
        ∀ q, (blk q < length m)%nat → q ≠ dest → get m' q = get m q.
Proof.
  intros Hassoc Hid HP Hsched -> Hn Hdest Hsrc Hsep.
  destruct (wp_returned
    (reduce zero workers sched dest src (Z.of_nat (length xs)) op) m
    (λ _ m', (length m ≤ length m')%nat ∧
             get m' dest
             = Some (foldl op zero
                       (seg (contents zero xs) 0 (Z.of_nat (length xs)))) ∧
             ∀ q, (blk q < length m)%nat → q ≠ dest → get m' q = get m q))
    as ([] & m' & Hrun & _ & Hget & Hframe).
  { apply reduceImpl_wp; try done; try lia.
    - intros i Hi. by apply array_contents.
    - intros i Hi. ptr_neq. }
  exists m'. rewrite seg_contents, foldl_zero_strict in Hget by done.
  split_and!; try done.
  apply (array_get m); [done|]. intros i Hi. apply Hframe; [|ptr_neq].
  apply (get_Some_blk m (src +ₚ i) (contents zero xs i)).
  by apply array_contents.
Qed.

Lemma reduce_strict_fold_witness :
  ∃ m', run (reduce 0 2 last_first (Ptr 0 0) (Ptr 1 0) 5 Z.add)
          [[0]; [1; 2; 3; 4; 5]]
        = Returned ((), m') ∧
        get m' (Ptr 0 0) = Some 15.
Proof.
  destruct (reduce_strict_fold Z.add 0 2 last_first [[0]; [1; 2; 3; 4; 5]]
              (Ptr 0 0) (Ptr 1 0) 5 [1; 2; 3; 4; 5])
    as (m' & Hrun & Hget & _).
  - intros; lia.
  - intros; lia.
  - unfold INT_MAX; lia.
  - exact last_first_ok.
  - reflexivity.
  - unfold SIZE_MAX; lia.
  - by eexists.
  - by apply array_block.
  - simpl; lia.
  - exists m'. split; [exact Hrun | exact Hget].
Defined.

(** C1 as stated fails: [add_succ] is associative, yet on the source
    [1; 2] the strict fold is [4] while [reduce] yields [6] with one
    worker and [7] with two. *)
Lemma reduce_associative_only_counterexample :
  (∀ a b c, add_succ (add_succ a b) c = add_succ a (add_succ b c)) ∧
  fold_strict add_succ 0 [1; 2] = 4 ∧
  run (reduce 0 1 in_order (Ptr 0 0) (Ptr 1 0) 2 add_succ) [[0]; [1; 2]]
  = Returned ((), [[6]; [1; 2]; []; []]) ∧
  run (reduce 0 2 in_order (Ptr 0 0) (Ptr 1 0) 2 add_succ) [[0]; [1; 2]]
  = Returned ((), [[7]; [1; 2]; []; []]).
Proof.
  split; [unfold add_succ; intros; lia|].
  split_and!; reflexivity.
Qed.

(** ** Scan *)

Lemma seg_shift {T} (f : Z → T) a l : seg (λ i, f (a + i)) 0 l = seg f a l.
Proof.
  unfold seg. transitivity (f <$> (Z.add a <$> seqZ 0 l)).
  - by rewrite <- list_fmap_compose.
  - by rewrite fmap_add_seqZ, Z.add_0_r.
Qed.

(** *** The three phases, for any operator *)

Lemma one_tile_fold {T} (op : T → T → T) (zero : T) (g : Z → T) L :
  1 ≤ L ≤ SIZE_MAX →
  foldl op zero
    ((λ t, foldl op zero (seg g (tile_offset L 1 t) (tileLength L 1 t)))
     <$> seqZ 0 (Z.min L 1))
  = op zero (foldl op zero (seg g 0 L)).
Proof.
  intros HL. rewrite Z.min_r by lia.
  assert (HP : 1 ≤ 1 ≤ INT_MAX) by (unfold INT_MAX; lia).
  change (seqZ 0 1) with [0]. cbn [fmap list_fmap foldl].
  rewrite tile_offset_0 by (done || lia).
  rewrite (tileLength_eq L 1 ltac:(lia) HP 0) by lia.
  rewrite Z.div_1_r, Z.mod_1_r. simpl. by rewrite Z.add_0_r.
Qed.

Section ScanTiles.
Context {T : Type} (op : T → T → T) (zero : T) (sched : schedule).
Hypothesis sched_ok : schedule_ok sched.

(** [scan] for any operator, into a separate buffer or in place
    ([dest = src]): entry [0] is the first element, and the entries of
    tile [t] are the running folds of the tile from its carry.  An
    element of the source is read before the entry of the same index is
    written. *)
Lemma scan_tiles_wp (m : mem T) dest src n P (f : Z → T) :
  1 ≤ P ≤ INT_MAX → 0 ≤ n ≤ SIZE_MAX →
  room m dest n →
  (∀ i, 0 ≤ i < n → get m (src +ₚ i) = Some (f i)) →
  dest = src ∨ blk dest ≠ blk src →
  wp (scan zero P sched dest src n op) m
     (λ _ m', (length m ≤ length m')%nat ∧
              (0 < n → get m' dest = Some (f 0)) ∧
              (∀ t j, 0 ≤ t < Z.min (n - 1) P →
                 tile_offset (n - 1) P t < j ≤ tile_offset (n - 1) P (t + 1) →
                 get m' (dest +ₚ j)
                 = Some (foldl op (scan_carry_at op zero f (n - 1) P t)
                           (seg f (tile_offset (n - 1) P t + 1)
                                (j - tile_offset (n - 1) P t)))) ∧
              (∀ q, (blk q < length m)%nat → ¬ inside dest n q →
                    get m' q = get m q) ∧
              (∀ q, (length m ≤ blk q)%nat → get m' q = None))
     no_exit.
Proof.
  intros HP Hn Hroom Hsrc Halias. unfold scan. cbv zeta.
  destruct (Z.eqb_spec n 0) as [->|Hn0].
  { apply wp_ret. split_and!; [lia | lia | | done | ].
    - intros t j Ht. lia.
    - intros q Hq. by apply get_None_blk. }
  assert (Hbd : (blk dest < length m)%nat).
  { apply (get_valid_blk m (dest +ₚ 0)). apply Hroom. lia. }
  assert (Hbs : (blk src < length m)%nat).
  { apply (get_Some_blk m (src +ₚ 0) (f 0)). apply Hsrc. lia. }
  eapply wp_bind, wp_memcpy.
  { rewrite <- (shift_0 src). apply Hsrc. lia. }
  { rewrite <- (shift_0 dest). apply Hroom. lia. }
  intros m1 (Hlen1 & Hd1 & Ho1).
  assert (Hsrc1 : ∀ i, 0 ≤ i < n → get m1 (src +ₚ i) = Some (f i)).
  { intros i Hi. destruct (decide (src +ₚ i = dest)) as [Heq|Hne].
    - rewrite Heq, Hd1. do 2 f_equal. destruct Halias as [->|Hsep].
      + apply (f_equal off) in Heq. simpl in Heq. lia.
      + apply (f_equal blk) in Heq. simpl in Heq. congruence.
    - rewrite Ho1 by done. by apply Hsrc. }
  assert (Hroom1 : ∀ i, 0 ≤ i < n → valid m1 (dest +ₚ i)).
  { intros i Hi. destruct (decide (i = 0)) as [->|].
    - rewrite shift_0. by eexists.
    - unfold valid. rewrite Ho1 by ptr_neq. by apply Hroom. }
  destruct (Z.eqb_spec n 1) as [->|Hn1].
  { apply wp_ret. split_and!.
    - lia.
    - done.
    - intros t j Ht. lia.
    - intros q Hq Hin. apply Ho1. intros ->. apply Hin.
      unfold inside. lia.
    - intros q Hq. rewrite Ho1 by (intros ->; lia). by apply get_None_blk. }
  rewrite (to_size_t_small (n - 1)) by lia.
  set (N := n - 1).
  assert (HN : 0 ≤ N ≤ SIZE_MAX) by lia.
  rewrite nTiles_eq by done.
  set (nT := Z.min N P).
  rewrite (to_size_t_small nT) by (unfold SIZE_MAX, INT_MAX in *; lia).
  set (ofs := tile_offset N P).
  set (len := tileLength N P).
  assert (Hlen : ∀ t, 0 ≤ t < nT → 1 ≤ len t).
  { intros t Ht. by apply tileLength_pos. }
  assert (Hstep : ∀ t, 0 ≤ t < nT → ofs (t + 1) = ofs t + len t).
  { intros t Ht. by apply tile_offset_step. }
  assert (Hofs : ∀ t, 0 ≤ t ≤ nT → 0 ≤ ofs t ≤ N).
  { intros t Ht. by apply tile_offset_bound. }
  assert (Hofs0 : ofs 0 = 0) by by apply tile_offset_0.
  assert (Hofs_end : ofs nT = N) by by apply tile_offset_end.
  apply wp_bind, wp_calloc. intros m2 Hlen2 Hz2 Ho2.
  set (ph1 := Ptr (length m1) 0) in *.
  apply wp_bind, wp_calloc. intros m3 Hlen3 Hz3 Ho3.
  set (ph2 := Ptr (length m2) 0) in *.
  eapply wp_bind, wp_memcpy.
  { rewrite Ho3, Ho2 by lia. rewrite <- (shift_0 src). apply Hsrc1. lia. }
  { exists zero. rewrite Ho3 by (simpl; lia).
    rewrite <- (shift_0 ph1). apply Hz2. lia. }
  intros m4 (Hlen4 & Hst4 & Ho4).
  eapply wp_bind, wp_memcpy.
  { rewrite Ho4, Ho3, Ho2 by (lia || ptr_neq).
    rewrite <- (shift_0 src). apply Hsrc1. lia. }
  { exists zero. rewrite Ho4 by (subst ph1 ph2; ptr_neq).
    rewrite <- (shift_0 ph2). apply Hz3. lia. }
  intros m5 (Hlen5 & Hst5 & Ho5).
  assert (Hold5 : ∀ q, (blk q < length m1)%nat → get m5 q = get m1 q).
  { intros q Hq. rewrite Ho5, Ho4, Ho3, Ho2 by (lia || subst ph1 ph2; ptr_neq).
    done. }
  assert (Hph1_5 : ∀ t, 1 ≤ t < nT → get m5 (ph1 +ₚ t) = Some zero).
  { intros t Ht.
    rewrite Ho5, Ho4, Ho3 by (simpl; lia || subst ph1 ph2; ptr_neq).
    apply Hz2. lia. }
  assert (Hph1_0 : get m5 ph1 = Some (f 0)).
  { rewrite Ho5 by (subst ph1 ph2; ptr_neq). done. }
  assert (Hph2_5 : ∀ t, 1 ≤ t < nT → get m5 (ph2 +ₚ t) = Some zero).
  { intros t Ht. rewrite Ho5, Ho4 by (subst ph1 ph2; ptr_neq).
    apply Hz3. lia. }
  set (R t := op zero (foldl op zero (seg f (ofs t + 1) (len t)))).
  set (C t := scan_carry_at op zero f N P t).
  assert (HC0 : C 0 = f 0) by done.
  assert (HCS : ∀ t, 0 ≤ t → C (t + 1) = op (C t) (R t)).
  { intros t Ht. unfold C, scan_carry_at.
    by rewrite fmap_seqZ_snoc, foldl_snoc by lia. }
  (* Phase 1 *)
  apply wp_bind.
  apply (wp_omp_for sched (λ done m',
    (length m5 ≤ length m')%nat ∧
    (∀ q, (blk q < length m5)%nat → blk q ≠ blk ph1 → get m' q = get m5 q) ∧
    (∀ q, (length m5 ≤ blk q)%nat → get m' q = None) ∧
    get m' ph1 = Some (f 0) ∧
    (∀ t', t' ∈ done → get m' (ph1 +ₚ (t' + 1)) = Some (R t')) ∧
    (∀ t', 0 ≤ t' < nT - 1 → t' ∉ done →
           get m' (ph1 +ₚ (t' + 1)) = Some zero)));
    [done | | | ].
  { split_and!; [done | done | | done | | ].
    - intros q Hq. by apply get_None_blk.
    - intros t' Ht'. by apply elem_of_nil in Ht'.
    - intros t' Ht' _. apply Hph1_5. lia. }
  { intros done t m6 Ht Htnew Hdone
      (Hlen6 & Hold6 & Hnone6 & H0_6 & Hdone6 & Htodo6).
    fold (tileLength N P t). fold (tileStart N P t).
    rewrite tileStart_eq by (done || fold nT; lia).
    fold (ofs t) (len t).
    pose proof (Hlen t ltac:(lia)). pose proof (Hstep t ltac:(lia)).
    pose proof (Hofs t ltac:(lia)). pose proof (Hofs (t + 1) ltac:(lia)).
    rewrite (to_size_t_small (ofs t + 1)) by lia.
    eapply wp_mono; [ | | done].
    - apply (reduceImpl_tiles_wp op zero sched sched_ok m6
               (ph1 +ₚ (t + 1)) (src +ₚ (ofs t + 1)) (len t) 1
               (λ i, f (ofs t + 1 + i))).
      + unfold INT_MAX. lia.
      + lia.
      + exists zero. by apply Htodo6.
      + intros i Hi _. rewrite shift_shift.
        rewrite Hold6, Hold5 by (simpl; lia). apply Hsrc1. lia.
      + intros i Hi Heq. exfalso. revert Heq. subst ph1. ptr_neq.
    - intros [] m7 (Hlen7 & Hget7 & Ho7 & Hfreed7). simpl. split_and!.
      + lia.
      + intros q Hq Hqb. rewrite Ho7 by (lia || ptr_neq). by apply Hold6.
      + intros q Hq. destruct (decide (blk q < length m6)%nat).
        * rewrite Ho7; [by apply Hnone6 | done | ].
          intros ->. simpl in Hq. lia.
        * apply Hfreed7. lia.
      + rewrite Ho7; [done | simpl; lia | ].
        rewrite <- (shift_0 ph1) at 1. ptr_neq.
      + intros t' [->|Ht']%elem_of_cons.
        * rewrite Hget7, one_tile_fold by lia. unfold R.
          by rewrite seg_shift.
        * assert (t' ≠ t) by by intros ->.
          rewrite Ho7 by (simpl; lia || ptr_neq). by apply Hdone6.
      + intros t' Ht' Hnew. apply not_elem_of_cons in Hnew as [Hne Hnew].
        rewrite Ho7 by (simpl; lia || ptr_neq). by apply Htodo6. }
  intros done1 m6 Hall1 (Hlen6 & Hold6 & Hnone6 & H0_6 & Hdone6' & _).
  assert (Hdone6 : ∀ t', 1 ≤ t' ≤ nT - 1 →
                         get m6 (ph1 +ₚ t') = Some (R (t' - 1))).
  { intros t' Ht'. replace t' with (t' - 1 + 1) at 1 by lia.
    apply Hdone6'. apply Hall1. lia. }
  clear Hdone6' Hall1 done1.
  (* Phase 2 *)
  apply wp_bind.
  apply (wp_for (λ t m',
    length m' = length m6 ∧
    (∀ q, (blk q < length m1)%nat → get m' q = get m1 q) ∧
    (∀ q, (length m5 ≤ blk q)%nat → get m' q = None) ∧
    (∀ t', 0 ≤ t' < t → get m' (ph2 +ₚ t') = Some (C t')) ∧
    (∀ t', t ≤ t' < nT → get m' (ph2 +ₚ t') = Some zero) ∧
    (∀ t', 1 ≤ t' < nT → get m' (ph1 +ₚ t') = Some (R (t' - 1))))).
  { lia. }
  { split_and!.
    - done.
    - intros q Hq. rewrite Hold6 by (simpl; lia). by apply Hold5.
    - done.
    - intros t' Ht'. replace t' with 0 by lia.
      rewrite shift_0, Hold6, HC0 by (simpl; lia). done.
    - intros t' Ht'. rewrite Hold6 by (simpl; lia). by apply Hph2_5.
    - intros t' Ht'. apply Hdone6. lia. }
  { intros t m7 Ht (Hlen7 & Hold7 & Hnone7 & Hdone7 & Htodo7 & Hph1_7).
    eapply wp_call2.
    { apply Hdone7. lia. }
    { apply Hph1_7. lia. }
    { exists zero. apply Htodo7. lia. }
    intros m8 (Hlen8 & Hst8 & Ho8). split_and!.
    - lia.
    - intros q Hq. rewrite Ho8 by (simpl; lia || subst ph2; ptr_neq).
      by apply Hold7.
    - intros q Hq. rewrite Ho8 by (intros ->; simpl in Hq; lia).
      by apply Hnone7.
    - intros t' Ht'. destruct (decide (t' = t)) as [->|Hne].
      + rewrite Hst8. f_equal.
        replace t with (t - 1 + 1) at 3 by lia. symmetry. apply HCS. lia.
      + rewrite Ho8 by ptr_neq. apply Hdone7. lia.
    - intros t' Ht'. rewrite Ho8 by ptr_neq. apply Htodo7. lia.
    - intros t' Ht'. rewrite Ho8 by (subst ph1 ph2; ptr_neq). by apply Hph1_7. }
  intros m7 (Hlen7 & Hold7 & Hnone7 & Hdone7 & _ & _).
  apply wp_bind, wp_free. intros m8 Hlen8 Ho8 Hgone8.
  (* Phase 3 *)
  assert (Hapart : ∀ i j, i ≠ j → src +ₚ j ≠ dest +ₚ i).
  { intros i j Hij. destruct Halias as [->|Hsep]; ptr_neq. }
  apply wp_bind.
  apply (wp_omp_for sched (λ done m',
    length m' = length m8 ∧
    (∀ q, (blk q < length m1)%nat → ¬ inside dest n q → get m' q = get m1 q) ∧
    (∀ q, (length m1 ≤ blk q)%nat → blk q ≠ blk ph2 → get m' q = None) ∧
    (∀ t', 0 ≤ t' < nT → get m' (ph2 +ₚ t') = Some (C t')) ∧
    (∀ j, 0 ≤ j < n → valid m' (dest +ₚ j)) ∧
    get m' (dest +ₚ 0) = Some (f 0) ∧
    (∀ t' j, t' ∈ done → ofs t' < j ≤ ofs (t' + 1) →
             get m' (dest +ₚ j)
             = Some (foldl op (C t') (seg f (ofs t' + 1) (j - ofs t')))) ∧
    (∀ t' j, 0 ≤ t' < nT → t' ∉ done → ofs t' < j ≤ ofs (t' + 1) →
             get m' (src +ₚ j) = Some (f j))));
    [done | | | ].
  { split_and!.
    - done.
    - intros q Hq _. rewrite Ho8 by (simpl; lia). by apply Hold7.
    - intros q Hq Hq2. destruct (decide (blk q = blk ph1)) as [Hq1|Hq1].
      + by apply Hgone8.
      + rewrite Ho8 by done. apply Hnone7. simpl in *. lia.
    - intros t' Ht'. rewrite Ho8 by (simpl; lia). by apply Hdone7.
    - intros j Hj. unfold valid. rewrite Ho8, Hold7 by (simpl; lia).
      by apply Hroom1.
    - rewrite shift_0, Ho8, Hold7 by (simpl; lia). done.
    - intros t' j Ht'. by apply elem_of_nil in Ht'.
    - intros t' j Ht' _ Hj. pose proof (Hofs t' ltac:(lia)).
      pose proof (Hofs (t' + 1) ltac:(lia)).
      rewrite Ho8, Hold7 by (simpl; lia). apply Hsrc1. lia. }
  { intros done t m9 Ht Htnew Hdone
      (Hlen9 & Hold9 & Hnone9 & Hph2_9 & Hval9 & Hd0_9 & Hdone9 & Hsrc9).
    fold (tileLength N P t). fold (tileStart N P t).
    rewrite tileStart_eq by (done || fold nT; lia).
    fold (ofs t) (len t).
    pose proof (Hlen t ltac:(lia)). pose proof (Hstep t ltac:(lia)).
    pose proof (Hofs t ltac:(lia)). pose proof (Hofs (t + 1) ltac:(lia)).
    rewrite (to_size_t_small (ofs t + 1)) by lia.
    set (idx := ofs t + 1) in *.
    assert (Hother : ∀ t' j, 0 ≤ t' → t' ≠ t → ofs t' < j ≤ ofs (t' + 1) →
                             ¬ (idx ≤ j < idx + len t)).
    { intros t' j Ht' Hne Hj Hj'. apply Hne.
      apply (tile_disjoint N P t' t (j - 1) HN HP);
        [lia | lia | fold ofs; lia | fold ofs; lia]. }
    assert (Hfresh : ∀ t', t' ∈ done → 0 ≤ t' ∧ t' ≠ t).
    { intros t' Ht'. split; [apply Hdone in Ht'; lia | by intros ->]. }
    eapply wp_bind, wp_call2.
    { apply Hph2_9. lia. }
    { apply (Hsrc9 t); [lia | done | lia]. }
    { apply Hval9. lia. }
    intros m10 (Hlen10 & Hst10 & Ho10).
    apply (wp_for (λ i m',
      length m' = length m8 ∧
      (∀ q, (blk q < length m1)%nat → ¬ inside dest n q →
            get m' q = get m1 q) ∧
      (∀ q, (length m1 ≤ blk q)%nat → blk q ≠ blk ph2 → get m' q = None) ∧
      (∀ t', 0 ≤ t' < nT → get m' (ph2 +ₚ t') = Some (C t')) ∧
      (∀ j, 0 ≤ j < n → valid m' (dest +ₚ j)) ∧
      get m' (dest +ₚ 0) = Some (f 0) ∧
      (∀ t' j, t' ∈ done → ofs t' < j ≤ ofs (t' + 1) →
               get m' (dest +ₚ j)
               = Some (foldl op (C t') (seg f (ofs t' + 1) (j - ofs t')))) ∧
      (∀ t' j, 0 ≤ t' < nT → t' ∉ done → t' ≠ t → ofs t' < j ≤ ofs (t' + 1) →
               get m' (src +ₚ j) = Some (f j)) ∧
      (∀ j, idx + i ≤ j < idx + len t → get m' (src +ₚ j) = Some (f j)) ∧
      (∀ j, idx ≤ j < idx + i →
            get m' (dest +ₚ j)
            = Some (foldl op (C t) (seg f idx (j - ofs t)))))).
    { lia. }
    { split_and!.
      - lia.
      - intros q Hq Hin. rewrite Ho10; [by apply Hold9|].
        intros ->. apply Hin. apply inside_shift. lia.
      - intros q Hq Hq2. rewrite Ho10 by (intros ->; simpl in Hq; lia).
        by apply Hnone9.
      - intros t' Ht'. rewrite Ho10 by (subst ph2; ptr_neq). by apply Hph2_9.
      - intros j Hj. destruct (decide (j = idx)) as [->|Hne]; [by eexists|].
        unfold valid. rewrite Ho10 by ptr_neq. by apply Hval9.
      - rewrite Ho10 by ptr_neq. done.
      - intros t' j Ht' Hj. destruct (Hfresh t' Ht') as [Ht0 Hne].
        pose proof (Hother t' j Ht0 Hne Hj).
        rewrite Ho10 by ptr_neq. by apply (Hdone9 t').
      - intros t' j Ht' Hnew Hne Hj.
        pose proof (Hother t' j ltac:(lia) Hne Hj).
        rewrite Ho10 by (apply Hapart; lia). by apply (Hsrc9 t').
      - intros j Hj. rewrite Ho10 by (apply Hapart; lia).
        apply (Hsrc9 t); [lia | done | lia].
      - intros j Hj. replace j with idx by lia.
        rewrite Hst10. f_equal.
        replace (idx - ofs t) with 1 by lia. done. }
    { intros i m11 Hi
        (Hlen11 & Hold11 & Hnone11 & Hph2_11 & Hval11 & Hd0_11 & Hdone11
         & Hsrc11 & Hcur_src11 & Hcur11).
      rewrite (to_size_t_small (i - 1)) by lia.
      rewrite (to_size_t_small (i + idx)) by lia.
      rewrite (to_size_t_small (i - 1 + idx)) by lia.
      eapply wp_call2.
      { apply Hcur11. lia. }
      { apply Hcur_src11. lia. }
      { apply Hval11. lia. }
      intros m12 (Hlen12 & Hst12 & Ho12). split_and!.
      - lia.
      - intros q Hq Hin. rewrite Ho12; [by apply Hold11|].
        intros ->. apply Hin. apply inside_shift. lia.
      - intros q Hq Hq2. rewrite Ho12 by (intros ->; simpl in Hq; lia).
        by apply Hnone11.
      - intros t' Ht'. rewrite Ho12 by (subst ph2; ptr_neq). by apply Hph2_11.
      - intros j Hj. destruct (decide (j = i + idx)) as [->|Hne]; [by eexists|].
        unfold valid. rewrite Ho12 by ptr_neq. by apply Hval11.
      - rewrite Ho12 by ptr_neq. done.
      - intros t' j Ht' Hj. destruct (Hfresh t' Ht') as [Ht0 Hne].
        pose proof (Hother t' j Ht0 Hne Hj).
        rewrite Ho12 by ptr_neq. by apply (Hdone11 t').
      - intros t' j Ht' Hnew Hne Hj.
        pose proof (Hother t' j ltac:(lia) Hne Hj).
        rewrite Ho12 by (apply Hapart; lia). by apply (Hsrc11 t').
      - intros j Hj. rewrite Ho12 by (apply Hapart; lia).
        apply Hcur_src11. lia.
      - intros j Hj. destruct (decide (j = i + idx)) as [->|Hne].
        + rewrite Hst12. f_equal.
          replace (i + idx - ofs t) with (i - 1 + idx - ofs t + 1) by lia.
          rewrite (seg_snoc f idx) by lia. rewrite foldl_snoc.
          do 2 f_equal. lia.
        + rewrite Ho12 by ptr_neq. apply Hcur11. lia. }
    intros m11 (Hlen11 & Hold11 & Hnone11 & Hph2_11 & Hval11 & Hd0_11
                & Hdone11 & Hsrc11 & _ & Hcur11).
    split_and!; try done.
    - intros t' j [->|Ht']%elem_of_cons Hj.
      + apply Hcur11. fold idx in Hj. lia.
      + by apply (Hdone11 t').
    - intros t' j Ht' Hnew Hj. apply not_elem_of_cons in Hnew as [Hne Hnew].
      by apply (Hsrc11 t'). }
  intros done3 m9 Hall3 (Hlen9 & Hold9 & Hnone9 & _ & _ & Hd0_9 & Hdone9 & _).
  apply wp_free. intros m10 Hlen10 Ho10 Hgone10. split_and!.
  - lia.
  - intros _. rewrite Ho10 by (simpl; lia). by rewrite <- (shift_0 dest).
  - intros t j Ht Hj. rewrite Ho10 by (simpl; lia).
    apply (Hdone9 t); [apply Hall3; lia | done].
  - intros q Hq Hin. rewrite Ho10, Hold9 by (simpl; lia || done).
    apply Ho1. intros ->. apply Hin. unfold inside. lia.
  - intros q Hq. destruct (decide (blk q = blk ph2)) as [Hq2|Hq2].
    + by apply Hgone10.
    + rewrite Ho10 by done. apply Hnone9; [lia | done].
Qed.

End ScanTiles.

(** *** With an associative operator whose left identity is zero *)

Section ScanProof.
Context {T : Type} (op : T → T → T) (zero : T) (sched : schedule).
Hypothesis op_assoc : ∀ a b c, op (op a b) c = op a (op b c).
Hypothesis op_left_id : ∀ a, op zero a = a.
Hypothesis sched_ok : schedule_ok sched.

(** The carry into a tile is the fold of everything before the tile. *)
Lemma scan_carry_fold (f : Z → T) N P :
  0 ≤ N ≤ SIZE_MAX → 1 ≤ P ≤ INT_MAX →
  ∀ k : nat, Z.of_nat k ≤ Z.min N P →
    scan_carry_at op zero f N P (Z.of_nat k)
    = foldl op zero (seg f 0 (tile_offset N P (Z.of_nat k) + 1)).
Proof.
  intros HN HP. induction k as [|k IH]; intros Hk.
  - rewrite tile_offset_0 by done. simpl. by rewrite op_left_id.
  - rewrite Nat2Z.inj_succ, <- Z.add_1_r.
    assert (HkT : 0 ≤ Z.of_nat k < Z.min N P) by lia.
    pose proof (tileLength_pos N P HN HP _ HkT) as Hpos.
    pose proof (tile_offset_step N P HN HP _ HkT) as Hstep.
    pose proof (tile_offset_bound N P HN HP (Z.of_nat k) ltac:(lia)) as Hb0.
    unfold scan_carry_at in *.
    rewrite fmap_seqZ_snoc, foldl_snoc, IH, op_left_id by lia.
    rewrite Hstep.
    set (a := tile_offset N P (Z.of_nat k)) in *.
    set (l := tileLength N P (Z.of_nat k)) in *.
    replace (a + l + 1) with (a + 1 + l) by lia.
    rewrite (seg_app f 0 (a + 1) l) by lia.
    by rewrite foldl_zero_app, Z.add_0_l by (done || apply seg_nonempty; lia).
Qed.

(** The three-phase scan leaves in [dest[i]] the fold of [src[0..i]],
    whatever the number of threads and the schedule, and touches nothing
    else of the caller's memory. *)
Lemma scan_alias_wp (m : mem T) dest src n P (f : Z → T) :
  1 ≤ P ≤ INT_MAX → 0 ≤ n ≤ SIZE_MAX →
  room m dest n →
  (∀ i, 0 ≤ i < n → get m (src +ₚ i) = Some (f i)) →
  dest = src ∨ blk dest ≠ blk src →
  wp (scan zero P sched dest src n op) m
     (λ _ m', (length m ≤ length m')%nat ∧
              (∀ i, 0 ≤ i < n →
                 get m' (dest +ₚ i) = Some (foldl op zero (seg f 0 (i + 1)))) ∧
              ∀ q, (blk q < length m)%nat → ¬ inside dest n q →
                   get m' q = get m q)
     no_exit.
Proof.
  intros HP Hn Hroom Hsrc Halias.
  eapply wp_mono;
    [apply (scan_tiles_wp op zero sched sched_ok m dest src n P f
              HP Hn Hroom Hsrc Halias)
    | | done].
  intros [] m' (Hlen & Hd0 & Htiles & Hframe & _).
  split_and!; [done | | done].
  intros i Hi. destruct (decide (i = 0)) as [->|Hne].
  - rewrite shift_0, Hd0 by lia. simpl. by rewrite op_left_id.
  - assert (HN : 0 ≤ n - 1 ≤ SIZE_MAX) by lia.
    destruct (tile_find (n - 1) P (i - 1) HN HP ltac:(lia)) as (t & Ht & Hin).
    pose proof (tile_offset_bound (n - 1) P HN HP t ltac:(lia)) as Hb0.
    rewrite (Htiles t i) by lia. f_equal.
    rewrite <- (Z2Nat.id t), scan_carry_fold by lia.
    rewrite Z2Nat.id by lia.
    rewrite <- foldl_app. f_equal.
    set (a := tile_offset (n - 1) P t) in *.
    replace (i + 1) with (a + 1 + (i - a)) by lia.
    by rewrite (seg_app f 0 (a + 1) (i - a)), Z.add_0_l by lia.
Qed.

Lemma scan_wp (m : mem T) dest src n P (f : Z → T) :
  1 ≤ P ≤ INT_MAX → 0 ≤ n ≤ SIZE_MAX →
  room m dest n →
  (∀ i, 0 ≤ i < n → get m (src +ₚ i) = Some (f i)) →
  blk dest ≠ blk src →
  wp (scan zero P sched dest src n op) m
     (λ _ m', (length m ≤ length m')%nat ∧
              (∀ i, 0 ≤ i < n →
                 get m' (dest +ₚ i) = Some (foldl op zero (seg f 0 (i + 1)))) ∧
              ∀ q, (blk q < length m)%nat → ¬ inside dest n q →
                   get m' q = get m q)
     no_exit.
Proof. intros. apply scan_alias_wp; auto. Qed.

End ScanProof.

Lemma running_fold_seg {T} (op : T → T → T) (zero : T) (xs : list T) (i : nat) :
  (∀ a, op zero a = a) → (i < length xs)%nat →
  foldl op zero (seg (contents zero xs) 0 (Z.of_nat i + 1))
  = running_fold op zero xs i.
Proof.
  intros Hid Hi. unfold running_fold.
  rewrite <- (foldl_zero_strict op zero Hid).
  rewrite <- (seg_contents zero xs) at 2.
  rewrite seg_take by lia. do 2 f_equal. lia.
Qed.

(** [scan] on a source held as a list. *)
Lemma scan_running_fold {T} (op : T → T → T) (zero : T) (workers : Z)
    (sched : schedule) (m : mem T) (dest src : ptr) (n : Z) (xs : list T) :
  (∀ a b c, op (op a b) c = op a (op b c)) →
  (∀ a, op zero a = a) →
  1 ≤ workers ≤ INT_MAX → schedule_ok sched →
  n = Z.of_nat (length xs) → n ≤ SIZE_MAX →
  room m dest n → array m src xs → blk dest ≠ blk src →
  ∃ m', run (scan zero workers sched dest src n op) m = Returned ((), m') ∧
        (∀ i : nat, (i < length xs)%nat →
           get m' (dest +ₚ Z.of_nat i) = Some (running_fold op zero xs i)) ∧
        array m' src xs ∧
        ∀ q, (blk q < length m)%nat → ¬ inside dest n q → get m' q = get m q.
Proof.
  intros Hassoc Hid HP Hsched -> Hn Hdest Hsrc Hsep.
  destruct (wp_returned
    (scan zero workers sched dest src (Z.of_nat (length xs)) op) m
    (λ _ m', (length m ≤ length m')%nat ∧
             (∀ i, 0 ≤ i < Z.of_nat (length xs) →
                get m' (dest +ₚ i)
                = Some (foldl op zero (seg (contents zero xs) 0 (i + 1)))) ∧
             ∀ q, (blk q < length m)%nat →
                  ¬ inside dest (Z.of_nat (length xs)) q → get m' q = get m q))
    as ([] & m' & Hrun & _ & Hget & Hframe).
  { apply scan_wp; [done | done | done | done | lia | done | | done].
    intros i Hi. by apply array_contents. }
  exists m'. split_and!; [done | | | done].
  - intros i Hi. rewrite Hget by lia. f_equal. by apply running_fold_seg.
  - apply (array_get m); [done|]. intros i Hi. apply Hframe.
    + apply (get_Some_blk m (src +ₚ i) (contents zero xs i)).
      by apply array_contents.
    + intros [Hb _]. simpl in Hb. congruence.
Qed.

(** C2 (amended). For every element count [n >= 0], every source buffer
    of [n] elements and every associative operator of which the
    zero-valued element is a left identity, [inclusiveScan] returns and
    sets [dest[i]] to the left fold of [src[0..i]] inclusive, for every
    [i] in [[0, n)]: the result of a sequential left-to-right running
    fold, for every worker count and every schedule of the parallel
    loops.  The source and the rest of the caller's memory are
    unchanged. *)
Theorem inclusiveScan_running_fold {T} (op : T → T → T) (zero : T)
    (workers : Z) (sched : schedule) (m : mem T) (dest src : ptr) (n : Z)
    (xs : list T) :
  (∀ a b c, op (op a b) c = op a (op b c)) →
  (∀ a, op zero a = a) →
  1 ≤ workers ≤ INT_MAX → schedule_ok sched →
  n = Z.of_nat (length xs) → n ≤ SIZE_MAX →
  room m dest n → array m src xs → blk dest ≠ blk src →
  ∃ m', run (inclusiveScan zero workers sched dest src n op) m
        = Returned ((), m') ∧
        (∀ i : nat, (i < length xs)%nat →
           get m' (dest +ₚ Z.of_nat i) = Some (running_fold op zero xs i)) ∧
        array m' src xs ∧
        ∀ q, (blk q < length m)%nat → ¬ inside dest n q → get m' q = get m q.
Proof.
  intros. unfold inclusiveScan. by apply scan_running_fold.
Qed.

Lemma inclusiveScan_running_fold_witness :
  ∃ m', run (inclusiveScan 0 2 last_first (Ptr 0 0) (Ptr 1 0) 5 Z.add)
          [[0; 0; 0; 0; 0]; [1; 2; 3; 4; 5]]
        = Returned ((), m') ∧
        get m' (Ptr 0 0 +ₚ 4) = Some 15.
Proof.
  destruct (inclusiveScan_running_fold Z.add 0 2 last_first
              [[0; 0; 0; 0; 0]; [1; 2; 3; 4; 5]]
              (Ptr 0 0) (Ptr 1 0) 5 [1; 2; 3; 4; 5])
    as (m' & Hrun & Hget & _).
  - intros; lia.
  - intros; lia.
  - unfold INT_MAX; lia.
  - exact last_first_ok.
  - reflexivity.
  - unfold SIZE_MAX; lia.
  - by apply (room_block _ _ [0; 0; 0; 0; 0]).
  - by apply array_block.
  - simpl; lia.
  - exists m'. split; [exact Hrun | apply (Hget 4%nat); simpl; lia].
Defined.

(** C2 as stated fails: multiplication is associative, yet with two
    workers the scan of [2; 3; 4; 5] ends in [0], not in the running
    product [120]. *)
Lemma inclusiveScan_associative_only_counterexample :
  (∀ a b c : Z, a * b * c = a * (b * c)) ∧
  running_fold Z.mul 0 [2; 3; 4; 5] 3 = 120 ∧
  run (inclusiveScan 0 2 in_order (Ptr 0 0) (Ptr 1 0) 4 Z.mul)
    [[0; 0; 0; 0]; [2; 3; 4; 5]]
  = Returned ((), [[2; 6; 24; 0]; [2; 3; 4; 5]; []; []; []; []]).
Proof.
  split; [intros; lia|]. split; reflexivity.
Qed.

(** C4 (amended). For every [n >= 2], every source buffer of [n]
    elements and every associative operator of which the zero-valued
    element is a left identity, after [exclusiveScan] the entry
    [dest[i]] equals entry [i - 1] of [inclusiveScan] of the same
    source, for every [i] in [[1, n)], and [dest[0]] is as it was before
    the call. *)
Theorem exclusiveScan_shifts_inclusiveScan {T} (op : T → T → T) (zero : T)
    (workers : Z) (sched : schedule) (m : mem T) (dest src : ptr) (n : Z)
    (xs : list T) :
  (∀ a b c, op (op a b) c = op a (op b c)) →
  (∀ a, op zero a = a) →
  1 ≤ workers ≤ INT_MAX → schedule_ok sched →
  2 ≤ n → n = Z.of_nat (length xs) → n ≤ SIZE_MAX →
  room m dest n → array m src xs → blk dest ≠ blk src →
  ∃ me mi,
    run (exclusiveScan zero workers sched dest src n op) m
    = Returned ((), me) ∧
    run (inclusiveScan zero workers sched dest src n op) m
    = Returned ((), mi) ∧
    (∀ i, 1 ≤ i < n →
       get me (dest +ₚ i) = get mi (dest +ₚ (i - 1)) ∧
       get me (dest +ₚ i)
       = Some (running_fold op zero xs (Z.to_nat (i - 1)))) ∧
    get me dest = get m dest.
Proof.
  intros Hassoc Hid HP Hsched Hn2 Hn Hmax Hdest Hsrc Hsep.
  destruct (scan_running_fold op zero workers sched m dest src n xs)
    as (mi & Hruni & Hgeti & _); try done.
  destruct (wp_returned (exclusiveScan zero workers sched dest src n op) m
    (λ _ m', (length m ≤ length m')%nat ∧
             (∀ i, 0 ≤ i < n - 1 →
                get m' (dest +ₚ 1 +ₚ i)
                = Some (foldl op zero (seg (contents zero xs) 0 (i + 1)))) ∧
             ∀ q, (blk q < length m)%nat →
                  ¬ inside (dest +ₚ 1) (n - 1) q → get m' q = get m q))
    as ([] & me & Hrune & _ & Hgete & Hframe).
  { unfold exclusiveScan. rewrite to_size_t_small by lia.
    apply scan_wp; [done | done | done | done | lia | | | done].
    - intros i Hi. rewrite shift_shift. apply Hdest. lia.
    - intros i Hi. apply array_contents; [done | lia]. }
  exists me, mi. split_and!; [done | done | | ].
  - intros i Hi.
    assert (Hval : get me (dest +ₚ i)
                   = Some (running_fold op zero xs (Z.to_nat (i - 1)))).
    { replace (dest +ₚ i) with (dest +ₚ 1 +ₚ (i - 1))
        by (rewrite shift_shift; f_equal; lia).
      rewrite Hgete by lia. f_equal.
      rewrite <- running_fold_seg by (done || lia).
      do 2 f_equal. lia. }
    split; [|done]. rewrite Hval.
    replace (i - 1) with (Z.of_nat (Z.to_nat (i - 1))) at 2 by lia.
    symmetry. apply Hgeti. lia.
  - apply Hframe.
    + apply (get_valid_blk m (dest +ₚ 0)). apply Hdest. lia.
    + intros [_ Ho]. simpl in Ho. lia.
Qed.

Lemma exclusiveScan_shifts_inclusiveScan_witness :
  ∃ me mi,
    run (exclusiveScan 0 2 last_first (Ptr 0 0) (Ptr 1 0) 5 Z.add)
      [[9; 0; 0; 0; 0]; [1; 2; 3; 4; 5]] = Returned ((), me) ∧
    run (inclusiveScan 0 2 last_first (Ptr 0 0) (Ptr 1 0) 5 Z.add)
      [[9; 0; 0; 0; 0]; [1; 2; 3; 4; 5]] = Returned ((), mi) ∧
    get me (Ptr 0 0 +ₚ 4) = get mi (Ptr 0 0 +ₚ 3) ∧
    get me (Ptr 0 0) = Some 9.
Proof.
  destruct (exclusiveScan_shifts_inclusiveScan Z.add 0 2 last_first
              [[9; 0; 0; 0; 0]; [1; 2; 3; 4; 5]]
              (Ptr 0 0) (Ptr 1 0) 5 [1; 2; 3; 4; 5])
    as (me & mi & Hrune & Hruni & Hget & Hd0).
  - intros; lia.
  - intros; lia.
  - unfold INT_MAX; lia.
  - exact last_first_ok.
  - lia.
  - reflexivity.
  - unfold SIZE_MAX; lia.
  - by apply (room_block _ _ [9; 0; 0; 0; 0]).
  - by apply array_block.
  - simpl; lia.
  - exists me, mi. split_and!; [exact Hrune | exact Hruni | | exact Hd0].
    apply (Hget 4). lia.
Defined.

(** C4 as stated fails: multiplication is associative, yet with two
    workers and the source [2; 3; 4; 5], [exclusiveScan] leaves [0] in
    [dest[3]] while [inclusiveScan] leaves [24] in [dest[2]]. *)
Lemma exclusiveScan_associative_only_counterexample :
  (∀ a b c : Z, a * b * c = a * (b * c)) ∧
  run (exclusiveScan 0 2 in_order (Ptr 0 0) (Ptr 1 0) 4 Z.mul)
    [[9; 9; 9; 9]; [2; 3; 4; 5]]
  = Returned ((), [[9; 2; 6; 0]; [2; 3; 4; 5]; []; []; []; []]) ∧
  run (inclusiveScan 0 2 in_order (Ptr 0 0) (Ptr 1 0) 4 Z.mul)
    [[9; 9; 9; 9]; [2; 3; 4; 5]]
  = Returned ((), [[2; 6; 24; 0]; [2; 3; 4; 5]; []; []; []; []]).
Proof.
  split; [intros; lia|]. split; reflexivity.
Qed.

(** C9. With [nJob = 0], [inclusiveScan] returns at once and leaves the
    memory as it is; [exclusiveScan] does not: [nJob - 1] wraps to
    [SIZE_MAX], so [scan] runs on [2^64 - 1] jobs and starts by copying
    [src[0]] to [dest[1]], outside buffers of zero elements. *)
Theorem exclusiveScan_zero_jobs {T} (op : T → T → T) (zero : T) (workers : Z)
    (sched : schedule) (dest src : ptr) (m : mem T) :
  get m src = None →
  run (inclusiveScan zero workers sched dest src 0 op) m = Returned ((), m) ∧
  exclusiveScan zero workers sched dest src 0 op
  = scan zero workers sched (dest +ₚ 1) src SIZE_MAX op ∧
  run (exclusiveScan zero workers sched dest src 0 op) m = OutOfBounds.
Proof.
  intros Hsrc. split_and!; [done | done | ].
  unfold exclusiveScan. change (to_size_t (0 - 1)) with SIZE_MAX.
  unfold scan. change (SIZE_MAX =? 0) with false. cbv iota zeta.
  unfold run. unfold mbind at 1, M_bind at 1, memcpy at 1.
  unfold mbind at 1, M_bind at 1, load at 1. cbn [fst]. by rewrite Hsrc.
Qed.

Lemma exclusiveScan_zero_jobs_witness :
  run (inclusiveScan 0 4 in_order (Ptr 0 0) (Ptr 1 0) 0 Z.add) [[]; []]
  = Returned ((), [[]; []]) ∧
  run (exclusiveScan 0 4 in_order (Ptr 0 0) (Ptr 1 0) 0 Z.add) [[]; []]
  = OutOfBounds.
Proof.
  destruct (exclusiveScan_zero_jobs Z.add 0 4 in_order
              (Ptr 0 0) (Ptr 1 0) [[]; []])
    as (Hincl & _ & Hexcl); [reflexivity|].
  split; [exact Hincl | exact Hexcl].
Defined.

(** ** Map and the pipelines *)

Section MapProof.
Context {T : Type} (sched : schedule).
Hypothesis sched_ok : schedule_ok sched.

(** [mapImpl], also in place ([dest = src]), under every schedule. *)
Lemma mapImpl_wp (m : mem T) d s n (w : T → T) P (g : Z → T) :
  1 ≤ P → 0 ≤ n →
  (∀ i, 0 ≤ i < n → get m (s +ₚ i) = Some (g i)) →
  room m d n →
  d = s ∨ blk d ≠ blk s →
  wp (mapImpl sched d s n w P) m
     (λ _ m', length m' = length m ∧
              (∀ i, 0 ≤ i < n → get m' (d +ₚ i) = Some (w (g i))) ∧
              ∀ q, ¬ inside d n q → get m' q = get m q)
     no_exit.
Proof.
  intros HP Hn Hsrc Hroom Halias. unfold mapImpl.
  apply wp_bind, wp_assert; [apply Z.leb_le; lia|]. cbv zeta.
  apply (wp_omp_for sched (λ done m',
    length m' = length m ∧
    (∀ j, j ∈ done → get m' (d +ₚ j) = Some (w (g j))) ∧
    (∀ q, (∀ j, j ∈ done → q ≠ d +ₚ j) → get m' q = get m q)));
    [done | | | ].
  { split_and!; [done | | done]. intros j Hj. by apply elem_of_nil in Hj. }
  { intros done i m1 Hi Hnew Hdone (Hlen1 & Hdone1 & Ho1).
    assert (Hfresh : ∀ j, j ∈ done → j ≠ i) by by intros j Hj ->.
    eapply wp_call1.
    { rewrite Ho1; [by apply Hsrc|]. intros j Hj. specialize (Hfresh j Hj).
      destruct Halias as [->|Hne]; ptr_neq. }
    { unfold valid. rewrite Ho1; [by apply Hroom|].
      intros j Hj. specialize (Hfresh j Hj). ptr_neq. }
    intros m2 (Hlen2 & Hst2 & Ho2). split_and!.
    - lia.
    - intros j [->|Hj]%elem_of_cons; [done|]. specialize (Hfresh j Hj).
      rewrite Ho2 by ptr_neq. by apply Hdone1.
    - intros q Hq. rewrite Ho2 by (apply Hq; left).
      apply Ho1. intros j Hj. apply Hq. by right. }
  intros done m1 Hall (Hlen1 & Hdone1 & Ho1). split_and!; [done | | ].
  - intros i Hi. apply Hdone1. by apply Hall.
  - intros q Hq. apply Ho1. intros j Hj ->. apply Hq.
    apply inside_shift. by apply Hall.
Qed.

Lemma stages_snoc (ws : list (T → T)) (w : T → T) x :
  stages (ws ++ [w]) x = w (stages ws x).
Proof. unfold stages. by rewrite foldl_snoc. Qed.

Lemma stages_take_S (ws : list (T → T)) (j : nat) (w : T → T) x :
  ws !! j = Some w → stages (take (S j) ws) x = w (stages (take j ws) x).
Proof. intros Hw. by rewrite (take_S_r _ _ _ Hw), stages_snoc. Qed.

Lemma assert_workers_wp (m : mem T) (ws : list (T → T)) (Q : () → mem T → Prop) E :
  Q () m →
  wp (for_ 0 (Z.of_nat (length ws)) (λ i, assert_worker ws i)) m Q E.
Proof.
  intros HQ. apply (wp_for (λ _ m', m' = m)); [lia | done | | by intros ? ->].
  intros j m' Hj ->. unfold assert_worker.
  destruct (lookup_lt_is_Some_2 ws (Z.to_nat j)) as [w Hw]; [lia|].
  apply wp_bind. apply wp_index with w; [lia | done | ].
  by apply wp_assert.
Qed.

(** The stage-major pipeline, also in place ([dest = src]). *)
Lemma mapPipeline_alias_wp (m : mem T) d s n (ws : list (T → T)) P
    (g : Z → T) :
  1 ≤ P → 0 ≤ n → 0 ≤ to_int n → ws ≠ [] →
  (∀ i, 0 ≤ i < n → get m (s +ₚ i) = Some (g i)) →
  room m d n →
  d = s ∨ blk d ≠ blk s →
  wp (mapPipeline P sched d s n ws (Z.of_nat (length ws))) m
     (λ _ m', length m' = length m ∧
              (∀ i, 0 ≤ i < n → get m' (d +ₚ i) = Some (stages ws (g i))) ∧
              ∀ q, ¬ inside d n q → get m' q = get m q)
     no_exit.
Proof.
  intros HP Hn Hint Hws Hsrc Hroom Halias. unfold mapPipeline.
  apply wp_bind, wp_assert; [by apply Z.leb_le|].
  apply wp_bind, assert_workers_wp. cbv zeta.
  assert (Hlen : (0 < length ws)%nat) by (destruct ws; [done | simpl; lia]).
  destruct (lookup_lt_is_Some_2 ws 0 Hlen) as [w0 Hw0].
  destruct (Z.eqb_spec (Z.of_nat (length ws)) 0) as [Hlen0|_]; [lia|].
  apply wp_bind. apply wp_index with w0; [lia | done | ].
  apply wp_bind.
  eapply wp_mono;
    [apply (mapImpl_wp m d s n w0 P g); [done | lia | done | done | done]
    | | done].
  intros _ m1 (Hlen1 & Hdone1 & Ho1). simpl.
  apply (wp_for (λ j m',
    length m' = length m ∧
    (∀ i, 0 ≤ i < n →
       get m' (d +ₚ i) = Some (stages (take (Z.to_nat j) ws) (g i))) ∧
    (∀ q, ¬ inside d n q → get m' q = get m q))).
  { lia. }
  { split_and!; [done | | done].
    intros i Hi. rewrite Hdone1 by done. f_equal.
    symmetry. by apply (stages_take_S ws 0). }
  { intros j m2 Hj (Hlen2 & Hdone2 & Ho2).
    destruct (lookup_lt_is_Some_2 ws (Z.to_nat j)) as [w Hw]; [lia|].
    apply wp_bind. apply wp_index with w; [lia | done | ].
    eapply wp_mono;
      [apply (mapImpl_wp m2 d d n w P
                (λ i, stages (take (Z.to_nat j) ws) (g i)));
       [done | lia | done | | by left]
      | | done].
    - intros i Hi. eexists. by apply Hdone2.
    - intros _ m3 (Hlen3 & Hdone3 & Ho3). simpl. split_and!.
      + lia.
      + intros i Hi. rewrite Hdone3 by done. f_equal.
        replace (Z.to_nat (j + 1)) with (S (Z.to_nat j)) by lia.
        symmetry. by apply stages_take_S.
      + intros q Hq. rewrite Ho3 by done. by apply Ho2. }
  intros m2 (Hlen2 & Hdone2 & Ho2). split_and!; [done | | done].
  intros i Hi. rewrite Hdone2 by done.
  by rewrite Nat2Z.id, firstn_all.
Qed.

Lemma mapPipeline_wp (m : mem T) d s n (ws : list (T → T)) P (g : Z → T) :
  1 ≤ P → 0 ≤ n → 0 ≤ to_int n → ws ≠ [] →
  (∀ i, 0 ≤ i < n → get m (s +ₚ i) = Some (g i)) →
  room m d n →
  blk d ≠ blk s →
  wp (mapPipeline P sched d s n ws (Z.of_nat (length ws))) m
     (λ _ m', length m' = length m ∧
              (∀ i, 0 ≤ i < n → get m' (d +ₚ i) = Some (stages ws (g i))) ∧
              ∀ q, ¬ inside d n q → get m' q = get m q)
     no_exit.
Proof. intros. apply mapPipeline_alias_wp; auto. Qed.

(** The item-major pipeline, also in place ([dest = src]). *)
Lemma itemBoundPipeline_alias_wp (m : mem T) d s n (ws : list (T → T)) P
    (g : Z → T) :
  0 ≤ n → 0 ≤ to_int n → ws ≠ [] →
  (∀ i, 0 ≤ i < n → get m (s +ₚ i) = Some (g i)) →
  room m d n →
  d = s ∨ blk d ≠ blk s →
  wp (itemBoundPipeline P sched d s n ws (Z.of_nat (length ws))) m
     (λ _ m', length m' = length m ∧
              (∀ i, 0 ≤ i < n → get m' (d +ₚ i) = Some (stages ws (g i))) ∧
              ∀ q, ¬ inside d n q → get m' q = get m q)
     no_exit.
Proof.
  intros Hn Hint Hws Hsrc Hroom Halias. unfold itemBoundPipeline.
  apply wp_bind, wp_assert; [by apply Z.leb_le|].
  apply wp_bind, assert_workers_wp. cbv zeta.
  assert (Hlen : (0 < length ws)%nat) by (destruct ws; [done | simpl; lia]).
  destruct (lookup_lt_is_Some_2 ws 0 Hlen) as [w0 Hw0].
  destruct (Z.eqb_spec (Z.of_nat (length ws)) 0) as [Hlen0|_]; [lia|].
  apply (wp_omp_for sched (λ done m',
    length m' = length m ∧
    (∀ j, j ∈ done → get m' (d +ₚ j) = Some (stages ws (g j))) ∧
    (∀ q, (∀ j, j ∈ done → q ≠ d +ₚ j) → get m' q = get m q)));
    [done | | | ].
  { split_and!; [done | | done]. intros j Hj. by apply elem_of_nil in Hj. }
  { intros done i m1 Hi Hnew Hdone (Hlen1 & Hdone1 & Ho1).
    assert (Hfresh : ∀ j, j ∈ done → j ≠ i) by by intros j Hj ->.
    apply wp_bind. apply wp_index with w0; [lia | done | ].
    eapply wp_bind, wp_call1.
    { rewrite Ho1; [by apply Hsrc|]. intros j Hj. specialize (Hfresh j Hj).
      destruct Halias as [->|Hne]; ptr_neq. }
    { unfold valid. rewrite Ho1; [by apply Hroom|].
      intros j Hj. specialize (Hfresh j Hj). ptr_neq. }
    intros m2 (Hlen2 & Hst2 & Ho2).
    apply (wp_for (λ j m',
      length m' = length m ∧
      get m' (d +ₚ i) = Some (stages (take (Z.to_nat j) ws) (g i)) ∧
      (∀ q, q ≠ d +ₚ i → get m' q = get m1 q))).
    { lia. }
    { split_and!; [lia | | done].
      rewrite Hst2. f_equal. symmetry. by apply (stages_take_S ws 0). }
    { intros j m3 Hj (Hlen3 & Hcur3 & Ho3).
      destruct (lookup_lt_is_Some_2 ws (Z.to_nat j)) as [w Hw]; [lia|].
      apply wp_bind. apply wp_index with w; [lia | done | ].
      eapply wp_call1; [exact Hcur3 | by eexists | ].
      intros m4 (Hlen4 & Hst4 & Ho4). split_and!.
      - lia.
      - rewrite Hst4. f_equal.
        replace (Z.to_nat (j + 1)) with (S (Z.to_nat j)) by lia.
        symmetry. by apply stages_take_S.
      - intros q Hq. rewrite Ho4 by done. by apply Ho3. }
    intros m3 (Hlen3 & Hcur3 & Ho3). split_and!.
    - done.
    - intros j [->|Hj]%elem_of_cons.
      + rewrite Hcur3. by rewrite Nat2Z.id, firstn_all.
      + specialize (Hfresh j Hj). rewrite Ho3 by ptr_neq. by apply Hdone1.
    - intros q Hq. rewrite Ho3 by (apply Hq; left).
      apply Ho1. intros j Hj. apply Hq. by right. }
  intros done m1 Hall (Hlen1 & Hdone1 & Ho1). split_and!; [done | | ].
  - intros i Hi. apply Hdone1. by apply Hall.
  - intros q Hq. apply Ho1. intros j Hj ->. apply Hq.
    apply inside_shift. by apply Hall.
Qed.

Lemma itemBoundPipeline_wp (m : mem T) d s n (ws : list (T → T)) P
    (g : Z → T) :
  0 ≤ n → 0 ≤ to_int n → ws ≠ [] →
  (∀ i, 0 ≤ i < n → get m (s +ₚ i) = Some (g i)) →
  room m d n →
  blk d ≠ blk s →
  wp (itemBoundPipeline P sched d s n ws (Z.of_nat (length ws))) m
     (λ _ m', length m' = length m ∧
              (∀ i, 0 ≤ i < n → get m' (d +ₚ i) = Some (stages ws (g i))) ∧
              ∀ q, ¬ inside d n q → get m' q = get m q)
     no_exit.
Proof. intros. apply itemBoundPipeline_alias_wp; auto. Qed.

End MapProof.

Lemma array_fmap {T} (zero : T) (m m' : mem T) p (h : T → T) (xs : list T) :
  (∀ i, 0 ≤ i < Z.of_nat (length xs) →
     get m' (p +ₚ i) = Some (h (contents zero xs i))) →
  array m' p (h <$> xs).
Proof.
  intros Hget i v Hv. rewrite list_lookup_fmap in Hv.
  destruct (xs !! i) as [x|] eqn:Hx; [|done]. simpl in Hv.
  rewrite Hget by (apply lookup_lt_Some in Hx; lia).
  unfold contents. by rewrite Nat2Z.id, Hx.
Qed.

Lemma array_frame {T} (m m' : mem T) d n s (xs : list T) :
  array m s xs → blk d ≠ blk s →
  (∀ q, ¬ inside d n q → get m' q = get m q) →
  array m' s xs.
Proof.
  intros Harr Hsep Hframe. apply (array_get m); [done|].
  intros i Hi. apply Hframe. intros [Hb _]. simpl in Hb. congruence.
Qed.

(** C6 (amended). For every source buffer of [n] items, every worker
    count and every schedule of the parallel loops, the stage-major
    pipeline and the item-major pipeline, run on a non-empty list of
    pure stages with [(int) n >= 0], and [farm], run on one stage with
    any [n], return and leave in [dest[i]] the stages applied in order
    to [src[i]], for every [i]; the source is unchanged.  ([zero] is any
    element of the element type.) *)
Theorem pipelines_apply_stages {T} (zero : T) (workers : Z)
    (sched : schedule) (m : mem T) (dest src : ptr) (n : Z) (xs : list T)
    (workerList : list (T → T)) :
  1 ≤ workers ≤ INT_MAX → schedule_ok sched →
  n = Z.of_nat (length xs) →
  array m src xs → room m dest n → blk dest ≠ blk src →
  (workerList ≠ [] → 0 ≤ to_int n →
     ∃ m', run (mapPipeline workers sched dest src n workerList
                  (Z.of_nat (length workerList))) m = Returned ((), m') ∧
           array m' dest (stages workerList <$> xs) ∧ array m' src xs) ∧
  (workerList ≠ [] → 0 ≤ to_int n →
     ∃ m', run (itemBoundPipeline workers sched dest src n workerList
                  (Z.of_nat (length workerList))) m = Returned ((), m') ∧
           array m' dest (stages workerList <$> xs) ∧ array m' src xs) ∧
  (∀ (worker : T → T) (nWorkers : Z),
     ∃ m', run (farm workers sched dest src n worker nWorkers) m
           = Returned ((), m') ∧
           array m' dest (stages [worker] <$> xs) ∧ array m' src xs).
Proof.
  intros HP Hsched -> Hsrc Hroom Hsep.
  assert (Hg : ∀ i, 0 ≤ i < Z.of_nat (length xs) →
                    get m (src +ₚ i) = Some (contents zero xs i)).
  { intros i Hi. by apply array_contents. }
  split_and!.
  - intros Hws Hn.
    destruct (wp_returned _ _ _
      (mapPipeline_wp sched Hsched m dest src (Z.of_nat (length xs))
         workerList workers (contents zero xs)
         ltac:(lia) ltac:(lia) Hn Hws Hg Hroom Hsep))
      as ([] & m' & Hrun & _ & Hget & Hframe).
    exists m'. split_and!; [done | by apply (array_fmap zero m) | ].
    by apply (array_frame m m' dest (Z.of_nat (length xs))).
  - intros Hws Hn.
    destruct (wp_returned _ _ _
      (itemBoundPipeline_wp sched Hsched m dest src (Z.of_nat (length xs))
         workerList workers (contents zero xs)
         ltac:(lia) Hn Hws Hg Hroom Hsep))
      as ([] & m' & Hrun & _ & Hget & Hframe).
    exists m'. split_and!; [done | by apply (array_fmap zero m) | ].
    by apply (array_frame m m' dest (Z.of_nat (length xs))).
  - intros worker nWorkers.
    destruct (wp_returned _ _ _
      (mapImpl_wp sched Hsched m dest src (Z.of_nat (length xs))
         worker workers (contents zero xs)
         ltac:(lia) ltac:(lia) Hg Hroom ltac:(by right)))
      as ([] & m' & Hrun & _ & Hget & Hframe).
    exists m'. split_and!; [done | by apply (array_fmap zero m) | ].
    by apply (array_frame m m' dest (Z.of_nat (length xs))).
Qed.

Lemma pipelines_apply_stages_witness :
  ∃ m', run (mapPipeline 4 last_first (Ptr 0 0) (Ptr 1 0) 3
               [Z.succ; Z.mul 2] 2)
          [[0; 0; 0]; [10; 20; 30]] = Returned ((), m') ∧
        array m' (Ptr 0 0) [22; 42; 62].
Proof.
  destruct (pipelines_apply_stages 0 4 last_first [[0; 0; 0]; [10; 20; 30]]
              (Ptr 0 0) (Ptr 1 0) 3 [10; 20; 30] [Z.succ; Z.mul 2])
    as (Hmap & _ & _).
  - unfold INT_MAX; lia.
  - exact last_first_ok.
  - reflexivity.
  - by apply array_block.
  - by apply (room_block _ _ [0; 0; 0]).
  - simpl; lia.
  - destruct Hmap as (m' & Hrun & Hdest & _);
      [done | vm_compute; discriminate | ].
    exists m'. split; [exact Hrun | exact Hdest].
Defined.

(** The two pipelines assert [(int) nJob >= 0]: a job count of [2^31]
    ends them there. *)
Lemma pipelines_assert_int_range {T} (workers : Z) (sched : schedule)
    (dest src : ptr) (n : Z) (workerList : list (T → T)) (nWorkers : Z)
    (m : mem T) :
  to_int n < 0 →
  run (mapPipeline workers sched dest src n workerList nWorkers) m
  = AssertFailed ∧
  run (itemBoundPipeline workers sched dest src n workerList nWorkers) m
  = AssertFailed.
Proof.
  intros Hn.
  unfold run, mapPipeline, itemBoundPipeline, mbind, M_bind, assert.
  destruct (Z.leb_spec 0 (to_int n)); [lia|done].
Qed.

(** C6 as stated fails on the empty stage list: applying no stage to
    item [1] gives [1], but both pipelines return at once and leave
    [dest[0]] at [0]. *)
Lemma pipeline_no_stage_counterexample :
  stages ([] : list (Z → Z)) 1 = 1 ∧
  run (mapPipeline 4 in_order (Ptr 0 0) (Ptr 1 0) 1 [] 0) [[0]; [1]]
  = Returned ((), [[0]; [1]]) ∧
  run (itemBoundPipeline 4 in_order (Ptr 0 0) (Ptr 1 0) 1 [] 0) [[0]; [1]]
  = Returned ((), [[0]; [1]]).
Proof. split_and!; reflexivity. Qed.

(** ** Pack *)

Lemma truthy_app (f1 f2 : list Z) : truthy (f1 ++ f2) = truthy f1 + truthy f2.
Proof. induction f1 as [|f f1 IH]; simpl; lia. Qed.

Lemma truthy_nonneg (filter : list Z) : 0 ≤ truthy filter.
Proof.
  induction filter as [|f filter IH]; simpl; [lia|].
  destruct (f =? 0); lia.
Qed.

Lemma truthy_all_zero (filter : list Z) :
  Forall (λ f, f = 0) filter → truthy filter = 0.
Proof. induction 1 as [|f filter -> _ IH]; simpl; lia. Qed.

Lemma kept_app {T} (xs1 xs2 : list T) (f1 f2 : list Z) :
  length xs1 = length f1 →
  kept (xs1 ++ xs2) (f1 ++ f2) = kept xs1 f1 ++ kept xs2 f2.
Proof.
  revert f1. induction xs1 as [|x xs1 IH]; intros [|f f1] Hlen;
    simpl in *; try done.
  rewrite IH by lia. by destruct (f =? 0).
Qed.

Lemma kept_length {T} (xs : list T) (filter : list Z) :
  length xs = length filter →
  Z.of_nat (length (kept xs filter)) = truthy filter.
Proof.
  revert filter. induction xs as [|x xs IH]; intros [|f filter] Hlen;
    simpl in *; try done.
  specialize (IH filter ltac:(lia)).
  destruct (f =? 0); simpl; lia.
Qed.

Lemma kept_all_nonzero {T} (xs : list T) (filter : list Z) :
  length xs = length filter →
  Forall (λ f, f ≠ 0) filter → kept xs filter = xs.
Proof.
  intros Hlen Hall. revert xs Hlen.
  induction Hall as [|f filter Hf _ IH]; intros [|x xs] Hlen;
    simpl in *; try done.
  destruct (Z.eqb_spec f 0); [done|]. f_equal. apply IH. lia.
Qed.

(** The kept elements are a subsequence of the source: their relative
    order is the source order. *)
Lemma kept_sublist {T} (xs : list T) (filter : list Z) :
  sublist (kept xs filter) xs.
Proof.
  revert filter. induction xs as [|x xs IH]; intros [|f filter]; simpl.
  - constructor.
  - constructor.
  - apply sublist_nil_l.
  - destruct (f =? 0); [apply sublist_cons | apply sublist_skip]; apply IH.
Qed.

Lemma array_snoc {T} (m m' : mem T) p (l : list T) (x : T) :
  array m p l → stored m (p +ₚ Z.of_nat (length l)) x m' →
  array m' p (l ++ [x]).
Proof.
  intros Harr (_ & Hst & Ho) i v Hv.
  destruct (decide (i = length l)) as [->|Hne].
  - rewrite lookup_app_r, Nat.sub_diag in Hv by lia. simpl in Hv.
    by inversion Hv; subst.
  - assert (i < length l)%nat.
    { apply lookup_lt_Some in Hv. rewrite length_app in Hv. simpl in Hv. lia. }
    rewrite lookup_app_l in Hv by done.
    rewrite Ho by ptr_neq. by apply Harr.
Qed.

Lemma truthy_le_length (filter : list Z) :
  truthy filter ≤ Z.of_nat (length filter).
Proof.
  induction filter as [|f filter IH]; simpl; [lia|].
  destruct (f =? 0); lia.
Qed.

Section PackProof.
Context {T : Type}.

(** [pack] into a separate buffer or in place ([dest = src]): the write
    position never passes the read position. *)
Lemma pack_alias_wp (m : mem T) d s n (xs : list T) (filter : list Z) :
  0 ≤ n ≤ INT_MAX → n = Z.of_nat (length xs) → length filter = length xs →
  array m s xs → room m d (truthy filter) → d = s ∨ blk d ≠ blk s →
  wp (pack d s n filter) m
     (λ pos m', pos = truthy filter ∧ length m' = length m ∧
                array m' d (kept xs filter) ∧
                ∀ q, ¬ inside d (truthy filter) q → get m' q = get m q)
     no_exit.
Proof.
  intros Hn -> Hlen Hsrc Hroom Halias. unfold pack.
  rewrite to_int_small by (unfold INT_MAX in *; lia).
  apply wp_bind, wp_assert; [apply Z.leb_le; lia|]. cbv zeta.
  apply (wp_for_acc (λ i pos m',
    pos = truthy (take (Z.to_nat i) filter) ∧ length m' = length m ∧
    array m' d (kept (take (Z.to_nat i) xs) (take (Z.to_nat i) filter)) ∧
    ∀ q, ¬ inside d pos q → get m' q = get m q)).
  { lia. }
  { split_and!; try done. }
  { intros i pos m1 Hi (-> & Hlen1 & Harr1 & Ho1).
    destruct (lookup_lt_is_Some_2 filter (Z.to_nat i)) as [f Hf]; [lia|].
    destruct (lookup_lt_is_Some_2 xs (Z.to_nat i)) as [x Hx]; [lia|].
    replace (Z.to_nat (i + 1)) with (S (Z.to_nat i)) by lia.
    rewrite (take_S_r _ _ _ Hf), (take_S_r _ _ _ Hx).
    rewrite truthy_app, kept_app by (rewrite !length_take; lia). simpl.
    pose proof (truthy_le_length (take (Z.to_nat i) filter)) as Hbehind.
    rewrite length_take in Hbehind.
    set (fi := take (Z.to_nat i) filter) in *.
    set (xi := take (Z.to_nat i) xs) in *.
    assert (Hpos : Z.of_nat (length (kept xi fi)) = truthy fi).
    { apply kept_length. subst xi fi. rewrite !length_take. lia. }
    apply wp_bind. apply wp_index with f; [lia | done | ].
    destruct (Z.eqb_spec f 0) as [->|Hf0].
    - apply wp_ret. rewrite app_nil_r, Z.add_0_r. done.
    - assert (Hle : truthy fi + 1 ≤ truthy filter).
      { rewrite <- (take_drop (Z.to_nat i) filter). fold fi.
        rewrite (drop_S _ _ _ Hf), truthy_app. simpl.
        pose proof (truthy_nonneg (drop (S (Z.to_nat i)) filter)).
        destruct (Z.eqb_spec f 0); lia. }
      pose proof (truthy_nonneg fi).
      eapply wp_bind, wp_memcpy.
      { rewrite Ho1.
        - replace i with (Z.of_nat (Z.to_nat i)) by lia. by apply Hsrc.
        - intros [Hb Ho]. simpl in Hb, Ho.
          destruct Halias as [->|Hne]; [lia | congruence]. }
      { unfold valid. rewrite Ho1 by (intros [_ Ho]; simpl in Ho; lia).
        apply Hroom. lia. }
      intros m2 Hst2. apply wp_ret. split_and!.
      + lia.
      + destruct Hst2 as (? & _ & _). lia.
      + apply (array_snoc m1); [done|]. by rewrite Hpos.
      + intros q Hq. destruct Hst2 as (_ & _ & Ho2). rewrite Ho2.
        * apply Ho1. intros [Hb Ho]. apply Hq. unfold inside. lia.
        * intros ->. apply Hq. apply inside_shift. lia. }
  intros pos m1 (-> & Hlen1 & Harr1 & Ho1).
  rewrite Nat2Z.id in *.
  rewrite (take_ge xs), (take_ge filter) in * by lia. done.
Qed.

Lemma pack_wp (m : mem T) d s n (xs : list T) (filter : list Z) :
  0 ≤ n ≤ INT_MAX → n = Z.of_nat (length xs) → length filter = length xs →
  array m s xs → room m d (truthy filter) → blk d ≠ blk s →
  wp (pack d s n filter) m
     (λ pos m', pos = truthy filter ∧ length m' = length m ∧
                array m' d (kept xs filter) ∧
                ∀ q, ¬ inside d (truthy filter) q → get m' q = get m q)
     no_exit.
Proof. intros ? ? ? ? ? Hsep. apply pack_alias_wp; auto. Qed.

End PackProof.

(** C7 (amended). For every [n] with [0 <= n <= INT_MAX], every source
    buffer of [n] elements and every filter of [n] entries, [pack]
    returns the number of entries that are not zero, and [dest] then
    starts with exactly the kept elements, in source order; an all-zero
    filter gives count [0], and a filter without zero makes
    [dest[0..n)] equal to [src[0..n)]. *)
Theorem pack_stable_compaction {T} (m : mem T) (dest src : ptr) (n : Z)
    (xs : list T) (filter : list Z) :
  0 ≤ n ≤ INT_MAX → n = Z.of_nat (length xs) → length filter = length xs →
  array m src xs → room m dest (truthy filter) → blk dest ≠ blk src →
  ∃ m', run (pack dest src n filter) m = Returned (truthy filter, m') ∧
        truthy filter = Z.of_nat (length (kept xs filter)) ∧
        array m' dest (kept xs filter) ∧
        sublist (kept xs filter) xs ∧
        array m' src xs ∧
        (∀ q, ¬ inside dest (truthy filter) q → get m' q = get m q) ∧
        (Forall (λ f, f = 0) filter → truthy filter = 0) ∧
        (Forall (λ f, f ≠ 0) filter → truthy filter = n ∧ array m' dest xs).
Proof.
  intros Hn Hxs Hlen Hsrc Hroom Hsep.
  destruct (wp_returned _ _ _
    (pack_wp m dest src n xs filter Hn Hxs Hlen Hsrc Hroom Hsep))
    as (pos & m' & Hrun & -> & _ & Hdest & Hframe).
  assert (Hcount : truthy filter = Z.of_nat (length (kept xs filter))).
  { symmetry. by apply kept_length. }
  exists m'. split_and!; try done.
  - apply kept_sublist.
  - by apply (array_frame m m' dest (truthy filter)).
  - apply truthy_all_zero.
  - intros Hall. rewrite kept_all_nonzero in Hcount, Hdest by done.
    split; [lia | done].
Qed.

Lemma pack_stable_compaction_witness :
  ∃ m', run (pack (Ptr 0 0) (Ptr 1 0) 5 [1; 0; 0; 7; -1])
          [[0; 0; 0; 0; 0]; [1; 2; 3; 4; 5]] = Returned (3, m') ∧
        array m' (Ptr 0 0) [1; 4; 5].
Proof.
  destruct (pack_stable_compaction [[0; 0; 0; 0; 0]; [1; 2; 3; 4; 5]]
              (Ptr 0 0) (Ptr 1 0) 5 [1; 2; 3; 4; 5] [1; 0; 0; 7; -1])
    as (m' & Hrun & _ & Hdest & _).
  - unfold INT_MAX; lia.
  - reflexivity.
  - reflexivity.
  - by apply array_block.
  - apply (room_block _ _ [0; 0; 0; 0; 0]); [done | simpl; lia].
  - simpl; lia.
  - exists m'. split; [exact Hrun | exact Hdest].
Defined.

(** *** Job counts beyond [INT_MAX] *)

Lemma two32_range : INT_MAX < two32 ≤ SIZE_MAX.
Proof. unfold INT_MAX, two32, SIZE_MAX. lia. Qed.

Lemma to_int_two32 : to_int two32 = 0.
Proof. reflexivity. Qed.

Lemma many_length x : Z.of_nat (length (many x)) = two32.
Proof.
  unfold many. rewrite length_replicate. apply Z2Nat.id.
  pose proof two32_range. unfold INT_MAX in *. lia.
Qed.

Lemma truthy_replicate_1 (k : nat) : truthy (replicate k 1) = Z.of_nat k.
Proof. induction k as [|k IH]; simpl; [done|]. rewrite IH. lia. Qed.

Lemma truthy_many_1 : truthy (many 1) = two32.
Proof.
  unfold many. rewrite truthy_replicate_1. apply Z2Nat.id.
  pose proof two32_range. unfold INT_MAX in *. lia.
Qed.

(** C7 as stated fails for [n = 2^32]: [(int) nJob] is [0], so the loop
    does not run and [pack] returns [0], although all [2^32] entries of
    the filter are truthy. *)
Lemma pack_int_truncation_counterexample :
  Z.of_nat (length (many 1)) = two32 ∧
  array [many 0; many 1] (Ptr 1 0) (many 1) ∧
  room [many 0; many 1] (Ptr 0 0) (truthy (many 1)) ∧
  truthy (many 1) = two32 ∧
  0 < two32 ∧
  run (pack (Ptr 0 0) (Ptr 1 0) two32 (many 1)) [many 0; many 1]
  = Returned (0, [many 0; many 1]).
Proof.
  split; [apply many_length|].
  split; [apply array_block; reflexivity|].
  split.
  { apply (room_block _ _ (many 0)); [reflexivity|].
    rewrite truthy_many_1, many_length. lia. }
  split; [apply truthy_many_1|].
  split; [pose proof two32_range; unfold INT_MAX in *; lia|].
  unfold pack. rewrite to_int_two32. reflexivity.
Qed.

(** ** Gather *)

Section GatherProof.
Context {T : Type} (sched : schedule).
Hypothesis sched_ok : schedule_ok sched.

(** With no negative entry, [gatherImpl] either copies every entry, all
    of them below [n], or exits with status 1 at an entry [>= n]. *)
Lemma gatherImpl_wp (m : mem T) d s n (xs : list T) (filter : list Z) nThreads :
  0 ≤ n ≤ INT_MAX → n = Z.of_nat (length xs) →
  array m s xs → room m d (Z.of_nat (length filter)) → blk d ≠ blk s →
  Forall (λ f, 0 ≤ f) filter →
  wp (gatherImpl sched d s n filter (Z.of_nat (length filter)) nThreads) m
     (λ _ m', Forall (λ f, f < n) filter ∧ length m' = length m ∧
              (∀ (i : nat) f, filter !! i = Some f →
                 get m' (d +ₚ Z.of_nat i) = xs !! Z.to_nat f) ∧
              ∀ q, ¬ inside d (Z.of_nat (length filter)) q →
                   get m' q = get m q)
     (λ status, status = 1 ∧ Exists (λ f, n ≤ f) filter).
Proof.
  intros Hn Hxs Hsrc Hroom Hsep Hpos. unfold gatherImpl.
  rewrite to_int_small by (unfold INT_MAX in *; lia).
  apply wp_bind, wp_assert; [apply Z.leb_le; lia|].
  apply wp_bind, wp_assert; [apply Z.leb_le; lia|]. cbv zeta.
  apply (wp_omp_for sched (λ done m',
    (∀ j f, j ∈ done → filter !! Z.to_nat j = Some f →
       f < n ∧ get m' (d +ₚ j) = xs !! Z.to_nat f) ∧
    length m' = length m ∧
    ∀ q, (∀ j, j ∈ done → q ≠ d +ₚ j) → get m' q = get m q));
    [done | | | ].
  { split_and!; [ | done | done]. intros j f Hj. by apply elem_of_nil in Hj. }
  { intros done i m1 Hi Hnew Hdone (Hdone1 & Hlen1 & Ho1).
    assert (Hfresh : ∀ j, j ∈ done → j ≠ i) by by intros j Hj ->.
    destruct (lookup_lt_is_Some_2 filter (Z.to_nat i)) as [f Hf]; [lia|].
    assert (Hf0 : 0 ≤ f).
    { by apply (Forall_lookup_1 _ _ _ _ Hpos Hf). }
    apply wp_bind. apply wp_index with f; [lia | done | ].
    destruct (Z.geb_spec f n) as [Hge|Hlt].
    - apply wp_exit. split; [done|]. apply list.Exists_exists.
      exists f. split; [|lia]. by eapply list_elem_of_lookup_2.
    - destruct (lookup_lt_is_Some_2 xs (Z.to_nat f)) as [x Hx]; [lia|].
      eapply wp_memcpy.
      { rewrite Ho1 by (intros j Hj; ptr_neq).
        replace f with (Z.of_nat (Z.to_nat f)) by lia. by apply Hsrc. }
      { unfold valid. rewrite Ho1; [by apply Hroom|].
        intros j Hj. specialize (Hfresh j Hj). ptr_neq. }
      intros m2 (Hlen2 & Hst2 & Ho2). split_and!.
      + intros j f' [->|Hj]%elem_of_cons Hf'.
        * replace f' with f by congruence. by rewrite Hst2, Hx.
        * specialize (Hfresh j Hj). rewrite Ho2 by ptr_neq.
          by apply Hdone1.
      + lia.
      + intros q Hq. rewrite Ho2 by (apply Hq; left).
        apply Ho1. intros j Hj. apply Hq. by right. }
  intros done m1 Hall (Hdone1 & Hlen1 & Ho1).
  assert (Hin : ∀ (j : nat) f, filter !! j = Some f →
                  f < n ∧ get m1 (d +ₚ Z.of_nat j) = xs !! Z.to_nat f).
  { intros j f Hf. apply Hdone1; [|by rewrite Nat2Z.id].
    apply Hall. apply lookup_lt_Some in Hf. lia. }
  split_and!; [ | done | | ].
  - apply Forall_lookup_2. intros j f Hf. by apply (Hin j f).
  - intros j f Hf. by apply (Hin j f).
  - intros q Hq. apply Ho1. intros j Hj ->. apply Hq.
    apply inside_shift. by apply Hall.
Qed.

(** Whatever the order, a negative entry that no entry [>= n] can hide
    reaches the load of [s[filter[i]]] before the start of the source
    buffer. *)
Lemma gather_loop_out_of_bounds (m : mem T) d s n (xs : list T)
    (filter : list Z) :
  off s = 0 → 0 ≤ n → n = Z.of_nat (length xs) →
  array m s xs → blk d ≠ blk s →
  Forall (λ f, f < n) filter →
  ∀ (order : list Z) (m' : mem T) (k : nat),
    (∀ i, i ∈ order → 0 ≤ i < Z.of_nat (length filter)) →
    (∀ q, ¬ inside d (Z.of_nat (length filter)) q → get m' q = get m q) →
    room m' d (Z.of_nat (length filter)) →
    (∃ i f, i ∈ order ∧ filter !! Z.to_nat i = Some f ∧ f < 0) →
    for_in order
      (λ i, f ← index filter i;
            if f >=? n then exit 1 else memcpy (d +ₚ i) (s +ₚ f)) (m', k)
    = OutOfBounds.
Proof.
  intros Hoff Hn Hxs Hsrc Hsep Hlt.
  induction order as [|i order IH]; intros m' k Hin Hframe Hroom Hneg.
  { destruct Hneg as (i & f & Hi & _). by apply elem_of_nil in Hi. }
  destruct (Hin i ltac:(left)) as [Hi0 Hi1].
  destruct (lookup_lt_is_Some_2 filter (Z.to_nat i)) as [f Hf]; [lia|].
  assert (Hfn : f < n) by by apply (Forall_lookup_1 _ _ _ _ Hlt Hf).
  simpl. unfold mbind at 1, M_bind at 1. unfold mbind at 1, M_bind at 1.
  unfold index at 1. destruct (Z.leb_spec 0 i); [|lia]. rewrite Hf.
  destruct (Z.geb_spec f n) as [|_]; [lia|].
  unfold memcpy, mbind at 1, M_bind at 1, load at 1. cbn [fst].
  destruct (Z.lt_ge_cases f 0) as [Hf0|Hf0].
  - unfold get at 1. simpl. rewrite Hoff.
    by destruct (Z.leb_spec 0 (0 + f)); [lia|].
  - destruct (lookup_lt_is_Some_2 xs (Z.to_nat f)) as [x Hx]; [lia|].
    assert (Hgx : get m' (s +ₚ f) = Some x).
    { rewrite Hframe by (intros [Hb _]; simpl in Hb; congruence).
      replace f with (Z.of_nat (Z.to_nat f)) by lia. by apply Hsrc. }
    rewrite Hgx.
    destruct (store_stored m' (d +ₚ i) x) as (m'' & -> & _ & Hst & Ho).
    { apply Hroom. lia. }
    apply IH.
    + intros j Hj. apply Hin. by right.
    + intros q Hq. rewrite Ho; [by apply Hframe|].
      intros ->. apply Hq. apply inside_shift. lia.
    + intros j Hj. unfold valid.
      destruct (decide (j = i)) as [->|Hne]; [by rewrite Hst|].
      rewrite Ho by ptr_neq. by apply Hroom.
    + destruct Hneg as (j & f' & [->|Hj]%elem_of_cons & Hf' & Hneg).
      * replace f' with f in Hneg by congruence. lia.
      * by exists j, f'.
Qed.

End GatherProof.

(** C5 (amended). For every source buffer of [n <= INT_MAX] elements,
    every index filter of [m] entries, none of them negative, and every
    schedule of the parallel loop: if every entry is below [n], [gather]
    returns with [dest[i] = src[filter[i]]] for every [i] in [[0, m)],
    the source unchanged; if some entry is [>= n], the call ends in
    [exit (1)] and no load or store leaves its buffer. *)
Theorem gather_checks_upper_bound {T} (workers : Z) (sched : schedule)
    (m : mem T) (dest src : ptr) (n : Z) (xs : list T) (filter : list Z) :
  schedule_ok sched →
  0 ≤ n ≤ INT_MAX → n = Z.of_nat (length xs) →
  array m src xs → room m dest (Z.of_nat (length filter)) →
  blk dest ≠ blk src →
  Forall (λ f, 0 ≤ f) filter →
  (Forall (λ f, f < n) filter →
     ∃ m', run (gather workers sched dest src n filter
                  (Z.of_nat (length filter))) m
           = Returned ((), m') ∧
           (∀ (i : nat) f, filter !! i = Some f →
              is_Some (xs !! Z.to_nat f) ∧
              get m' (dest +ₚ Z.of_nat i) = xs !! Z.to_nat f) ∧
           array m' src xs) ∧
  (Exists (λ f, n ≤ f) filter →
     run (gather workers sched dest src n filter (Z.of_nat (length filter))) m
     = Exited 1).
Proof.
  intros Hsched Hn Hxs Hsrc Hroom Hsep Hpos.
  pose proof (gatherImpl_wp sched Hsched m dest src n xs filter workers
                Hn Hxs Hsrc Hroom Hsep Hpos O) as Hwp.
  unfold gather, run.
  destruct (gatherImpl sched dest src n filter (Z.of_nat (length filter))
              workers (m, O))
    as [[[] [m' k']]|status| |]; try done; simpl in Hwp.
  - destruct Hwp as (Hall & _ & Hget & Hframe). split.
    + intros _. exists m'. split_and!; [done | | ].
      * intros i f Hf. split; [|by apply Hget].
        apply lookup_lt_is_Some_2.
        pose proof (Forall_lookup_1 _ _ _ _ Hall Hf).
        pose proof (Forall_lookup_1 _ _ _ _ Hpos Hf). simpl in *. lia.
      * by apply (array_frame m m' dest (Z.of_nat (length filter))).
    + intros Hex. apply list.Exists_exists in Hex as (f & Hin & Hf).
      rewrite list.Forall_forall in Hall. specialize (Hall f Hin). lia.
  - destruct Hwp as (-> & Hex). split; [|done].
    intros Hall. apply list.Exists_exists in Hex as (f & Hin & Hf).
    rewrite list.Forall_forall in Hall. specialize (Hall f Hin). lia.
Qed.

Lemma gather_checks_upper_bound_witness :
  (∃ m', run (gather 4 last_first (Ptr 0 0) (Ptr 1 0) 3 [2; 0; 1] 3)
           [[0; 0; 0]; [10; 20; 30]] = Returned ((), m') ∧
         get m' (Ptr 0 0 +ₚ 0) = Some 30) ∧
  run (gather 4 last_first (Ptr 0 0) (Ptr 1 0) 3 [2; 0; 5] 3)
    [[0; 0; 0]; [10; 20; 30]]
  = Exited 1.
Proof.
  split.
  - destruct (gather_checks_upper_bound 4 last_first
                [[0; 0; 0]; [10; 20; 30]]
                (Ptr 0 0) (Ptr 1 0) 3 [10; 20; 30] [2; 0; 1])
      as (Hok & _).
    + exact last_first_ok.
    + unfold INT_MAX; lia.
    + reflexivity.
    + by apply array_block.
    + by apply (room_block _ _ [0; 0; 0]).
    + simpl; lia.
    + repeat constructor; lia.
    + destruct Hok as (m' & Hrun & Hget & _); [repeat constructor; lia|].
      exists m'. split; [exact Hrun | by apply (Hget 0%nat 2)].
  - destruct (gather_checks_upper_bound 4 last_first
                [[0; 0; 0]; [10; 20; 30]]
                (Ptr 0 0) (Ptr 1 0) 3 [10; 20; 30] [2; 0; 5])
      as (_ & Hexit).
    + exact last_first_ok.
    + unfold INT_MAX; lia.
    + reflexivity.
    + by apply array_block.
    + by apply (room_block _ _ [0; 0; 0]).
    + simpl; lia.
    + repeat constructor; lia.
    + apply Hexit. do 2 apply Exists_cons_tl. apply Exists_cons_hd. lia.
Defined.

(** C5 as stated fails on a negative entry: every entry of [[-1]] is
    below [n = 3], yet the call neither returns nor exits, it loads
    outside the source; and in [[-1; 5]] an entry is [>= n], yet the
    call ends out of bounds when entry 0 is run first and in
    [exit (1)] only when entry 1 is run first. *)
Lemma gather_negative_entry_counterexample :
  Forall (λ f, f < 3) [-1] ∧
  run (gather 4 in_order (Ptr 0 0) (Ptr 1 0) 3 [-1] 1) [[0]; [10; 20; 30]]
  = OutOfBounds ∧
  Exists (λ f, 3 ≤ f) [-1; 5] ∧
  run (gather 4 in_order (Ptr 0 0) (Ptr 1 0) 3 [-1; 5] 2)
    [[0; 0]; [10; 20; 30]]
  = OutOfBounds ∧
  run (gather 4 last_first (Ptr 0 0) (Ptr 1 0) 3 [-1; 5] 2)
    [[0; 0]; [10; 20; 30]]
  = Exited 1.
Proof.
  split_and!; try reflexivity.
  - repeat constructor; lia.
  - apply Exists_cons_tl, Exists_cons_hd. lia.
Qed.

(** C10. [gather] rejects only the entries [>= n]: when the source
    buffer starts at [src], every filter entry is below [n] and one of
    them is negative, the call does not exit; under every schedule the
    run reaches the load of [src[filter[i]]] at an index outside
    [[0, n)] and ends out of bounds. *)
Theorem gather_negative_index_out_of_bounds {T} (workers : Z)
    (sched : schedule) (m : mem T) (dest src : ptr) (n : Z) (xs : list T)
    (filter : list Z) :
  schedule_ok sched →
  off src = 0 →
  0 ≤ n ≤ INT_MAX → n = Z.of_nat (length xs) →
  array m src xs → room m dest (Z.of_nat (length filter)) →
  blk dest ≠ blk src →
  Forall (λ f, f < n) filter →
  Exists (λ f, f < 0) filter →
  run (gather workers sched dest src n filter (Z.of_nat (length filter))) m
  = OutOfBounds.
Proof.
  intros Hsched Hoff Hn Hxs Hsrc Hroom Hsep Hlt Hneg.
  unfold run, gather, gatherImpl.
  rewrite to_int_small by (unfold INT_MAX in *; lia).
  unfold mbind at 1, M_bind at 1, assert at 1.
  destruct (Z.leb_spec 0 n); [|lia].
  unfold mbind at 1, M_bind at 1, assert at 1.
  destruct (Z.leb_spec 0 (Z.of_nat (length filter))); [|lia].
  cbv zeta. unfold omp_for. cbn [fst snd].
  rewrite (gather_loop_out_of_bounds m dest src n xs filter Hoff
             ltac:(lia) Hxs Hsrc Hsep Hlt); [done | | done | done | ].
  - intros i Hi. rewrite (Hsched O 0 _), elem_of_seqZ in Hi. lia.
  - apply list.Exists_exists in Hneg as (f & Hin & Hf).
    apply list_elem_of_lookup_1 in Hin as (i & Hi).
    exists (Z.of_nat i), f. split_and!; [ | by rewrite Nat2Z.id | done].
    rewrite (Hsched O 0 _), elem_of_seqZ.
    apply lookup_lt_Some in Hi. lia.
Qed.

Lemma gather_negative_index_out_of_bounds_witness :
  Exists (λ f, f < 0) [2; -1] ∧
  run (gather 4 last_first (Ptr 0 0) (Ptr 1 0) 3 [2; -1] 2)
    [[0; 0]; [10; 20; 30]]
  = OutOfBounds.
Proof.
  assert (Hneg : Exists (λ f, f < 0) [2; -1]).
  { apply Exists_cons_tl, Exists_cons_hd. lia. }
  split; [exact Hneg|].
  apply (gather_negative_index_out_of_bounds 4 last_first
           [[0; 0]; [10; 20; 30]] (Ptr 0 0) (Ptr 1 0) 3 [10; 20; 30] [2; -1]).
  - exact last_first_ok.
  - reflexivity.
  - unfold INT_MAX; lia.
  - reflexivity.
  - by apply array_block.
  - by apply (room_block _ _ [0; 0]).
  - simpl; lia.
  - repeat constructor; lia.
  - exact Hneg.
Defined.

(** ** Scatter *)

Lemma identity_filter_lookup n i :
  0 ≤ i < n → identity_filter n !! Z.to_nat i = Some i.
Proof.
  intros Hi. unfold identity_filter.
  rewrite lookup_seqZ_lt by lia. f_equal. lia.
Qed.

Lemma scatter_identity_wp {T} (sched : schedule) (m : mem T) d s n
    (xs : list T) :
  schedule_ok sched →
  0 ≤ n ≤ INT_MAX → n = Z.of_nat (length xs) →
  array m s xs → room m d n → blk d ≠ blk s →
  wp (scatter sched d s n (identity_filter n)) m
     (λ _ m', length m' = length m ∧ array m' d xs ∧
              ∀ q, ¬ inside d n q → get m' q = get m q)
     no_exit.
Proof.
  intros Hsched Hn Hxs Hsrc Hroom Hsep. unfold scatter.
  rewrite to_int_small by (unfold INT_MAX in *; lia).
  apply wp_bind, wp_assert; [apply Z.leb_le; lia|]. cbv zeta.
  apply (wp_omp_for sched (λ done m',
    length m' = length m ∧
    (∀ j x, j ∈ done → xs !! Z.to_nat j = Some x →
       get m' (d +ₚ j) = Some x) ∧
    ∀ q, (∀ j, j ∈ done → q ≠ d +ₚ j) → get m' q = get m q));
    [done | | | ].
  { split_and!; [done | | done]. intros j x Hj. by apply elem_of_nil in Hj. }
  { intros done i m1 Hi Hnew Hdone (Hlen1 & Hdone1 & Ho1).
    assert (Hfresh : ∀ j, j ∈ done → j ≠ i) by by intros j Hj ->.
    apply wp_bind.
    apply wp_index with i; [lia | by apply identity_filter_lookup | ].
    destruct (lookup_lt_is_Some_2 xs (Z.to_nat i)) as [x Hx]; [lia|].
    eapply wp_memcpy.
    { rewrite Ho1 by (intros j Hj; ptr_neq).
      replace i with (Z.of_nat (Z.to_nat i)) by lia. by apply Hsrc. }
    { unfold valid. rewrite Ho1; [by apply Hroom|].
      intros j Hj. specialize (Hfresh j Hj). ptr_neq. }
    intros m2 (Hlen2 & Hst2 & Ho2). split_and!.
    - lia.
    - intros j y [->|Hj]%elem_of_cons Hy.
      + by replace y with x by congruence.
      + specialize (Hfresh j Hj). rewrite Ho2 by ptr_neq. by apply Hdone1.
    - intros q Hq. rewrite Ho2 by (apply Hq; left).
      apply Ho1. intros j Hj. apply Hq. by right. }
  intros done m1 Hall (Hlen1 & Hdone1 & Ho1). split_and!; [done | | ].
  - intros j x Hx. apply Hdone1; [|by rewrite Nat2Z.id].
    apply Hall. apply lookup_lt_Some in Hx. lia.
  - intros q Hq. apply Ho1. intros j Hj ->. apply Hq.
    apply inside_shift. by apply Hall.
Qed.

(** C8 (amended). For every [n] with [0 <= n <= INT_MAX], the identity
    index filter and every schedule of the parallel loop, [scatter]
    returns and makes [dest[0..n)] equal to [src[0..n)]; the source and
    the memory outside [dest[0..n)] are unchanged. *)
Theorem scatter_identity {T} (sched : schedule) (m : mem T) (dest src : ptr)
    (n : Z) (xs : list T) :
  schedule_ok sched →
  0 ≤ n ≤ INT_MAX → n = Z.of_nat (length xs) →
  array m src xs → room m dest n → blk dest ≠ blk src →
  ∃ m', run (scatter sched dest src n (identity_filter n)) m
        = Returned ((), m') ∧
        array m' dest xs ∧ array m' src xs ∧
        ∀ q, ¬ inside dest n q → get m' q = get m q.
Proof.
  intros Hsched Hn Hxs Hsrc Hroom Hsep.
  destruct (wp_returned _ _ _
    (scatter_identity_wp sched m dest src n xs Hsched Hn Hxs Hsrc Hroom Hsep))
    as ([] & m' & Hrun & _ & Hdest & Hframe).
  exists m'. split_and!; try done.
  by apply (array_frame m m' dest n).
Qed.

Lemma scatter_identity_witness :
  ∃ m', run (scatter last_first (Ptr 0 0) (Ptr 1 0) 3 (identity_filter 3))
          [[0; 0; 0]; [10; 20; 30]] = Returned ((), m') ∧
        array m' (Ptr 0 0) [10; 20; 30].
Proof.
  destruct (scatter_identity last_first [[0; 0; 0]; [10; 20; 30]]
              (Ptr 0 0) (Ptr 1 0) 3 [10; 20; 30])
    as (m' & Hrun & Hdest & _).
  - exact last_first_ok.
  - unfold INT_MAX; lia.
  - reflexivity.
  - by apply array_block.
  - by apply (room_block _ _ [0; 0; 0]).
  - simpl; lia.
  - exists m'. split; [exact Hrun | exact Hdest].
Defined.

(** *** A job count of [2^31] *)

Lemma to_int_two31 : to_int two31 = - two31.
Proof. reflexivity. Qed.

Lemma many31_length x : Z.of_nat (length (many31 x)) = two31.
Proof.
  unfold many31. rewrite length_replicate. apply Z2Nat.id.
  unfold two31. lia.
Qed.

Lemma many31_head x : many31 x !! 0%nat = Some x.
Proof. unfold many31. apply lookup_replicate_2. unfold two31. lia. Qed.

Lemma identity_filter_range n : Forall (λ f, 0 ≤ f < n) (identity_filter n).
Proof.
  apply list.Forall_forall. intros f Hf. unfold identity_filter in Hf.
  apply elem_of_seqZ in Hf. lia.
Qed.

Lemma identity_filter_length n :
  0 ≤ n → Z.of_nat (length (identity_filter n)) = n.
Proof.
  intros Hn. unfold identity_filter. rewrite length_seqZ. lia.
Qed.

(** Every entry of the identity filter of [2^31] entries is an [int]. *)
Lemma identity_filter_two31_int :
  Forall (λ f, - 2 ^ 31 ≤ f ≤ INT_MAX) (identity_filter two31).
Proof.
  eapply list.Forall_impl; [apply identity_filter_range|].
  intros f Hf. simpl in Hf. unfold two31, INT_MAX in *. lia.
Qed.

(** C8 as stated fails for [n = 2^31]: the entries [0 .. 2^31 - 1] of
    the identity filter all fit an [int], but [(int) nJob] is [-2^31]:
    the call ends in the failed [assert ((int) nJob >= 0)], and
    [dest[0]] keeps its [0] while [src[0]] is [1]. *)
Lemma scatter_int_assert_counterexample :
  0 ≤ two31 ≤ SIZE_MAX ∧
  Z.of_nat (length (identity_filter two31)) = two31 ∧
  Forall (λ f, - 2 ^ 31 ≤ f ≤ INT_MAX) (identity_filter two31) ∧
  Z.of_nat (length (many31 1)) = two31 ∧
  array [many31 0; many31 1] (Ptr 1 0) (many31 1) ∧
  room [many31 0; many31 1] (Ptr 0 0) two31 ∧
  run (scatter in_order (Ptr 0 0) (Ptr 1 0) two31 (identity_filter two31))
    [many31 0; many31 1]
  = AssertFailed ∧
  get [many31 0; many31 1] (Ptr 0 0) = Some 0 ∧
  get [many31 0; many31 1] (Ptr 1 0) = Some 1.
Proof.
  split; [unfold two31, SIZE_MAX; lia|].
  split; [apply identity_filter_length; unfold two31; lia|].
  split; [apply identity_filter_two31_int|].
  split; [apply many31_length|].
  split; [apply array_block; reflexivity|].
  split.
  { apply (room_block _ _ (many31 0)); [reflexivity|].
    rewrite many31_length. lia. }
  split.
  { unfold run, scatter. rewrite to_int_two31. reflexivity. }
  split; apply many31_head.
Qed.

(** * Aliasing, composition and edge cases *)

(** ** Reduce with any operator *)

Lemma seg_contents_range {T} (zero : T) (xs : list T) a l :
  0 ≤ a → 0 ≤ l → a + l ≤ Z.of_nat (length xs) →
  seg (contents zero xs) a l = take (Z.to_nat l) (drop (Z.to_nat a) xs).
Proof.
  intros Ha Hl Hal. apply list_eq. intros i. unfold seg.
  rewrite list_lookup_fmap, lookup_take, lookup_drop.
  destruct (decide (i < Z.to_nat l)%nat) as [Hlt|Hge].
  - rewrite lookup_seqZ_lt by lia. simpl. unfold contents.
    replace (Z.to_nat (a + Z.of_nat i)) with (Z.to_nat a + i)%nat by lia.
    destruct (lookup_lt_is_Some_2 xs (Z.to_nat a + i)) as [x Hx]; [lia|].
    by rewrite Hx.
  - by rewrite lookup_seqZ_ge by lia.
Qed.

Lemma two_phase_fold_tiles {T} (op : T → T → T) (zero : T) P (xs : list T) :
  1 ≤ P ≤ INT_MAX → Z.of_nat (length xs) ≤ SIZE_MAX →
  two_phase_fold op zero P xs
  = foldl op zero
      ((λ t, foldl op zero
               (seg (contents zero xs)
                    (tile_offset (Z.of_nat (length xs)) P t)
                    (tileLength (Z.of_nat (length xs)) P t)))
       <$> seqZ 0 (Z.min (Z.of_nat (length xs)) P)).
Proof.
  intros HP Hn. unfold two_phase_fold.
  set (n := Z.of_nat (length xs)) in *.
  assert (HN : 0 ≤ n ≤ SIZE_MAX) by lia.
  rewrite nTiles_eq by done. f_equal.
  apply list_fmap_ext. intros i t Ht.
  apply lookup_seqZ in Ht as [-> Hi]. rewrite Z.add_0_l in *.
  assert (HtT : 0 ≤ Z.of_nat i < Z.min n P) by lia.
  pose proof (tileLength_pos n P HN HP _ HtT) as Hpos.
  pose proof (tile_offset_step n P HN HP _ HtT) as Hstep.
  pose proof (tile_offset_bound n P HN HP (Z.of_nat i) ltac:(lia)) as Hb0.
  pose proof (tile_offset_bound n P HN HP (Z.of_nat i + 1) ltac:(lia)) as Hb1.
  unfold tile. fold n. rewrite tileStart_eq by done.
  by rewrite seg_contents_range by lia.
Qed.

(** [reduce] with any binary operator, associative or not: for every
    worker count and every schedule of the parallel loop the call returns
    and leaves in [dest] the two-phase fold of the source, which depends
    on the worker count and not on the schedule.  Nothing else of the
    caller's memory changes and the buffers of the call are freed. *)
Theorem reduce_two_phase_fold {T} (op : T → T → T) (zero : T) (workers : Z)
    (sched : schedule) (m : mem T) (dest src : ptr) (n : Z) (xs : list T) :
  1 ≤ workers ≤ INT_MAX → schedule_ok sched →
  n = Z.of_nat (length xs) → n ≤ SIZE_MAX →
  valid m dest → array m src xs → blk dest ≠ blk src →
  ∃ m', run (reduce zero workers sched dest src n op) m
        = Returned ((), m') ∧
        get m' dest = Some (two_phase_fold op zero workers xs) ∧
        (∀ q, (blk q < length m)%nat → q ≠ dest → get m' q = get m q) ∧
        (∀ q, (length m ≤ blk q)%nat → get m' q = None).
Proof.
  intros HP Hsched -> Hn Hdest Hsrc Hsep.
  destruct (wp_returned _ _ _
    (reduceImpl_tiles_wp op zero sched Hsched m dest src
       (Z.of_nat (length xs)) workers (contents zero xs)
       HP ltac:(lia) Hdest
       ltac:(by intros i Hi _; apply array_contents)
       ltac:(intros i Hi Heq; exfalso; revert Heq; ptr_neq)))
    as ([] & m' & Hrun & _ & Hget & Hframe & Hfreed).
  exists m'. split_and!; [done | | done | done].
  by rewrite two_phase_fold_tiles.
Qed.

Lemma reduce_two_phase_fold_witness :
  ∃ m', run (reduce 0 2 last_first (Ptr 0 0) (Ptr 1 0) 5 Z.sub)
          [[9]; [1; 2; 3; 4; 5]]
        = Returned ((), m') ∧
        get m' (Ptr 0 0) = Some (0 - (0 - 1 - 2 - 3) - (0 - 4 - 5)).
Proof.
  destruct (reduce_two_phase_fold Z.sub 0 2 last_first [[9]; [1; 2; 3; 4; 5]]
              (Ptr 0 0) (Ptr 1 0) 5 [1; 2; 3; 4; 5])
    as (m' & Hrun & Hget & _).
  - unfold INT_MAX; lia.
  - exact last_first_ok.
  - reflexivity.
  - unfold SIZE_MAX; lia.
  - by eexists.
  - by apply array_block.
  - simpl; lia.
  - exists m'. split; [exact Hrun | exact Hget].
Defined.

(** [reduce] whose destination is element [j] of its own source: the
    element is zeroed before the source is read, so the result is the
    two-phase fold of the source with element [j] replaced by zero, and
    it overwrites [src[j]]; the other elements keep their values. *)
Theorem reduce_into_source {T} (op : T → T → T) (zero : T) (workers : Z)
    (sched : schedule) (m : mem T) (src : ptr) (n j : Z) (xs : list T) :
  1 ≤ workers ≤ INT_MAX → schedule_ok sched →
  n = Z.of_nat (length xs) → n ≤ SIZE_MAX →
  array m src xs → 0 ≤ j < n →
  ∃ m', run (reduce zero workers sched (src +ₚ j) src n op) m
        = Returned ((), m') ∧
        get m' (src +ₚ j)
        = Some (two_phase_fold op zero workers (<[Z.to_nat j := zero]> xs)) ∧
        (∀ i, 0 ≤ i < n → i ≠ j → get m' (src +ₚ i) = get m (src +ₚ i)) ∧
        (∀ q, (length m ≤ blk q)%nat → get m' q = None).
Proof.
  intros HP Hsched -> Hn Hsrc Hj.
  assert (Hvalid : valid m (src +ₚ j)).
  { exists (contents zero xs j). by apply array_contents. }
  destruct (wp_returned _ _ _
    (reduceImpl_tiles_wp op zero sched Hsched m (src +ₚ j) src
       (Z.of_nat (length xs)) workers
       (contents zero (<[Z.to_nat j := zero]> xs))
       HP ltac:(lia) Hvalid
       ltac:(intros i Hi Hne; rewrite (array_contents zero _ _ xs) by done;
             unfold contents;
             rewrite list_lookup_insert_ne; [done|];
             intros Heq; apply Hne; f_equal; lia)
       ltac:(intros i Hi Heq; apply (f_equal off) in Heq; simpl in Heq;
             replace i with j by lia; unfold contents;
             by rewrite list_lookup_insert_eq by lia)))
    as ([] & m' & Hrun & _ & Hget & Hframe & Hfreed).
  exists m'. split_and!; [done | | | done].
  - rewrite two_phase_fold_tiles by (done || rewrite length_insert; lia).
    by rewrite length_insert.
  - intros i Hi Hne. apply Hframe; [|ptr_neq].
    by apply (get_valid_blk m (src +ₚ j)).
Qed.

Lemma reduce_into_source_witness :
  ∃ m', run (reduce 0 2 last_first (Ptr 0 0) (Ptr 0 0) 4 Z.add)
          [[1; 2; 3; 4]]
        = Returned ((), m') ∧
        get m' (Ptr 0 0) = Some 9.
Proof.
  destruct (reduce_into_source Z.add 0 2 last_first [[1; 2; 3; 4]]
              (Ptr 0 0) 4 0 [1; 2; 3; 4])
    as (m' & Hrun & Hget & _).
  - unfold INT_MAX; lia.
  - exact last_first_ok.
  - reflexivity.
  - unfold SIZE_MAX; lia.
  - by apply array_block.
  - lia.
  - exists m'. split; [exact Hrun | exact Hget].
Defined.

(** ** Map *)

Lemma omp_for_empty {T} (sched : schedule) lo hi (body : Z → M T ())
    (σ : state T) :
  schedule_ok sched → hi ≤ lo →
  omp_for sched lo hi body σ = Returned ((), (σ.1, S σ.2)).
Proof.
  intros Hok Hle. unfold omp_for. specialize (Hok σ.2 lo hi).
  rewrite seqZ_nil in Hok by lia. apply Permutation_nil_r in Hok.
  by rewrite Hok.
Qed.

(** [map] applies the worker to every element, for every thread count
    and every schedule of the parallel loop, into a separate buffer or in
    place ([dest = src]); nothing outside [dest[0..n)] changes. *)
Theorem map_elementwise {T} (workers : Z) (sched : schedule) (m : mem T)
    (dest src : ptr) (n : Z) (xs : list T) (worker : T → T) :
  1 ≤ workers → schedule_ok sched →
  n = Z.of_nat (length xs) →
  array m src xs → room m dest n → dest = src ∨ blk dest ≠ blk src →
  ∃ m', run (map workers sched dest src n worker) m = Returned ((), m') ∧
        array m' dest (worker <$> xs) ∧
        (blk dest ≠ blk src → array m' src xs) ∧
        ∀ q, ¬ inside dest n q → get m' q = get m q.
Proof.
  intros HP Hsched -> Hsrc Hroom Halias.
  destruct xs as [|x0 xs'].
  - exists m. unfold run, map, mapImpl, mbind, M_bind, assert.
    destruct (Z.leb_spec 1 workers); [|lia].
    rewrite omp_for_empty by (done || simpl; lia).
    split_and!; try done.
  - set (xs := x0 :: xs') in *.
    destruct (wp_returned _ _ _
      (mapImpl_wp sched Hsched m dest src (Z.of_nat (length xs))
         worker workers (contents x0 xs) HP ltac:(lia)
         ltac:(by intros i Hi; apply array_contents) Hroom Halias))
      as ([] & m' & Hrun & _ & Hget & Hframe).
    exists m'. split_and!; [done | by apply (array_fmap x0 m) | | done].
    intros Hsep. by apply (array_frame m m' dest (Z.of_nat (length xs))).
Qed.

Lemma map_elementwise_witness :
  ∃ m', run (map 4 last_first (Ptr 0 0) (Ptr 0 0) 3 (Z.mul 2)) [[1; 2; 3]]
        = Returned ((), m') ∧
        array m' (Ptr 0 0) [2; 4; 6].
Proof.
  destruct (map_elementwise 4 last_first [[1; 2; 3]] (Ptr 0 0) (Ptr 0 0) 3
              [1; 2; 3] (Z.mul 2))
    as (m' & Hrun & Hdest & _).
  - lia.
  - exact last_first_ok.
  - reflexivity.
  - by apply array_block.
  - by apply (room_block _ _ [1; 2; 3]).
  - by left.
  - exists m'. split; [exact Hrun | exact Hdest].
Defined.

(** ** Scatter with any index filter *)

Lemma stored_valid {T} (m m' : mem T) p v q :
  stored m p v m' → valid m q → valid m' q.
Proof.
  intros (_ & Hst & Ho) Hq.
  destruct (decide (q = p)) as [->|Hne]; [by eexists|].
  unfold valid. by rewrite Ho.
Qed.

Section ScatterProof.
Context {T : Type} (sched : schedule).
Hypothesis sched_ok : schedule_ok sched.

(** Every entry is written to: the cell that entry [i] designates ends
    with the element of an entry that designates the same cell, and the
    cells that no entry designates are unchanged. *)
Lemma scatter_wp (m : mem T) d s n (xs : list T) (filter : list Z) :
  0 ≤ n ≤ INT_MAX → n = Z.of_nat (length xs) → length filter = length xs →
  array m s xs → blk d ≠ blk s →
  Forall (λ f, valid m (d +ₚ f)) filter →
  wp (scatter sched d s n filter) m
     (λ _ m', length m' = length m ∧
              (∀ (i : nat) f, filter !! i = Some f →
                 ∃ i' : nat, filter !! i' = Some f ∧
                             get m' (d +ₚ f) = xs !! i') ∧
              ∀ q, (∀ f, f ∈ filter → q ≠ d +ₚ f) → get m' q = get m q)
     no_exit.
Proof.
  intros Hn -> Hlen Hsrc Hsep Hval. unfold scatter.
  rewrite to_int_small by (unfold INT_MAX in *; lia).
  apply wp_bind, wp_assert; [apply Z.leb_le; lia|]. cbv zeta.
  apply (wp_omp_for sched (λ done m',
    length m' = length m ∧
    (∀ q, valid m q → valid m' q) ∧
    (∀ j f, j ∈ done → filter !! Z.to_nat j = Some f →
       ∃ j', j' ∈ done ∧ filter !! Z.to_nat j' = Some f ∧
             get m' (d +ₚ f) = xs !! Z.to_nat j') ∧
    ∀ q, (∀ j f, j ∈ done → filter !! Z.to_nat j = Some f → q ≠ d +ₚ f) →
         get m' q = get m q));
    [done | | | ].
  { split_and!; [done | done | | done].
    intros j f Hj. by apply elem_of_nil in Hj. }
  { intros done i m1 Hi Hnew Hdone (Hlen1 & Hval1 & Hdone1 & Ho1).
    destruct (lookup_lt_is_Some_2 filter (Z.to_nat i)) as [f Hf]; [lia|].
    destruct (lookup_lt_is_Some_2 xs (Z.to_nat i)) as [x Hx]; [lia|].
    apply wp_bind. apply wp_index with f; [lia | done | ].
    eapply wp_memcpy.
    { rewrite Ho1 by (intros j f' _ _; ptr_neq).
      replace i with (Z.of_nat (Z.to_nat i)) by lia. by apply Hsrc. }
    { apply Hval1. by apply (Forall_lookup_1 _ _ _ _ Hval Hf). }
    intros m2 Hst2. pose proof Hst2 as (Hlen2 & Hget2 & Ho2). split_and!.
    - lia.
    - intros q Hq. apply (stored_valid m1 m2 _ _ q Hst2). by apply Hval1.
    - intros j f' Hj Hf'. destruct (decide (f' = f)) as [->|Hne].
      + exists i. split_and!; [left | done | by rewrite Hget2, Hx].
      + apply elem_of_cons in Hj as [->|Hj]; [congruence|].
        destruct (Hdone1 j f' Hj Hf') as (j' & Hj' & Hfj' & Hg).
        exists j'. split_and!; [by right | done | ].
        by rewrite Ho2 by ptr_neq.
    - intros q Hq. rewrite Ho2 by (apply (Hq i f); [left | done]).
      apply Ho1. intros j f' Hj Hf'. apply (Hq j f'); [by right | done]. }
  intros done m1 Hall (Hlen1 & _ & Hdone1 & Ho1). split_and!; [done | | ].
  - intros i f Hf.
    destruct (Hdone1 (Z.of_nat i) f) as (j' & Hj' & Hfj' & Hg).
    + apply Hall. apply lookup_lt_Some in Hf. lia.
    + by rewrite Nat2Z.id.
    + by exists (Z.to_nat j').
  - intros q Hq. apply Ho1. intros j f _ Hf. apply Hq.
    by eapply list_elem_of_lookup_2.
Qed.

(** The loop of [scatter] has no check: once an entry designates a cell
    outside every buffer, no order of the iterations avoids the store
    to it. *)
Lemma scatter_loop_out_of_bounds (d s : ptr) (filter : list Z) (i f : Z) :
  0 ≤ i → filter !! Z.to_nat i = Some f →
  ∀ (order : list Z) (m' : mem T) (k : nat),
    i ∈ order → ¬ valid m' (d +ₚ f) →
    for_in order
      (λ i, f ← index filter i; memcpy (d +ₚ f) (s +ₚ i)) (m', k)
    = OutOfBounds.
Proof.
  intros Hi Hf. induction order as [|j order IH]; intros m' k Hin Hbad.
  { by apply elem_of_nil in Hin. }
  simpl. unfold mbind at 1, M_bind at 1. unfold mbind at 1, M_bind at 1.
  unfold index at 1. destruct (0 <=? j); [|done].
  destruct (filter !! Z.to_nat j) as [f'|] eqn:Hf'; [|done].
  unfold memcpy, mbind at 1, M_bind at 1, load at 1. cbn [fst].
  destruct (get m' (s +ₚ j)) as [x|] eqn:Hx; [|done].
  destruct (get m' (d +ₚ f')) as [y|] eqn:Hy.
  - destruct (store_stored m' (d +ₚ f') x) as (m'' & -> & _ & Hst & Ho).
    { by exists y. }
    assert (Hne : d +ₚ f ≠ d +ₚ f').
    { intros Heq. apply Hbad. rewrite Heq. by exists y. }
    apply IH.
    + apply elem_of_cons in Hin as [->|Hin]; [|done].
      destruct Hne. congruence.
    + unfold valid. by rewrite Ho.
  - unfold store. cbn [fst]. by rewrite Hy.
Qed.

End ScatterProof.

(** [scatter] with pairwise distinct indices inside the destination
    buffer: for every schedule of the parallel loop the call returns
    with [dest[filter[i]] = src[i]] for every [i]; the cells that no
    index designates, the source and the rest of the memory are
    unchanged. *)
Theorem scatter_distinct_indices {T} (sched : schedule) (m : mem T)
    (dest src : ptr) (n r : Z) (xs : list T) (filter : list Z) :
  schedule_ok sched →
  0 ≤ n ≤ INT_MAX → n = Z.of_nat (length xs) → length filter = length xs →
  array m src xs → room m dest r → blk dest ≠ blk src →
  Forall (λ f, 0 ≤ f < r) filter → NoDup filter →
  ∃ m', run (scatter sched dest src n filter) m = Returned ((), m') ∧
        (∀ (i : nat) f, filter !! i = Some f →
           is_Some (xs !! i) ∧ get m' (dest +ₚ f) = xs !! i) ∧
        (∀ j, j ∉ filter → get m' (dest +ₚ j) = get m (dest +ₚ j)) ∧
        array m' src xs ∧
        ∀ q, ¬ inside dest r q → get m' q = get m q.
Proof.
  intros Hsched Hn Hxs Hlen Hsrc Hroom Hsep Hin Hnd.
  assert (Hval : Forall (λ f, valid m (dest +ₚ f)) filter).
  { eapply list.Forall_impl; [exact Hin|]. intros f Hf. by apply Hroom. }
  destruct (wp_returned _ _ _
    (scatter_wp sched Hsched m dest src n xs filter
       Hn Hxs Hlen Hsrc Hsep Hval))
    as ([] & m' & Hrun & _ & Hhit & Hframe).
  exists m'. split_and!; [done | | | | ].
  - intros i f Hf. split.
    { apply lookup_lt_is_Some_2. apply lookup_lt_Some in Hf. lia. }
    destruct (Hhit i f Hf) as (i' & Hf' & Hget).
    by rewrite (NoDup_lookup filter i i' f).
  - intros j Hj. apply Hframe. intros f Hf Heq.
    apply (f_equal off) in Heq. simpl in Heq.
    by replace j with f in Hj by lia.
  - apply (array_get m); [done|]. intros i Hi. apply Hframe.
    intros f Hf. ptr_neq.
  - intros q Hq. apply Hframe. intros f Hf ->. apply Hq.
    apply inside_shift. by apply (proj1 (list.Forall_forall _ _) Hin).
Qed.

Lemma scatter_distinct_indices_witness :
  ∃ m', run (scatter last_first (Ptr 0 0) (Ptr 1 0) 3 [3; 0; 2])
          [[0; 0; 0; 0]; [10; 20; 30]] = Returned ((), m') ∧
        get m' (Ptr 0 0 +ₚ 3) = Some 10 ∧
        get m' (Ptr 0 0 +ₚ 1) = Some 0.
Proof.
  destruct (scatter_distinct_indices last_first [[0; 0; 0; 0]; [10; 20; 30]]
              (Ptr 0 0) (Ptr 1 0) 3 4 [10; 20; 30] [3; 0; 2])
    as (m' & Hrun & Hhit & Hmiss & _).
  - exact last_first_ok.
  - unfold INT_MAX; lia.
  - reflexivity.
  - reflexivity.
  - by apply array_block.
  - by apply (room_block _ _ [0; 0; 0; 0]).
  - simpl; lia.
  - repeat constructor; lia.
  - by apply (bool_decide_unpack (NoDup [3; 0; 2])).
  - exists m'. split_and!; [exact Hrun | | ].
    + by apply (Hhit 0%nat 3).
    + rewrite (Hmiss 1); [done|].
      by apply (bool_decide_unpack (1 ∉ [3; 0; 2])).
Defined.

(** [scatter] with colliding indices, the iterations run one after the
    other as in every parallel loop of the model: for every schedule the
    call returns, and each cell that some entries designate ends with
    the element of one of those entries (the schedule decides which);
    the cells that no entry designates are unchanged. *)
Theorem scatter_colliding_indices {T} (sched : schedule) (m : mem T)
    (dest src : ptr) (n r : Z) (xs : list T) (filter : list Z) :
  schedule_ok sched →
  0 ≤ n ≤ INT_MAX → n = Z.of_nat (length xs) → length filter = length xs →
  array m src xs → room m dest r → blk dest ≠ blk src →
  Forall (λ f, 0 ≤ f < r) filter →
  ∃ m', run (scatter sched dest src n filter) m = Returned ((), m') ∧
        (∀ j, j ∈ filter →
           ∃ (i : nat) x, filter !! i = Some j ∧ xs !! i = Some x ∧
                          get m' (dest +ₚ j) = Some x) ∧
        (∀ j, j ∉ filter → get m' (dest +ₚ j) = get m (dest +ₚ j)) ∧
        array m' src xs.
Proof.
  intros Hsched Hn Hxs Hlen Hsrc Hroom Hsep Hin.
  assert (Hval : Forall (λ f, valid m (dest +ₚ f)) filter).
  { eapply list.Forall_impl; [exact Hin|]. intros f Hf. by apply Hroom. }
  destruct (wp_returned _ _ _
    (scatter_wp sched Hsched m dest src n xs filter
       Hn Hxs Hlen Hsrc Hsep Hval))
    as ([] & m' & Hrun & _ & Hhit & Hframe).
  exists m'. split_and!; [done | | | ].
  - intros j Hj. apply list_elem_of_lookup_1 in Hj as (i & Hi).
    destruct (Hhit i j Hi) as (i' & Hf' & Hget).
    destruct (lookup_lt_is_Some_2 xs i') as [x Hx].
    { apply lookup_lt_Some in Hf'. lia. }
    exists i', x. by rewrite Hget.
  - intros j Hj. apply Hframe. intros f Hf Heq.
    apply (f_equal off) in Heq. simpl in Heq.
    by replace j with f in Hj by lia.
  - apply (array_get m); [done|]. intros i Hi. apply Hframe.
    intros f Hf. ptr_neq.
Qed.

Lemma scatter_colliding_indices_witness :
  ∃ m', run (scatter last_first (Ptr 0 0) (Ptr 1 0) 3 [1; 1; 1])
          [[0; 0]; [10; 20; 30]] = Returned ((), m') ∧
        (∃ (i : nat) x, [1; 1; 1] !! i = Some 1 ∧
                        [10; 20; 30] !! i = Some x ∧
                        get m' (Ptr 0 0 +ₚ 1) = Some x) ∧
        get m' (Ptr 0 0 +ₚ 0) = Some 0.
Proof.
  destruct (scatter_colliding_indices last_first [[0; 0]; [10; 20; 30]]
              (Ptr 0 0) (Ptr 1 0) 3 2 [10; 20; 30] [1; 1; 1])
    as (m' & Hrun & Hhit & Hmiss & _).
  - exact last_first_ok.
  - unfold INT_MAX; lia.
  - reflexivity.
  - reflexivity.
  - by apply array_block.
  - by apply (room_block _ _ [0; 0]).
  - simpl; lia.
  - repeat constructor; lia.
  - exists m'. split_and!; [exact Hrun | | ].
    + apply Hhit. by apply (bool_decide_unpack (1 ∈ [1; 1; 1])).
    + rewrite (Hmiss 0); [done|].
      by apply (bool_decide_unpack (0 ∉ [1; 1; 1])).
Defined.

(** [scatter] does not check the indices: when one of the first
    [(int) nJob] entries designates a cell outside every buffer, then
    under every schedule the call neither returns nor exits, it ends in
    an access out of bounds. *)
Theorem scatter_unchecked_index {T} (sched : schedule) (m : mem T)
    (dest src : ptr) (n : Z) (filter : list Z) (i : nat) (f : Z) :
  schedule_ok sched →
  Z.of_nat i < to_int n → filter !! i = Some f → ¬ valid m (dest +ₚ f) →
  run (scatter sched dest src n filter) m = OutOfBounds.
Proof.
  intros Hsched Hi Hf Hbad.
  unfold run, scatter.
  unfold mbind at 1, M_bind at 1, assert at 1.
  destruct (Z.leb_spec 0 (to_int n)); [|lia].
  cbv zeta. unfold omp_for. cbn [fst snd].
  rewrite (scatter_loop_out_of_bounds dest src filter (Z.of_nat i) f);
    [done | lia | by rewrite Nat2Z.id | | done].
  rewrite (Hsched O 0 _), elem_of_seqZ. lia.
Qed.

Lemma scatter_unchecked_index_witness :
  run (scatter last_first (Ptr 0 0) (Ptr 1 0) 3 [1; -1; 0])
    [[0; 0; 0]; [10; 20; 30]]
  = OutOfBounds.
Proof.
  apply (scatter_unchecked_index last_first [[0; 0; 0]; [10; 20; 30]]
           (Ptr 0 0) (Ptr 1 0) 3 [1; -1; 0] 1%nat (-1)).
  - exact last_first_ok.
  - vm_compute. reflexivity.
  - reflexivity.
  - intros [v Hv]. discriminate Hv.
Defined.

(** ** Scatter and gather, one after the other *)

Lemma room_array {T} (m : mem T) p (k : nat) :
  room m p (Z.of_nat k) → ∃ ys, length ys = k ∧ array m p ys.
Proof.
  induction k as [|k IH]; intros Hroom.
  - exists []. split; [done|]. by intros i v Hv.
  - destruct IH as (ys & Hlen & Harr).
    { intros i Hi. apply Hroom. lia. }
    destruct (Hroom (Z.of_nat k)) as [y Hy]; [lia|].
    exists (ys ++ [y]). split.
    { rewrite length_app. simpl. lia. }
    intros i v Hv. destruct (decide (i < k)%nat) as [Hlt|Hge].
    + rewrite lookup_app_l in Hv by lia. by apply Harr.
    + pose proof (lookup_lt_Some _ _ _ Hv) as Hi.
      rewrite length_app in Hi. simpl in Hi.
      assert (i = k) as -> by lia.
      rewrite lookup_app_r, Hlen, Nat.sub_diag in Hv by lia.
      simpl in Hv. by inversion Hv; subst.
Qed.

(** [scatter] then [gather] with the same filter of pairwise distinct
    indices: the gathered buffer is the scattered source, under every
    schedule of the two parallel loops. *)
Theorem scatter_then_gather {T} (workers : Z) (sched : schedule) (m : mem T)
    (dest tmp src : ptr) (n r : Z) (xs : list T) (filter : list Z) :
  schedule_ok sched →
  0 ≤ n ≤ INT_MAX → 0 ≤ r ≤ INT_MAX →
  n = Z.of_nat (length xs) → length filter = length xs →
  Forall (λ f, 0 ≤ f < r) filter → NoDup filter →
  array m src xs → room m tmp r → room m dest n →
  blk tmp ≠ blk src → blk dest ≠ blk tmp →
  ∃ m', run (scatter sched tmp src n filter;;
             gather workers sched dest tmp r filter n) m
        = Returned ((), m') ∧
        array m' dest xs.
Proof.
  intros Hsched Hn Hr Hxs Hlen Hin Hnd Hsrc Htmp Hdest Hts Hdt.
  assert (Hval : Forall (λ f, valid m (tmp +ₚ f)) filter).
  { eapply list.Forall_impl; [exact Hin|]. intros f Hf. by apply Htmp. }
  destruct (wp_returned
    (scatter sched tmp src n filter;;
     gather workers sched dest tmp r filter n) m
    (λ _ m', array m' dest xs)) as ([] & m' & Hrun & Hres); [|by exists m'].
  apply wp_bind.
  eapply wp_mono;
    [apply (scatter_wp sched Hsched m tmp src n xs filter
              Hn Hxs Hlen Hsrc Hts Hval)
    | | done].
  intros [] m1 (Hlen1 & Hhit & Hframe). simpl.
  assert (Htmp1 : room m1 tmp (Z.of_nat (Z.to_nat r))).
  { intros j Hj. destruct (decide (j ∈ filter)) as [Hjf|Hjf].
    - apply list_elem_of_lookup_1 in Hjf as (i & Hi).
      destruct (Hhit i j Hi) as (i' & Hi' & Hget).
      unfold valid. rewrite Hget. apply lookup_lt_is_Some_2.
      apply lookup_lt_Some in Hi'. lia.
    - unfold valid. rewrite Hframe; [apply Htmp; lia|].
      intros f Hf Heq. apply (f_equal off) in Heq. simpl in Heq.
      by replace j with f in Hjf by lia. }
  destruct (room_array m1 tmp (Z.to_nat r) Htmp1) as (ys & Hys & Harr).
  assert (Hdest1 : room m1 dest (Z.of_nat (length filter))).
  { intros i Hi. unfold valid. rewrite Hframe by (intros f Hf; ptr_neq).
    apply Hdest. lia. }
  unfold gather. replace n with (Z.of_nat (length filter)) by lia.
  eapply wp_mono;
    [apply (gatherImpl_wp sched Hsched m1 dest tmp r ys filter workers
              Hr ltac:(lia) Harr Hdest1 Hdt)
    | | ].
  - eapply list.Forall_impl; [exact Hin|]. simpl. lia.
  - intros [] m2 (_ & _ & Hget & _) i v Hv.
    destruct (lookup_lt_is_Some_2 filter i) as [f Hf].
    { apply lookup_lt_Some in Hv. lia. }
    pose proof (Forall_lookup_1 _ _ _ _ Hin Hf) as Hfr. simpl in Hfr.
    rewrite (Hget i f Hf).
    destruct (lookup_lt_is_Some_2 ys (Z.to_nat f)) as [y Hy]; [lia|].
    rewrite Hy. rewrite <- (Harr _ _ Hy), Z2Nat.id by lia.
    destruct (Hhit i f Hf) as (i' & Hf' & Hgf).
    by rewrite Hgf, <- (NoDup_lookup filter i i' f).
  - intros status [_ Hex]. apply list.Exists_exists in Hex as (f & Hf & Hge).
    rewrite list.Forall_forall in Hin. specialize (Hin f Hf). simpl in Hin.
    lia.
Qed.

Lemma scatter_then_gather_witness :
  ∃ m', run (scatter last_first (Ptr 1 0) (Ptr 2 0) 3 [3; 0; 2];;
             gather 4 last_first (Ptr 0 0) (Ptr 1 0) 4 [3; 0; 2] 3)
          [[0; 0; 0]; [0; 0; 0; 0]; [10; 20; 30]]
        = Returned ((), m') ∧
        array m' (Ptr 0 0) [10; 20; 30].
Proof.
  apply (scatter_then_gather 4 last_first
           [[0; 0; 0]; [0; 0; 0; 0]; [10; 20; 30]]
           (Ptr 0 0) (Ptr 1 0) (Ptr 2 0) 3 4 [10; 20; 30] [3; 0; 2]).
  - exact last_first_ok.
  - unfold INT_MAX; lia.
  - unfold INT_MAX; lia.
  - reflexivity.
  - reflexivity.
  - repeat constructor; lia.
  - by apply (bool_decide_unpack (NoDup [3; 0; 2])).
  - by apply array_block.
  - by apply (room_block _ _ [0; 0; 0; 0]).
  - by apply (room_block _ _ [0; 0; 0]).
  - simpl; lia.
  - simpl; lia.
Defined.

(** [gather] then [scatter] with the same filter, duplicates allowed:
    every designated cell of the destination receives the source element
    of the same index, [dest[f] = src[f]], under every schedule; the
    cells that no entry designates are unchanged. *)
Theorem gather_then_scatter {T} (workers : Z) (sched : schedule) (m : mem T)
    (dest tmp src : ptr) (n k : Z) (xs : list T) (filter : list Z) :
  schedule_ok sched →
  0 ≤ n ≤ INT_MAX → n = Z.of_nat (length xs) →
  k = Z.of_nat (length filter) → k ≤ INT_MAX →
  Forall (λ f, 0 ≤ f < n) filter →
  array m src xs → room m tmp k → room m dest n →
  blk tmp ≠ blk src → blk dest ≠ blk tmp →
  ∃ m', run (gather workers sched tmp src n filter k;;
             scatter sched dest tmp k filter) m
        = Returned ((), m') ∧
        (∀ f, f ∈ filter →
           is_Some (xs !! Z.to_nat f) ∧
           get m' (dest +ₚ f) = xs !! Z.to_nat f) ∧
        (∀ j, j ∉ filter → get m' (dest +ₚ j) = get m (dest +ₚ j)).
Proof.
  intros Hsched Hn Hxs -> Hk Hin Hsrc Htmp Hdest Hts Hdt.
  destruct (wp_returned
    (gather workers sched tmp src n filter (Z.of_nat (length filter));;
     scatter sched dest tmp (Z.of_nat (length filter)) filter) m
    (λ _ m', (∀ f, f ∈ filter → get m' (dest +ₚ f) = xs !! Z.to_nat f) ∧
             (∀ j, j ∉ filter → get m' (dest +ₚ j) = get m (dest +ₚ j))))
    as ([] & m' & Hrun & Hhit & Hmiss).
  2:{ exists m'. split_and!; [done | | done].
      intros f Hf. split; [|by apply Hhit].
      rewrite list.Forall_forall in Hin. specialize (Hin f Hf). simpl in Hin.
      apply lookup_lt_is_Some_2. lia. }
  apply wp_bind. unfold gather.
  eapply wp_mono;
    [apply (gatherImpl_wp sched Hsched m tmp src n xs filter workers
              Hn Hxs Hsrc Htmp Hts)
    | | ].
  - eapply list.Forall_impl; [exact Hin|]. simpl. lia.
  - intros [] m1 (_ & Hlen1 & Hget1 & Hframe1). simpl.
    assert (Htmp1 : room m1 tmp (Z.of_nat (length filter))).
    { intros i Hi.
      destruct (lookup_lt_is_Some_2 filter (Z.to_nat i)) as [f Hf]; [lia|].
      pose proof (Forall_lookup_1 _ _ _ _ Hin Hf) as Hfr. simpl in Hfr.
      unfold valid. rewrite <- (Z2Nat.id i), (Hget1 _ f Hf) by lia.
      apply lookup_lt_is_Some_2. lia. }
    destruct (room_array m1 tmp (length filter) Htmp1) as (ys & Hys & Harr).
    assert (Hval1 : Forall (λ f, valid m1 (dest +ₚ f)) filter).
    { eapply list.Forall_impl; [exact Hin|]. intros f Hf. simpl in Hf.
      unfold valid. rewrite Hframe1 by (intros [Hb _]; simpl in Hb; lia).
      by apply Hdest. }
    eapply wp_mono;
      [apply (scatter_wp sched Hsched m1 dest tmp (Z.of_nat (length filter))
                ys filter ltac:(lia) ltac:(lia) ltac:(lia) Harr Hdt Hval1)
      | | done].
    intros [] m2 (_ & Hhit2 & Hframe2). simpl. split.
    + intros f Hf. apply list_elem_of_lookup_1 in Hf as (i & Hi).
      destruct (Hhit2 i f Hi) as (i' & Hi' & Hget2).
      destruct (lookup_lt_is_Some_2 ys i') as [y Hy].
      { apply lookup_lt_Some in Hi'. lia. }
      by rewrite Hget2, Hy, <- (Harr _ _ Hy), (Hget1 i' f Hi').
    + intros j Hj. rewrite Hframe2.
      * apply Hframe1. intros [Hb _]. simpl in Hb. lia.
      * intros f Hf Heq. apply (f_equal off) in Heq. simpl in Heq.
        by replace j with f in Hj by lia.
  - intros status [_ Hex]. apply list.Exists_exists in Hex as (f & Hf & Hge).
    rewrite list.Forall_forall in Hin. specialize (Hin f Hf). simpl in Hin.
    lia.
Qed.

Lemma gather_then_scatter_witness :
  ∃ m', run (gather 4 last_first (Ptr 1 0) (Ptr 2 0) 4 [3; 1; 3] 3;;
             scatter last_first (Ptr 0 0) (Ptr 1 0) 3 [3; 1; 3])
          [[0; 0; 0; 0]; [0; 0; 0]; [10; 20; 30; 40]]
        = Returned ((), m') ∧
        get m' (Ptr 0 0 +ₚ 3) = Some 40 ∧
        get m' (Ptr 0 0 +ₚ 0) = Some 0.
Proof.
  destruct (gather_then_scatter 4 last_first
              [[0; 0; 0; 0]; [0; 0; 0]; [10; 20; 30; 40]]
              (Ptr 0 0) (Ptr 1 0) (Ptr 2 0) 4 3 [10; 20; 30; 40] [3; 1; 3])
    as (m' & Hrun & Hhit & Hmiss).
  - exact last_first_ok.
  - unfold INT_MAX; lia.
  - reflexivity.
  - reflexivity.
  - unfold INT_MAX; lia.
  - repeat constructor; lia.
  - by apply array_block.
  - by apply (room_block _ _ [0; 0; 0]).
  - by apply (room_block _ _ [0; 0; 0; 0]).
  - simpl; lia.
  - simpl; lia.
  - exists m'. split_and!; [exact Hrun | | ].
    + by apply (Hhit 3), (bool_decide_unpack (3 ∈ [3; 1; 3])).
    + rewrite (Hmiss 0); [done|].
      by apply (bool_decide_unpack (0 ∉ [3; 1; 3])).
Defined.

(** ** Gather after gather *)

(** Two [gather]s in a row gather by the composed filter:
    [dest[i] = src[f[g[i]]]], under every schedule of the two parallel
    loops. *)
Theorem gather_then_gather {T} (workers : Z) (sched : schedule) (m : mem T)
    (dest tmp src : ptr) (n k : Z) (xs : list T) (f g : list Z) :
  schedule_ok sched →
  0 ≤ n ≤ INT_MAX → n = Z.of_nat (length xs) →
  k = Z.of_nat (length f) → k ≤ INT_MAX →
  Forall (λ fi, 0 ≤ fi < n) f → Forall (λ gi, 0 ≤ gi < k) g →
  array m src xs → room m tmp k → room m dest (Z.of_nat (length g)) →
  blk tmp ≠ blk src → blk dest ≠ blk tmp →
  ∃ m', run (gather workers sched tmp src n f k;;
             gather workers sched dest tmp k g (Z.of_nat (length g))) m
        = Returned ((), m') ∧
        ∀ (i : nat) gi, g !! i = Some gi →
          ∃ fi x, f !! Z.to_nat gi = Some fi ∧ xs !! Z.to_nat fi = Some x ∧
                  get m' (dest +ₚ Z.of_nat i) = Some x.
Proof.
  intros Hsched Hn Hxs -> Hk Hf Hg Hsrc Htmp Hdest Hts Hdt.
  destruct (wp_returned
    (gather workers sched tmp src n f (Z.of_nat (length f));;
     gather workers sched dest tmp (Z.of_nat (length f)) g
       (Z.of_nat (length g))) m
    (λ _ m', ∀ (i : nat) gi, g !! i = Some gi →
               ∃ fi, f !! Z.to_nat gi = Some fi ∧
                     get m' (dest +ₚ Z.of_nat i) = xs !! Z.to_nat fi))
    as ([] & m' & Hrun & Hres).
  2:{ exists m'. split; [done|]. intros i gi Hgi.
      destruct (Hres i gi Hgi) as (fi & Hfi & Hget).
      pose proof (Forall_lookup_1 _ _ _ _ Hf Hfi) as Hr. simpl in Hr.
      destruct (lookup_lt_is_Some_2 xs (Z.to_nat fi)) as [x Hx]; [lia|].
      exists fi, x. by rewrite Hget. }
  assert (Hexit : ∀ (l : list Z) b status,
            Forall (λ e, 0 ≤ e < b) l →
            status = 1 ∧ Exists (λ e, b ≤ e) l → no_exit status).
  { intros l b status Hall [_ Hex].
    apply list.Exists_exists in Hex as (e & He & Hge).
    rewrite list.Forall_forall in Hall. specialize (Hall e He). simpl in Hall.
    unfold no_exit. lia. }
  apply wp_bind. unfold gather.
  eapply wp_mono;
    [apply (gatherImpl_wp sched Hsched m tmp src n xs f workers
              Hn Hxs Hsrc Htmp Hts)
    | | by eauto].
  - eapply list.Forall_impl; [exact Hf|]. simpl. lia.
  - intros [] m1 (_ & Hlen1 & Hget1 & Hframe1). simpl.
    assert (Htmp1 : room m1 tmp (Z.of_nat (length f))).
    { intros i Hi.
      destruct (lookup_lt_is_Some_2 f (Z.to_nat i)) as [fi Hfi]; [lia|].
      pose proof (Forall_lookup_1 _ _ _ _ Hf Hfi) as Hr. simpl in Hr.
      unfold valid. rewrite <- (Z2Nat.id i), (Hget1 _ fi Hfi) by lia.
      apply lookup_lt_is_Some_2. lia. }
    destruct (room_array m1 tmp (length f) Htmp1) as (ys & Hys & Harr).
    assert (Hdest1 : room m1 dest (Z.of_nat (length g))).
    { intros i Hi. unfold valid.
      rewrite Hframe1 by (intros [Hb _]; simpl in Hb; lia).
      by apply Hdest. }
    eapply wp_mono;
      [apply (gatherImpl_wp sched Hsched m1 dest tmp (Z.of_nat (length f))
                ys g workers ltac:(lia) ltac:(lia) Harr Hdest1 Hdt)
      | | by eauto].
    + eapply list.Forall_impl; [exact Hg|]. simpl. lia.
    + intros [] m2 (_ & _ & Hget2 & _) i gi Hgi.
      pose proof (Forall_lookup_1 _ _ _ _ Hg Hgi) as Hr. simpl in Hr.
      destruct (lookup_lt_is_Some_2 f (Z.to_nat gi)) as [fi Hfi]; [lia|].
      exists fi. split; [done|].
      rewrite (Hget2 i gi Hgi).
      destruct (lookup_lt_is_Some_2 ys (Z.to_nat gi)) as [y Hy]; [lia|].
      by rewrite Hy, <- (Harr _ _ Hy), (Hget1 _ fi Hfi).
Qed.

Lemma gather_then_gather_witness :
  ∃ m', run (gather 4 last_first (Ptr 1 0) (Ptr 2 0) 4 [3; 1; 3] 3;;
             gather 4 last_first (Ptr 0 0) (Ptr 1 0) 3 [2; 0] 2)
          [[0; 0]; [0; 0; 0]; [10; 20; 30; 40]]
        = Returned ((), m') ∧
        get m' (Ptr 0 0 +ₚ 1) = Some 40.
Proof.
  destruct (gather_then_gather 4 last_first
              [[0; 0]; [0; 0; 0]; [10; 20; 30; 40]]
              (Ptr 0 0) (Ptr 1 0) (Ptr 2 0) 4 3 [10; 20; 30; 40]
              [3; 1; 3] [2; 0])
    as (m' & Hrun & Hget).
  - exact last_first_ok.
  - unfold INT_MAX; lia.
  - reflexivity.
  - reflexivity.
  - unfold INT_MAX; lia.
  - repeat constructor; lia.
  - repeat constructor; lia.
  - by apply array_block.
  - by apply (room_block _ _ [0; 0; 0]).
  - by apply (room_block _ _ [0; 0]).
  - simpl; lia.
  - simpl; lia.
  - exists m'. split; [exact Hrun|].
    destruct (Hget 1%nat 0) as (fi & x & Hfi & Hx & Hres); [reflexivity|].
    simpl in Hfi. inversion Hfi; subst fi.
    simpl in Hx. inversion Hx; subst x. exact Hres.
Defined.

(** ** Pack in place, and filters that are too short *)

Lemma array_app {T} (m : mem T) p (l1 l2 : list T) :
  array m p l1 → array m (p +ₚ Z.of_nat (length l1)) l2 →
  array m p (l1 ++ l2).
Proof.
  intros H1 H2 i v Hv. destruct (decide (i < length l1)%nat) as [Hlt|Hge].
  - rewrite lookup_app_l in Hv by done. by apply H1.
  - rewrite lookup_app_r in Hv by lia.
    rewrite <- (H2 _ _ Hv), shift_shift. f_equal.
    apply ptr_eq; simpl; lia.
Qed.

(** [pack] in place ([dest = src]): the call returns the number of
    truthy entries, the buffer then starts with the kept elements in
    source order, and the elements after them are as they were. *)
Theorem pack_in_place {T} (m : mem T) (src : ptr) (n : Z) (xs : list T)
    (filter : list Z) :
  0 ≤ n ≤ INT_MAX → n = Z.of_nat (length xs) → length filter = length xs →
  array m src xs →
  ∃ m', run (pack src src n filter) m = Returned (truthy filter, m') ∧
        array m' src
          (kept xs filter ++ drop (length (kept xs filter)) xs) ∧
        ∀ q, ¬ inside src (truthy filter) q → get m' q = get m q.
Proof.
  intros Hn Hxs Hlen Hsrc.
  pose proof (truthy_le_length filter) as Hle.
  pose proof (truthy_nonneg filter) as Hge.
  assert (Hroom : room m src (truthy filter)).
  { intros i Hi. destruct (lookup_lt_is_Some_2 xs (Z.to_nat i)) as [x Hx].
    { lia. }
    exists x. rewrite <- (Hsrc _ _ Hx). f_equal.
    apply ptr_eq; simpl; lia. }
  destruct (wp_returned _ _ _
    (pack_alias_wp m src src n xs filter Hn Hxs Hlen Hsrc Hroom
       ltac:(by left)))
    as (pos & m' & Hrun & -> & _ & Hkept & Hframe).
  exists m'. split_and!; [done | | done].
  pose proof (kept_length xs filter ltac:(done)) as Hcount.
  apply array_app; [done|].
  intros i v Hv. rewrite lookup_drop in Hv.
  rewrite shift_shift, Hframe.
  - rewrite <- (Hsrc _ _ Hv). f_equal. apply ptr_eq; simpl; lia.
  - intros [_ Ho]. simpl in Ho. lia.
Qed.

Lemma pack_in_place_witness :
  ∃ m', run (pack (Ptr 0 0) (Ptr 0 0) 5 [0; 1; 0; 0; 1]) [[1; 2; 3; 4; 5]]
        = Returned (2, m') ∧
        array m' (Ptr 0 0) [2; 5; 3; 4; 5].
Proof.
  destruct (pack_in_place [[1; 2; 3; 4; 5]] (Ptr 0 0) 5 [1; 2; 3; 4; 5]
              [0; 1; 0; 0; 1])
    as (m' & Hrun & Hdest & _).
  - unfold INT_MAX; lia.
  - reflexivity.
  - reflexivity.
  - by apply array_block.
  - exists m'. split; [exact Hrun | exact Hdest].
Defined.

(** *** Calls that can only return or leave a buffer *)

Section ReturnsOrOob.
Context {T : Type}.

Lemma returns_or_oob_ret {A} (a : A) : returns_or_oob (mret a : M T A).
Proof. intros σ. right. by exists a, σ. Qed.

Lemma returns_or_oob_bind {A B} (c : M T A) (f : A → M T B) :
  returns_or_oob c → (∀ a, returns_or_oob (f a)) → returns_or_oob (c ≫= f).
Proof.
  intros Hc Hf σ. unfold mbind, M_bind.
  destruct (Hc σ) as [->|(a & σ' & ->)]; [by left | apply Hf].
Qed.

Lemma returns_or_oob_load p : returns_or_oob (load p : M T T).
Proof.
  intros σ. unfold load. destruct (get σ.1 p); [right; eauto | by left].
Qed.

Lemma returns_or_oob_store p (v : T) : returns_or_oob (store p v).
Proof.
  intros σ. unfold store.
  destruct (get σ.1 p); [|by left].
  destruct (σ.1 !! blk p); [right; eauto | by left].
Qed.

Lemma returns_or_oob_index {A} (a : list A) i :
  returns_or_oob (index a i : M T A).
Proof.
  intros σ. unfold index. destruct (0 <=? i); [|by left].
  destruct (a !! Z.to_nat i); [right; eauto | by left].
Qed.

Lemma returns_or_oob_memcpy (dst src : ptr) :
  returns_or_oob (memcpy dst src : M T ()).
Proof.
  apply returns_or_oob_bind; [apply returns_or_oob_load|].
  intros v. apply returns_or_oob_store.
Qed.

Lemma index_past_end {A} (a : list A) i (σ : state T) :
  Z.of_nat (length a) ≤ i → index a i σ = OutOfBounds.
Proof.
  intros Hi. unfold index. destruct (0 <=? i); [|done].
  by rewrite lookup_ge_None_2 by lia.
Qed.

(** A loop whose body can only return or leave a buffer, and leaves a
    buffer at iteration [bad], ends out of bounds. *)
Lemma iterate_out_of_bounds {A} (body : Z → A → M T A) (bad : Z) :
  (∀ i a, returns_or_oob (body i a)) →
  (∀ a σ, body bad a σ = OutOfBounds) →
  ∀ (k : nat) (i : Z) (a : A) (σ : state T),
    i ≤ bad < i + Z.of_nat k → iterate k i body a σ = OutOfBounds.
Proof.
  intros Hbody Hbad. induction k as [|k IH]; intros i a σ Hi; [lia|].
  simpl. unfold mbind, M_bind.
  destruct (decide (i = bad)) as [->|Hne]; [by rewrite Hbad|].
  destruct (Hbody i a σ) as [->|(a' & σ' & ->)]; [done|].
  apply IH. lia.
Qed.

End ReturnsOrOob.

(** [pack] reads the first [(int) nJob] entries of the filter: with a
    filter of fewer entries the call ends out of bounds, whatever the
    buffers hold. *)
Theorem pack_filter_too_short {T} (m : mem T) (dest src : ptr) (n : Z)
    (filter : list Z) :
  Z.of_nat (length filter) < to_int n →
  run (pack dest src n filter) m = OutOfBounds.
Proof.
  intros Hshort. unfold run, pack.
  unfold mbind at 1, M_bind at 1, assert at 1.
  destruct (Z.leb_spec 0 (to_int n)); [|lia].
  cbv zeta. unfold for_acc.
  rewrite (iterate_out_of_bounds _ (Z.of_nat (length filter)));
    [done | | | lia].
  - intros i pos. apply returns_or_oob_bind; [apply returns_or_oob_index|].
    intros f. destruct (f =? 0); [apply returns_or_oob_ret|].
    apply returns_or_oob_bind; [apply returns_or_oob_memcpy|].
    intros []. apply returns_or_oob_ret.
  - intros pos σ. unfold mbind, M_bind. by rewrite index_past_end.
Qed.

Lemma pack_filter_too_short_witness :
  run (pack (Ptr 0 0) (Ptr 1 0) 3 [1; 0]) [[0; 0; 0]; [1; 2; 3]]
  = OutOfBounds.
Proof.
  apply (pack_filter_too_short [[0; 0; 0]; [1; 2; 3]] (Ptr 0 0) (Ptr 1 0) 3
           [1; 0]).
  vm_compute. reflexivity.
Defined.

(** ** Job counts that are negative as an [int] *)

(** [pack], [gather] and [scatter] start with
    [assert ((int) nJob >= 0)]: a job count whose conversion to [int] is
    negative, such as [2^31], ends the call there, before any access to
    the buffers. *)
Theorem int_job_count_asserted {T} (workers : Z) (sched : schedule)
    (m : mem T) (dest src : ptr) (n : Z) (filter : list Z) (nFilter : Z) :
  to_int n < 0 →
  run (pack dest src n filter) m = AssertFailed ∧
  run (gather workers sched dest src n filter nFilter) m = AssertFailed ∧
  run (scatter sched dest src n filter) m = AssertFailed.
Proof.
  intros Hn.
  unfold run, pack, gather, gatherImpl, scatter, mbind, M_bind, assert.
  destruct (Z.leb_spec 0 (to_int n)); [lia|done].
Qed.

Lemma int_job_count_asserted_witness :
  run (pack (Ptr 0 0) (Ptr 1 0) (2 ^ 31) [1]) [[0]; [1]] = AssertFailed ∧
  run (gather 4 in_order (Ptr 0 0) (Ptr 1 0) (2 ^ 31) [1] 1) [[0]; [1]]
  = AssertFailed ∧
  run (scatter in_order (Ptr 0 0) (Ptr 1 0) (2 ^ 31) [1]) [[0]; [1]]
  = AssertFailed.
Proof.
  apply (int_job_count_asserted 4 in_order [[0]; [1]] (Ptr 0 0) (Ptr 1 0)
           (2 ^ 31) [1] 1).
  vm_compute. reflexivity.
Defined.

(** ** Pipelines in place, and worker lists that are too short *)

(** Both pipelines run in place ([dest = src]): for every worker count
    and every schedule of the parallel loops they return and leave in
    [src[i]] the stages applied in order to the old [src[i]]; nothing
    else changes.  ([zero] is any element of the element type.) *)
Theorem pipelines_in_place {T} (zero : T) (workers : Z) (sched : schedule)
    (m : mem T) (src : ptr) (n : Z) (xs : list T)
    (workerList : list (T → T)) :
  1 ≤ workers ≤ INT_MAX → schedule_ok sched →
  n = Z.of_nat (length xs) → 0 ≤ to_int n → workerList ≠ [] →
  array m src xs →
  (∃ m', run (mapPipeline workers sched src src n workerList
                (Z.of_nat (length workerList))) m = Returned ((), m') ∧
         array m' src (stages workerList <$> xs) ∧
         ∀ q, ¬ inside src n q → get m' q = get m q) ∧
  (∃ m', run (itemBoundPipeline workers sched src src n workerList
                (Z.of_nat (length workerList))) m = Returned ((), m') ∧
         array m' src (stages workerList <$> xs) ∧
         ∀ q, ¬ inside src n q → get m' q = get m q).
Proof.
  intros HP Hsched -> Hn Hws Hsrc.
  assert (Hg : ∀ i, 0 ≤ i < Z.of_nat (length xs) →
                    get m (src +ₚ i) = Some (contents zero xs i)).
  { intros i Hi. by apply array_contents. }
  assert (Hroom : room m src (Z.of_nat (length xs))).
  { intros i Hi. eexists. by apply Hg. }
  split.
  - destruct (wp_returned _ _ _
      (mapPipeline_alias_wp sched Hsched m src src (Z.of_nat (length xs))
         workerList workers (contents zero xs)
         ltac:(lia) ltac:(lia) Hn Hws Hg Hroom ltac:(by left)))
      as ([] & m' & Hrun & _ & Hget & Hframe).
    exists m'. split_and!; [done | by apply (array_fmap zero m) | done].
  - destruct (wp_returned _ _ _
      (itemBoundPipeline_alias_wp sched Hsched m src src
         (Z.of_nat (length xs)) workerList workers (contents zero xs)
         ltac:(lia) Hn Hws Hg Hroom ltac:(by left)))
      as ([] & m' & Hrun & _ & Hget & Hframe).
    exists m'. split_and!; [done | by apply (array_fmap zero m) | done].
Qed.

Lemma pipelines_in_place_witness :
  ∃ m', run (itemBoundPipeline 4 last_first (Ptr 0 0) (Ptr 0 0) 3
               [Z.succ; Z.mul 2] 2)
          [[10; 20; 30]] = Returned ((), m') ∧
        array m' (Ptr 0 0) [22; 42; 62].
Proof.
  destruct (pipelines_in_place 0 4 last_first [[10; 20; 30]] (Ptr 0 0) 3
              [10; 20; 30] [Z.succ; Z.mul 2])
    as (_ & m' & Hrun & Hdest & _).
  - unfold INT_MAX; lia.
  - exact last_first_ok.
  - reflexivity.
  - vm_compute; discriminate.
  - done.
  - by apply array_block.
  - exists m'. split; [exact Hrun | exact Hdest].
Defined.

(** Both pipelines read [workerList[i]] for every [i] below [nWorkers]
    before they touch the buffers: with a list of fewer workers the call
    ends out of bounds. *)
Theorem pipeline_worker_list_too_short {T} (workers : Z) (sched : schedule)
    (m : mem T) (dest src : ptr) (n : Z) (workerList : list (T → T))
    (nWorkers : Z) :
  0 ≤ to_int n → Z.of_nat (length workerList) < nWorkers →
  run (mapPipeline workers sched dest src n workerList nWorkers) m
  = OutOfBounds ∧
  run (itemBoundPipeline workers sched dest src n workerList nWorkers) m
  = OutOfBounds.
Proof.
  intros Hn Hshort.
  assert (Hloop : ∀ σ : state T,
            for_ 0 nWorkers (λ i, assert_worker workerList i) σ
            = OutOfBounds).
  { intros σ. unfold for_, for_acc.
    apply (iterate_out_of_bounds _ (Z.of_nat (length workerList)));
      [ | | lia].
    - intros i []. apply returns_or_oob_bind; [apply returns_or_oob_index|].
      intros w σ'. right. by exists (), σ'.
    - intros [] σ'. unfold assert_worker, mbind, M_bind.
      by rewrite index_past_end. }
  split.
  - unfold run, mapPipeline.
    unfold mbind at 1, M_bind at 1, assert at 1.
    destruct (Z.leb_spec 0 (to_int n)); [|lia].
    unfold mbind at 1, M_bind at 1. by rewrite Hloop.
  - unfold run, itemBoundPipeline.
    unfold mbind at 1, M_bind at 1, assert at 1.
    destruct (Z.leb_spec 0 (to_int n)); [|lia].
    unfold mbind at 1, M_bind at 1. by rewrite Hloop.
Qed.

Lemma pipeline_worker_list_too_short_witness :
  run (mapPipeline 4 in_order (Ptr 0 0) (Ptr 1 0) 1 [Z.succ] 2) [[0]; [1]]
  = OutOfBounds.
Proof.
  destruct (pipeline_worker_list_too_short 4 in_order [[0]; [1]] (Ptr 0 0)
              (Ptr 1 0) 1 [Z.succ] 2) as (Hmap & _).
  - vm_compute; discriminate.
  - simpl; lia.
  - exact Hmap.
Defined.

(** ** Scan with any operator, and in place *)

Lemma scanl_length {T} (op : T → T → T) a (l : list T) :
  length (scanl op a l) = length l.
Proof. revert a. induction l as [|x l IH]; intros a; simpl; auto. Qed.

Lemma scanl_lookup {T} (op : T → T → T) a (l : list T) (i : nat) v :
  scanl op a l !! i = Some v → v = foldl op a (take (S i) l).
Proof.
  revert a i. induction l as [|x l IH]; intros a [|i] Hv; simpl in *;
    try done.
  - congruence.
  - by apply IH.
Qed.

Lemma seg_ext {T} (g h : Z → T) a l :
  (∀ i, a ≤ i < a + l → g i = h i) → seg g a l = seg h a l.
Proof.
  intros Hgh. unfold seg. apply list_fmap_ext. intros i x Hx.
  apply lookup_seqZ in Hx as [-> Hi]. apply Hgh. lia.
Qed.

Lemma seg_shift_by {T} (f : Z → T) c a l :
  seg (λ i, f (c + i)) a l = seg f (c + a) l.
Proof.
  unfold seg. transitivity (f <$> (Z.add c <$> seqZ a l)).
  - by rewrite <- list_fmap_compose.
  - by rewrite fmap_add_seqZ.
Qed.

Lemma seg_take_at {T} (f : Z → T) a l (k : nat) :
  Z.of_nat k ≤ l → take k (seg f a l) = seg f a (Z.of_nat k).
Proof.
  intros Hk. replace l with (Z.of_nat k + (l - Z.of_nat k)) by lia.
  rewrite seg_app by lia. apply take_app_length'.
  rewrite seg_length. lia.
Qed.

(** The tiles of a list are the segments that the tile offsets
    delimit. *)
Lemma tile_seg {T} (zero : T) P (xs : list T) t :
  1 ≤ P ≤ INT_MAX → Z.of_nat (length xs) ≤ SIZE_MAX →
  0 ≤ t < Z.min (Z.of_nat (length xs)) P →
  tile P xs t
  = seg (contents zero xs) (tile_offset (Z.of_nat (length xs)) P t)
        (tileLength (Z.of_nat (length xs)) P t).
Proof.
  intros HP Hn Ht. set (n := Z.of_nat (length xs)) in *.
  assert (HN : 0 ≤ n ≤ SIZE_MAX) by lia.
  pose proof (tileLength_pos n P HN HP _ Ht) as Hpos.
  pose proof (tile_offset_step n P HN HP _ Ht) as Hstep.
  pose proof (tile_offset_bound n P HN HP t ltac:(lia)) as Hb0.
  pose proof (tile_offset_bound n P HN HP (t + 1) ltac:(lia)) as Hb1.
  unfold tile. fold n. rewrite tileStart_eq by done.
  by rewrite seg_contents_range by lia.
Qed.

Lemma two_phase_fold_one {T} (op : T → T → T) (zero : T) (l : list T) :
  1 ≤ Z.of_nat (length l) ≤ SIZE_MAX →
  two_phase_fold op zero 1 l = op zero (foldl op zero l).
Proof.
  intros Hl.
  rewrite two_phase_fold_tiles by (unfold INT_MAX; lia).
  rewrite one_tile_fold by done. by rewrite seg_contents.
Qed.

Lemma contents_cons {T} (zero x0 : T) (rest : list T) j :
  0 ≤ j → contents zero (x0 :: rest) (1 + j) = contents zero rest j.
Proof.
  intros Hj. unfold contents.
  by replace (Z.to_nat (1 + j)) with (S (Z.to_nat j)) by lia.
Qed.

(** [scan] on a source held as a list, for any operator. *)
Lemma scan_three_phase {T} (op : T → T → T) (zero : T) (workers : Z)
    (sched : schedule) (m : mem T) (dest src : ptr) (n : Z) (xs : list T) :
  1 ≤ workers ≤ INT_MAX → schedule_ok sched →
  n = Z.of_nat (length xs) → n ≤ SIZE_MAX →
  room m dest n → array m src xs → dest = src ∨ blk dest ≠ blk src →
  ∃ m', run (scan zero workers sched dest src n op) m = Returned ((), m') ∧
        array m' dest (three_phase_scan op zero workers xs) ∧
        (∀ q, (blk q < length m)%nat → ¬ inside dest n q →
              get m' q = get m q) ∧
        (∀ q, (length m ≤ blk q)%nat → get m' q = None).
Proof.
  intros HP Hsched -> Hn Hroom Hsrc Halias.
  set (f := contents zero xs).
  destruct (wp_returned _ _ _
    (scan_tiles_wp op zero sched Hsched m dest src (Z.of_nat (length xs))
       workers f HP ltac:(lia) Hroom
       ltac:(by intros i Hi; apply array_contents) Halias))
    as ([] & m' & Hrun & _ & Hd0 & Htiles & Hframe & Hfreed).
  exists m'. split_and!; [done | | done | done].
  destruct xs as [|x0 rest]; [by intros i v Hv|].
  unfold three_phase_scan.
  set (N := Z.of_nat (length rest)).
  assert (HN : 0 ≤ N ≤ SIZE_MAX) by (simpl in Hn; lia).
  assert (HN' : N ≤ SIZE_MAX) by lia.
  replace (Z.of_nat (length (x0 :: rest)) - 1) with N in Htiles
    by (simpl; lia).
  rewrite nTiles_eq by done.
  set (carry t := foldl op x0
                    ((λ t', two_phase_fold op zero 1 (tile workers rest t'))
                     <$> seqZ 0 t)).
  set (G t := scanl op (carry t) (tile workers rest t)).
  assert (Htile : ∀ t, 0 ≤ t < Z.min N workers →
            tile workers rest t
            = seg f (tile_offset N workers t + 1) (tileLength N workers t)).
  { intros t Ht. rewrite (tile_seg zero) by done. fold N.
    rewrite (Z.add_comm _ 1), <- seg_shift_by.
    apply seg_ext. intros i Hi.
    pose proof (tile_offset_bound N workers HN HP t ltac:(lia)).
    symmetry. apply contents_cons. lia. }
  assert (Hcarry : ∀ t, 0 ≤ t ≤ Z.min N workers →
            carry t = scan_carry_at op zero f N workers t).
  { intros t Ht. unfold carry, scan_carry_at. f_equal.
    apply list_fmap_ext. intros i t' Ht'.
    apply lookup_seqZ in Ht' as [-> Hi]. rewrite Z.add_0_l in *.
    assert (HtT : 0 ≤ Z.of_nat i < Z.min N workers) by lia.
    pose proof (tileLength_pos N workers HN HP _ HtT) as Hpos.
    pose proof (tile_offset_step N workers HN HP _ HtT) as Hstep.
    pose proof (tile_offset_bound N workers HN HP (Z.of_nat i + 1)
                  ltac:(lia)) as Hb1.
    pose proof (tile_offset_bound N workers HN HP (Z.of_nat i)
                  ltac:(lia)) as Hb0.
    rewrite two_phase_fold_one; rewrite Htile by done; [done|].
    rewrite seg_length. lia. }
  assert (Hjoin : ∀ k : nat, Z.of_nat k ≤ Z.min N workers →
            Z.of_nat (length (mjoin (G <$> seqZ 0 (Z.of_nat k))))
            = tile_offset N workers (Z.of_nat k) ∧
            array m' (dest +ₚ 1) (mjoin (G <$> seqZ 0 (Z.of_nat k)))).
  { induction k as [|k IH]; intros Hk.
    - rewrite tile_offset_0 by done. split; [done|]. by intros i v Hv.
    - destruct IH as [IHlen IHarr]; [lia|].
      rewrite Nat2Z.inj_succ, <- Z.add_1_r.
      assert (HkT : 0 ≤ Z.of_nat k < Z.min N workers) by lia.
      pose proof (tileLength_pos N workers HN HP _ HkT) as Hpos.
      pose proof (tile_offset_step N workers HN HP _ HkT) as Hstep.
      pose proof (tile_offset_bound N workers HN HP (Z.of_nat k + 1)
                    ltac:(lia)) as Hb1.
      pose proof (tile_offset_bound N workers HN HP (Z.of_nat k)
                    ltac:(lia)) as Hb0.
      rewrite fmap_seqZ_snoc, join_app by lia. simpl. rewrite app_nil_r.
      assert (HlenG : Z.of_nat (length (G (Z.of_nat k)))
                      = tileLength N workers (Z.of_nat k)).
      { unfold G. rewrite scanl_length, Htile, seg_length by done. lia. }
      split.
      + rewrite length_app, Nat2Z.inj_add, IHlen, HlenG. by rewrite Hstep.
      + apply array_app; [done|]. rewrite IHlen, shift_shift.
        intros i v Hv. pose proof (lookup_lt_Some _ _ _ Hv) as Hi.
        apply scanl_lookup in Hv as ->.
        rewrite shift_shift.
        rewrite (Htiles (Z.of_nat k)) by lia. f_equal.
        rewrite Hcarry, Htile by (done || lia). f_equal.
        rewrite seg_take_at by lia. f_equal. lia. }
  destruct (Hjoin (Z.to_nat (Z.min N workers)) ltac:(lia)) as [_ Harr].
  rewrite Z2Nat.id in Harr by lia.
  apply (array_app m' dest [x0]); [|done].
  intros [|i] v Hv; [|done]. simpl in Hv. inversion Hv; subst v.
  rewrite shift_0. apply Hd0. simpl. lia.
Qed.

(** [inclusiveScan] with any binary operator, associative or not, into
    a separate buffer or in place ([dest = src]): for every worker count
    and every schedule of the parallel loops the call returns and leaves
    in [dest] the three-phase scan of the source, which depends on the
    worker count and not on the schedule.  Nothing outside [dest[0..n)]
    changes and the buffers of the call are freed. *)
Theorem inclusiveScan_three_phase {T} (op : T → T → T) (zero : T)
    (workers : Z) (sched : schedule) (m : mem T) (dest src : ptr) (n : Z)
    (xs : list T) :
  1 ≤ workers ≤ INT_MAX → schedule_ok sched →
  n = Z.of_nat (length xs) → n ≤ SIZE_MAX →
  room m dest n → array m src xs → dest = src ∨ blk dest ≠ blk src →
  ∃ m', run (inclusiveScan zero workers sched dest src n op) m
        = Returned ((), m') ∧
        array m' dest (three_phase_scan op zero workers xs) ∧
        (∀ q, (blk q < length m)%nat → ¬ inside dest n q →
              get m' q = get m q) ∧
        (∀ q, (length m ≤ blk q)%nat → get m' q = None).
Proof. intros. unfold inclusiveScan. by apply scan_three_phase. Qed.

Lemma inclusiveScan_three_phase_witness :
  ∃ m', run (inclusiveScan 0 2 last_first (Ptr 0 0) (Ptr 1 0) 4 Z.mul)
          [[9; 9; 9; 9]; [2; 3; 4; 5]]
        = Returned ((), m') ∧
        array m' (Ptr 0 0) [2; 6; 24; 0].
Proof.
  destruct (inclusiveScan_three_phase Z.mul 0 2 last_first
              [[9; 9; 9; 9]; [2; 3; 4; 5]] (Ptr 0 0) (Ptr 1 0) 4 [2; 3; 4; 5])
    as (m' & Hrun & Hdest & _).
  - unfold INT_MAX; lia.
  - exact last_first_ok.
  - reflexivity.
  - unfold SIZE_MAX; lia.
  - by apply (room_block _ _ [9; 9; 9; 9]).
  - by apply array_block.
  - right. simpl. lia.
  - exists m'. split; [exact Hrun | exact Hdest].
Defined.

(** [exclusiveScan] with any operator and [n >= 1]: the call reads the
    first [n - 1] elements of the source only, leaves their three-phase
    scan in [dest[1..n)] and writes nothing else; [dest[0]] is as it
    was. *)
Theorem exclusiveScan_three_phase {T} (op : T → T → T) (zero : T)
    (workers : Z) (sched : schedule) (m : mem T) (dest src : ptr) (n : Z)
    (xs : list T) :
  1 ≤ workers ≤ INT_MAX → schedule_ok sched →
  n = Z.of_nat (length xs) + 1 → n ≤ SIZE_MAX →
  room m (dest +ₚ 1) (n - 1) → array m src xs → blk dest ≠ blk src →
  ∃ m', run (exclusiveScan zero workers sched dest src n op) m
        = Returned ((), m') ∧
        array m' (dest +ₚ 1) (three_phase_scan op zero workers xs) ∧
        (∀ q, (blk q < length m)%nat → ¬ inside (dest +ₚ 1) (n - 1) q →
              get m' q = get m q) ∧
        (∀ q, (length m ≤ blk q)%nat → get m' q = None).
Proof.
  intros HP Hsched Hxs Hn Hroom Hsrc Hsep. unfold exclusiveScan.
  rewrite to_size_t_small by lia.
  apply scan_three_phase; try done; try lia. by right.
Qed.

Lemma exclusiveScan_three_phase_witness :
  ∃ m', run (exclusiveScan 0 2 last_first (Ptr 0 0) (Ptr 1 0) 4 Z.add)
          [[9; 9; 9; 9]; [1; 2; 3]]
        = Returned ((), m') ∧
        array m' (Ptr 0 0 +ₚ 1) [1; 3; 6] ∧
        get m' (Ptr 0 0) = Some 9.
Proof.
  destruct (exclusiveScan_three_phase Z.add 0 2 last_first
              [[9; 9; 9; 9]; [1; 2; 3]] (Ptr 0 0) (Ptr 1 0) 4 [1; 2; 3])
    as (m' & Hrun & Hdest & Hframe & _).
  - unfold INT_MAX; lia.
  - exact last_first_ok.
  - reflexivity.
  - unfold SIZE_MAX; lia.
  - intros i Hi. unfold valid, get. simpl.
    destruct (Z.leb_spec 0 (0 + 1 + i)); [|lia].
    apply lookup_lt_is_Some_2. simpl. lia.
  - by apply array_block.
  - simpl; lia.
  - exists m'. split_and!; [exact Hrun | exact Hdest | ].
    rewrite Hframe; [done | simpl; lia | ].
    intros [_ Ho]. simpl in Ho. lia.
Defined.

(** [inclusiveScan] in place ([dest = src]): with an associative
    operator of which zero is a left identity, entry [i] of the buffer
    ends as the left fold of the old entries [0..i], for every worker
    count and every schedule; nothing else changes. *)
Theorem inclusiveScan_in_place {T} (op : T → T → T) (zero : T) (workers : Z)
    (sched : schedule) (m : mem T) (src : ptr) (n : Z) (xs : list T) :
  (∀ a b c, op (op a b) c = op a (op b c)) →
  (∀ a, op zero a = a) →
  1 ≤ workers ≤ INT_MAX → schedule_ok sched →
  n = Z.of_nat (length xs) → n ≤ SIZE_MAX →
  array m src xs →
  ∃ m', run (inclusiveScan zero workers sched src src n op) m
        = Returned ((), m') ∧
        (∀ i : nat, (i < length xs)%nat →
           get m' (src +ₚ Z.of_nat i) = Some (running_fold op zero xs i)) ∧
        ∀ q, (blk q < length m)%nat → ¬ inside src n q → get m' q = get m q.
Proof.
  intros Hassoc Hid HP Hsched -> Hn Hsrc.
  assert (Hg : ∀ i, 0 ≤ i < Z.of_nat (length xs) →
                    get m (src +ₚ i) = Some (contents zero xs i)).
  { intros i Hi. by apply array_contents. }
  assert (Hroom : room m src (Z.of_nat (length xs))).
  { intros i Hi. eexists. by apply Hg. }
  destruct (wp_returned _ _ _
    (scan_alias_wp op zero sched Hassoc Hid Hsched m src src
       (Z.of_nat (length xs)) workers (contents zero xs)
       HP ltac:(lia) Hroom Hg ltac:(by left)))
    as ([] & m' & Hrun & _ & Hget & Hframe).
  exists m'. split_and!; [done | | done].
  intros i Hi. rewrite Hget by lia. f_equal. by apply running_fold_seg.
Qed.

Lemma inclusiveScan_in_place_witness :
  ∃ m', run (inclusiveScan 0 2 last_first (Ptr 0 0) (Ptr 0 0) 5 Z.add)
          [[1; 2; 3; 4; 5]]
        = Returned ((), m') ∧
        get m' (Ptr 0 0 +ₚ 4) = Some 15.
Proof.
  destruct (inclusiveScan_in_place Z.add 0 2 last_first [[1; 2; 3; 4; 5]]
              (Ptr 0 0) 5 [1; 2; 3; 4; 5])
    as (m' & Hrun & Hget & _).
  - intros; lia.
  - intros; lia.
  - unfold INT_MAX; lia.
  - exact last_first_ok.
  - reflexivity.
  - unfold SIZE_MAX; lia.
  - by apply array_block.
  - exists m'. split; [exact Hrun | apply (Hget 4%nat); simpl; lia].
Defined.

(** ** Scan and reduce *)

(** The last entry of [inclusiveScan] is the result of [reduce]: with an
    associative operator of which zero is a left identity, whatever the
    worker counts and the schedules of the two calls. *)
Theorem inclusiveScan_last_is_reduce {T} (op : T → T → T) (zero : T)
    (workers workers' : Z) (sched sched' : schedule) (m : mem T)
    (dest out src : ptr) (n : Z) (xs : list T) :
  (∀ a b c, op (op a b) c = op a (op b c)) →
  (∀ a, op zero a = a) →
  1 ≤ workers ≤ INT_MAX → 1 ≤ workers' ≤ INT_MAX →
  schedule_ok sched → schedule_ok sched' →
  n = Z.of_nat (length xs) → 1 ≤ n ≤ SIZE_MAX →
  room m dest n → valid m out → array m src xs →
  blk dest ≠ blk src → blk out ≠ blk src →
  ∃ ms mr,
    run (inclusiveScan zero workers sched dest src n op) m
    = Returned ((), ms) ∧
    run (reduce zero workers' sched' out src n op) m = Returned ((), mr) ∧
    get ms (dest +ₚ (n - 1)) = get mr out ∧
    get mr out = Some (fold_strict op zero xs).
Proof.
  intros Hassoc Hid HP HP' Hsched Hsched' Hxs Hn Hdest Hout Hsrc Hsep Hsep'.
  destruct (scan_running_fold op zero workers sched m dest src n xs)
    as (ms & Hruns & Hgets & _); try done; try lia.
  subst n.
  destruct (wp_returned _ _ _
    (reduceImpl_wp op zero sched' Hassoc Hid Hsched' m out src
       (Z.of_nat (length xs)) workers' (contents zero xs)
       HP' ltac:(lia) Hout
       ltac:(by intros i Hi; apply array_contents)
       ltac:(intros i Hi; ptr_neq)))
    as ([] & mr & Hrunr & _ & Hgetr & _).
  rewrite seg_contents, foldl_zero_strict in Hgetr by done.
  exists ms, mr. split_and!; [done | done | | done].
  rewrite Hgetr.
  replace (Z.of_nat (length xs) - 1)
    with (Z.of_nat (length xs - 1)) by lia.
  rewrite Hgets by lia. unfold running_fold.
  by rewrite take_ge by lia.
Qed.

Lemma inclusiveScan_last_is_reduce_witness :
  ∃ ms mr,
    run (inclusiveScan 0 3 last_first (Ptr 0 0) (Ptr 2 0) 5 Z.add)
      [[0; 0; 0; 0; 0]; [0]; [1; 2; 3; 4; 5]] = Returned ((), ms) ∧
    run (reduce 0 2 in_order (Ptr 1 0) (Ptr 2 0) 5 Z.add)
      [[0; 0; 0; 0; 0]; [0]; [1; 2; 3; 4; 5]] = Returned ((), mr) ∧
    get ms (Ptr 0 0 +ₚ 4) = get mr (Ptr 1 0).
Proof.
  destruct (inclusiveScan_last_is_reduce Z.add 0 3 2 last_first in_order
              [[0; 0; 0; 0; 0]; [0]; [1; 2; 3; 4; 5]]
              (Ptr 0 0) (Ptr 1 0) (Ptr 2 0) 5 [1; 2; 3; 4; 5])
    as (ms & mr & Hruns & Hrunr & Heq & _).
  - intros; lia.
  - intros; lia.
  - unfold INT_MAX; lia.
  - unfold INT_MAX; lia.
  - exact last_first_ok.
  - exact in_order_ok.
  - reflexivity.
  - unfold SIZE_MAX; lia.
  - by apply (room_block _ _ [0; 0; 0; 0; 0]).
  - by eexists.
  - by apply array_block.
  - simpl; lia.
  - simpl; lia.
  - exists ms, mr. split_and!; [exact Hruns | exact Hrunr | exact Heq].
Defined.
